(** * SwapSmith order monitor: a shallow embedding of
      [bot/src/services/order-monitor.ts] and the properties of its
      polling pipeline.

    Conventions.
    - Times ([Date.now()], [Date.getTime()]) and durations are integer
      milliseconds, in [Z].
    - [this.tracked] is a JavaScript [Map]: it iterates in insertion order,
      and [tick] slices a prefix of what it iterates, so it is an
      association list kept in insertion order.
    - The values of the map are [TrackedOrder] objects that [pollOrder]
      keeps a reference to across its awaits and mutates in place.  The
      objects live in a store ([objects]) and the map holds references.
      Only [trackOrder] makes references, to objects that are never freed,
      so every reference read with [!!!] is in range ([wf_world]).
    - The four injected dependencies are the environment.  Every call to
      one of them is appended to [calls]; what the call does (throw,
      reject, fulfil) is an input of the model.
    - [console.log] / [console.error] output is not modelled.
    - For the address validation of [bot.ts] a string is its sequence of
      UTF-16 code units, as the patterns see it. *)

From Stdlib Require Import ZArith Lia.
From stdpp Require Import base strings list gmap.

Local Open Scope Z_scope.

(** ** Types *)

(** [sideshift-client.ts], the address pair of a shift. *)
Record Address := mkAddress {
  address : string;
  memo : option string
}.

(** [sideshift-client.ts], [interface SideShiftOrderStatus].  The monitor
    reads [status] only and hands the record on to the callback. *)
Record SideShiftOrderStatus := mkStatus {
  id : string;
  status : string;
  depositCoin : string;
  depositNetwork : string;
  settleCoin : string;
  settleNetwork : string;
  depositAddress : Address;
  settleAddress : Address;
  depositAmount : option string;
  settleAmount : option string;
  depositHash : option string;
  settleHash : option string;
  createdAtStr : string;
  updatedAtStr : string;
  error : option (string * string)
}.

(** [database.ts], a row of the [orders] table, reduced to the columns
    the monitor reads.  [o_createdAt] is nullable. *)
Record Order := mkOrder {
  sideshiftOrderId : string;
  o_telegramId : Z;
  o_status : string;
  o_createdAt : option Z
}.

(** [interface TrackedOrder]. *)
Record TrackedOrder := mkTracked {
  orderId : string;
  telegramId : Z;
  createdAt : Z;
  lastChecked : Z;
  lastStatus : string
}.

Definition with_lastChecked (t : Z) (o : TrackedOrder) : TrackedOrder :=
  mkTracked (orderId o) (telegramId o) (createdAt o) t (lastStatus o).

Definition with_lastStatus (s : string) (o : TrackedOrder) : TrackedOrder :=
  mkTracked (orderId o) (telegramId o) (createdAt o) (lastChecked o) s.

(** ** Constants *)

Definition TERMINAL_STATUSES : gset string :=
  {[ "settled"; "expired"; "refunded"; "failed" ]}%string.

(** [TERMINAL_STATUSES.has(s)] *)
Definition isTerminal (s : string) : bool :=
  bool_decide (s ∈ TERMINAL_STATUSES).

Definition MAX_CONCURRENT : Z := 5.

Definition TICK_INTERVAL : Z := 10000.

(** ** Backoff *)

Definition getBackoffInterval (ageMs : Z) : Z :=
  if ageMs <? 5 * 60000 then 15000
  else if ageMs <? 30 * 60000 then 60000
  else if ageMs <? 2 * 3600000 then 5 * 60000
  else 15 * 60000.

(** ** JavaScript containers *)

(** A [Map<string, V>] in insertion order.  Keys are unique; [Map_set]
  keeps the position of a key that is already there. *)
Section JsMap.
Context {V : Type}.

Fixpoint Map_get (k : string) (m : list (string * V)) : option V :=
  match m with
  | [] => None
  | (k', v) :: m' => if bool_decide (k' = k) then Some v else Map_get k m'
  end.

Definition Map_has (k : string) (m : list (string * V)) : bool :=
  match Map_get k m with Some _ => true | None => false end.

Fixpoint Map_set (k : string) (v : V) (m : list (string * V)) : list (string * V) :=
  match m with
  | [] => [(k, v)]
  | (k', v') :: m' =>
      if bool_decide (k' = k) then (k, v) :: m' else (k', v') :: Map_set k v m'
  end.

Fixpoint Map_delete (k : string) (m : list (string * V)) : list (string * V) :=
  match m with
  | [] => []
  | (k', v') :: m' =>
      if bool_decide (k' = k) then Map_delete k m' else (k', v') :: Map_delete k m'
  end.

Definition Map_size (m : list (string * V)) : Z := Z.of_nat (length m).

Definition Map_keys (m : list (string * V)) : list string := map fst m.

Definition Map_values (m : list (string * V)) : list V := map snd m.
End JsMap.

(** [Array.prototype.slice(0, e)]: a negative [e] counts from the end. *)
Definition Array_slice0 {A : Type} (e : Z) (l : list A) : list A :=
  let len := Z.of_nat (length l) in
  let k := if e <? 0 then Z.max (len + e) 0 else Z.min e len in
  take (Z.to_nat k) l.

(** ** The environment *)

(** How a call to an injected promise-returning dependency ends. *)
Inductive Outcome (A : Type) : Type :=
| Throws
| Rejects
| Fulfils (a : A).
Arguments Throws {A}.
Arguments Rejects {A}.
Arguments Fulfils {A} a.

(** What [onStatusChange] hands back.  [pollOrder] does not await it. *)
Inductive Returned :=
| Undefined
| PromiseFulfilled
| PromiseRejected.

Inductive CallbackOutcome :=
| CbThrew
| CbReturned (v : Returned).

(** How the promise of an [async] method of the monitor settles. *)
Inductive Settlement :=
| Resolved
| Rejected.

(** The calls the monitor makes on its dependencies. *)
Inductive Call :=
| GetOrderStatus (oid : string)
| UpdateOrderStatus (oid newStatus : string)
| GetPendingOrders
| OnStatusChange (tg : Z) (oid oldStatus newStatus : string)
                 (orderDetails : SideShiftOrderStatus).

Definition isNotification (c : Call) : bool :=
  match c with OnStatusChange _ _ _ _ _ => true | _ => false end.

Definition isWrite (c : Call) : bool :=
  match c with UpdateOrderStatus _ _ => true | _ => false end.

(** ** The monitor *)

(** References into the object store. *)
Abbreviation ref := nat (only parsing).

#[global] Instance TrackedOrder_inhabited : Inhabited TrackedOrder :=
  populate (mkTracked "" 0 0 0 "").

Record Monitor := mkMonitor {
  objects : list TrackedOrder;
  tracked : list (string * ref);
  tickTimer : bool;
  activePollCount : Z;
  calls : list Call
}.

Definition set_objects (h : list TrackedOrder) (m : Monitor) : Monitor :=
  mkMonitor h (tracked m) (tickTimer m) (activePollCount m) (calls m).

Definition set_tracked (t : list (string * ref)) (m : Monitor) : Monitor :=
  mkMonitor (objects m) t (tickTimer m) (activePollCount m) (calls m).

Definition set_tickTimer (b : bool) (m : Monitor) : Monitor :=
  mkMonitor (objects m) (tracked m) b (activePollCount m) (calls m).

Definition set_activePollCount (n : Z) (m : Monitor) : Monitor :=
  mkMonitor (objects m) (tracked m) (tickTimer m) n (calls m).

Definition emit (c : Call) (m : Monitor) : Monitor :=
  mkMonitor (objects m) (tracked m) (tickTimer m) (activePollCount m) (calls m ++ [c]).

(** [new OrderMonitor(deps)] *)
Definition newMonitor : Monitor := mkMonitor [] [] false 0 [].

Definition start (m : Monitor) : Monitor :=
  if tickTimer m then m else set_tickTimer true m.

Definition stop (m : Monitor) : Monitor :=
  if tickTimer m then set_tickTimer false m else m.

(** [now] is the reading of [new Date()] used when [createdAt] is absent. *)
Definition trackOrder (oid : string) (tg : Z) (created : option Z) (now : Z)
    (m : Monitor) : Monitor :=
  if Map_has oid (tracked m) then m
  else
    let o := mkTracked oid tg (default now created) 0 "pending" in
    set_tracked (Map_set oid (length (objects m)) (tracked m))
      (set_objects (objects m ++ [o]) m).

Definition untrackOrder (oid : string) (m : Monitor) : Monitor :=
  set_tracked (Map_delete oid (tracked m)) m.

Definition trackedCount (m : Monitor) : Z := Map_size (tracked m).

Definition getTrackedOrderIds (m : Monitor) : list string := Map_keys (tracked m).

(** The entry of [oid], dereferenced. *)
Definition entry (oid : string) (m : Monitor) : option TrackedOrder :=
  r ← Map_get oid (tracked m); objects m !! r.

(** One iteration of the loop of [loadPendingOrders]. *)
Definition loadOne (now : Z) (m : Monitor) (order : Order) : Monitor :=
  let m1 := trackOrder (sideshiftOrderId order) (o_telegramId order)
              (o_createdAt order) now m in
  match Map_get (sideshiftOrderId order) (tracked m1) with
  | Some r => set_objects (alter (with_lastStatus (o_status order)) r (objects m1)) m1
  | None => m1
  end.

(** [loadPendingOrders], given how [getPendingOrders] ends.  The loop is
    synchronous; [now] stands for its readings of the clock. *)
Definition loadPendingOrders (result : Outcome (list Order)) (now : Z)
    (m : Monitor) : Monitor * Settlement :=
  let m0 := emit GetPendingOrders m in
  match result with
  | Fulfils pendingOrders => (foldl (loadOne now) m0 pendingOrders, Resolved)
  | Throws | Rejects => (m0, Resolved)
  end.

(** *** pollOrder, cut at its awaits *)

(** Lines up to the call of [getOrderStatus]. *)
Definition pollOrder_call (order : ref) (m : Monitor) : Monitor :=
  let m1 := set_activePollCount (activePollCount m + 1) m in
  emit (GetOrderStatus (orderId (objects m1 !!! order))) m1.

(** The [finally] block.  The [catch] block only logs. *)
Definition pollOrder_finally (m : Monitor) : Monitor :=
  set_activePollCount (activePollCount m - 1) m.

(** From the fulfilment of [getOrderStatus] to the call of
    [updateOrderStatus].  [Some (oldStatus, newStatus)] when the write was
    placed, [None] when the statuses are equal. *)
Definition pollOrder_compare (order : ref) (st : SideShiftOrderStatus) (now : Z)
    (m : Monitor) : Monitor * option (string * string) :=
  let m1 := set_objects (alter (with_lastChecked now) order (objects m)) m in
  let newStatus := status st in
  let oldStatus := lastStatus (objects m1 !!! order) in
  if bool_decide (newStatus ≠ oldStatus) then
    let m2 := set_objects (alter (with_lastStatus newStatus) order (objects m1)) m1 in
    (emit (UpdateOrderStatus (orderId (objects m2 !!! order)) newStatus) m2,
     Some (oldStatus, newStatus))
  else (m1, None).

(** From the fulfilment of [updateOrderStatus] to the end of the [try]
    block. *)
Definition pollOrder_notify (order : ref) (oldStatus newStatus : string)
    (st : SideShiftOrderStatus) (cb : CallbackOutcome) (m : Monitor) : Monitor :=
  let o := objects m !!! order in
  let m1 := emit (OnStatusChange (telegramId o) (orderId o) oldStatus newStatus st) m in
  match cb with
  | CbThrew => m1
  | CbReturned _ =>
      if isTerminal newStatus then untrackOrder (orderId o) m1 else m1
  end.

(** What the environment does during one activation of [pollOrder]. *)
Record PollEnv := mkPollEnv {
  env_getOrderStatus : Outcome SideShiftOrderStatus;
  env_now : Z;
  env_updateOrderStatus : Outcome unit;
  env_onStatusChange : CallbackOutcome
}.

(** One activation of [pollOrder], run from start to end. *)
Definition pollOrder (order : ref) (env : PollEnv) (m : Monitor) : Monitor :=
  let m1 := pollOrder_call order m in
  match env_getOrderStatus env with
  | Fulfils st =>
      match pollOrder_compare order st (env_now env) m1 with
      | (m2, Some (oldStatus, newStatus)) =>
          match env_updateOrderStatus env with
          | Fulfils _ =>
              pollOrder_finally
                (pollOrder_notify order oldStatus newStatus st (env_onStatusChange env) m2)
          | Throws | Rejects => pollOrder_finally m2
          end
      | (m2, None) => pollOrder_finally m2
      end
  | Throws | Rejects => pollOrder_finally m1
  end.

(** *** tick *)

Definition isDue (now : Z) (o : TrackedOrder) : bool :=
  let ageMs := now - createdAt o in
  let interval := getBackoffInterval ageMs in
  let elapsed := now - lastChecked o in
  interval <=? elapsed.

Definition toPoll (now : Z) (m : Monitor) : list ref :=
  List.filter (fun r => isDue now (objects m !!! r)) (Map_values (tracked m)).

Definition batch (now : Z) (m : Monitor) : list ref :=
  Array_slice0 (MAX_CONCURRENT - activePollCount m) (toPoll now m).

(** ** The running system

    An activation of [pollOrder] gives control back at each of its two
    awaits; anything else may run before it is resumed.  [inflight] holds
    the suspended activations, keyed by a number given at their start. *)

Inductive Suspended :=
| AwaitStatus (order : ref)
| AwaitWrite (order : ref) (oldStatus newStatus : string) (st : SideShiftOrderStatus).

Record World := mkWorld {
  monitor : Monitor;
  inflight : gmap nat Suspended;
  nextPoll : nat
}.

Definition newWorld : World := mkWorld newMonitor ∅ 0%nat.

Definition on_monitor (f : Monitor -> Monitor) (w : World) : World :=
  mkWorld (f (monitor w)) (inflight w) (nextPoll w).

(** [this.pollOrder(order)] as [batch.map] calls it: it runs to its first
    await.  [throws oid] tells whether [getOrderStatus(oid)] throws instead
    of returning a promise, in which case [catch] and [finally] run at
    once. *)
Definition spawn (throws : string -> bool) (w : World) (order : ref) : World :=
  let m1 := pollOrder_call order (monitor w) in
  if throws (orderId (objects m1 !!! order))
  then mkWorld (pollOrder_finally m1) (inflight w) (nextPoll w)
  else mkWorld m1 (<[nextPoll w := AwaitStatus order]> (inflight w)) (S (nextPoll w)).

(** [tick], up to its await of [Promise.allSettled], after which it does
    nothing more. *)
Definition tick (now : Z) (throws : string -> bool) (w : World) : World :=
  let toPoll := toPoll now (monitor w) in
  if bool_decide (length toPoll = 0%nat) then w
  else
    let batch := Array_slice0 (MAX_CONCURRENT - activePollCount (monitor w)) toPoll in
    if bool_decide (length batch = 0%nat) then w
    else foldl (spawn throws) w batch.

(** The end of an activation: [finally], and it is no longer in flight. *)
Definition finish (p : nat) (m : Monitor) (w : World) : World :=
  mkWorld (pollOrder_finally m) (delete p (inflight w)) (nextPoll w).

Inductive Event :=
| Ev_start
| Ev_stop
| Ev_trackOrder (oid : string) (tg : Z) (created : option Z) (now : Z)
| Ev_untrackOrder (oid : string)
| Ev_loadPendingOrders (result : Outcome (list Order)) (now : Z)
| Ev_timer (now : Z) (throws : string -> bool)
| Ev_statusFulfilled (p : nat) (st : SideShiftOrderStatus) (now : Z) (writeThrows : bool)
| Ev_statusRejected (p : nat)
| Ev_writeFulfilled (p : nat) (cb : CallbackOutcome)
| Ev_writeRejected (p : nat).

(** One turn of the event loop.  [None]: the event cannot happen in [w]
    (the timer is not armed, or [p] is not suspended at that await).
    [loadPendingOrders] has one await, before it touches the monitor; its
    event is the settlement of that await. *)
Definition step (e : Event) (w : World) : option World :=
  match e with
  | Ev_start => Some (on_monitor start w)
  | Ev_stop => Some (on_monitor stop w)
  | Ev_trackOrder oid tg created now => Some (on_monitor (trackOrder oid tg created now) w)
  | Ev_untrackOrder oid => Some (on_monitor (untrackOrder oid) w)
  | Ev_loadPendingOrders result now =>
      Some (on_monitor (fun m => fst (loadPendingOrders result now m)) w)
  | Ev_timer now throws =>
      if tickTimer (monitor w) then Some (tick now throws w) else None
  | Ev_statusFulfilled p st now writeThrows =>
      match inflight w !! p with
      | Some (AwaitStatus order) =>
          match pollOrder_compare order st now (monitor w) with
          | (m2, Some (oldStatus, newStatus)) =>
              if writeThrows then Some (finish p m2 w)
              else Some (mkWorld m2
                           (<[p := AwaitWrite order oldStatus newStatus st]> (inflight w))
                           (nextPoll w))
          | (m2, None) => Some (finish p m2 w)
          end
      | _ => None
      end
  | Ev_statusRejected p =>
      match inflight w !! p with
      | Some (AwaitStatus _) => Some (finish p (monitor w) w)
      | _ => None
      end
  | Ev_writeFulfilled p cb =>
      match inflight w !! p with
      | Some (AwaitWrite order oldStatus newStatus st) =>
          Some (finish p (pollOrder_notify order oldStatus newStatus st cb (monitor w)) w)
      | _ => None
      end
  | Ev_writeRejected p =>
      match inflight w !! p with
      | Some (AwaitWrite _ _ _ _) => Some (finish p (monitor w) w)
      | _ => None
      end
  end.

Fixpoint run (es : list Event) (w : World) : option World :=
  match es with
  | [] => Some w
  | e :: es' => w' ← step e w; run es' w'
  end.

Inductive reachable : World -> Prop :=
| reachable_new : reachable newWorld
| reachable_step e w w' : reachable w -> step e w = Some w' -> reachable w'.

(** * Vocabulary of the properties *)

(** ** Invariants *)

(** Keys of the map are unique, and every entry refers to an object that
    exists and carries the key as its [orderId]. *)
Definition wf_store (objs : list TrackedOrder) (t : list (string * ref)) : Prop :=
  NoDup (Map_keys t) ∧
  ∀ k r, (k, r) ∈ t -> ∃ o, objs !! r = Some o ∧ orderId o = k.

Definition wf_monitor (m : Monitor) : Prop := wf_store (objects m) (tracked m).

Definition order_of (s : Suspended) : ref :=
  match s with AwaitStatus r => r | AwaitWrite r _ _ _ => r end.

Record wf_world (w : World) : Prop := mk_wf_world {
  wf_mon : wf_monitor (monitor w);
  wf_count : activePollCount (monitor w) = Z.of_nat (size (inflight w));
  wf_cap : activePollCount (monitor w) <= MAX_CONCURRENT;
  wf_fresh : ∀ p s, inflight w !! p = Some s -> (p < nextPoll w)%nat;
  wf_polls : ∀ p s, inflight w !! p = Some s -> (order_of s < length (objects (monitor w)))%nat
}.

(** ** What a tick changes *)

Definition fresh (w : World) : Prop :=
  ∀ p s, inflight w !! p = Some s -> (p < nextPoll w)%nat.

(** [dispatched rs w w']: [w'] is [w] after activations were started for
    some of the orders [rs], and nothing else happened. *)
Record dispatched (rs : list ref) (w w' : World) : Prop := mk_dispatched {
  d_objects : objects (monitor w') = objects (monitor w);
  d_tracked : tracked (monitor w') = tracked (monitor w);
  d_timer : tickTimer (monitor w') = tickTimer (monitor w);
  d_active_le :
    activePollCount (monitor w') <= activePollCount (monitor w) + Z.of_nat (length rs);
  d_active_ge : activePollCount (monitor w) <= activePollCount (monitor w');
  d_count :
    activePollCount (monitor w') - Z.of_nat (size (inflight w'))
    = activePollCount (monitor w) - Z.of_nat (size (inflight w));
  d_fresh : fresh w';
  d_old : ∀ p s, inflight w !! p = Some s -> inflight w' !! p = Some s;
  d_new : ∀ p s, inflight w' !! p = Some s ->
                 inflight w !! p = Some s ∨ ∃ r, r ∈ rs ∧ s = AwaitStatus r
}.

(** ** Polls and their calls *)

(** The call threw or its promise rejected. *)
Definition failed {A : Type} (r : Outcome A) : Prop :=
  match r with Fulfils _ => False | _ => True end.

(** [tracks m r o]: the registry of [m] has an entry for [orderId o], and
    that entry is the object [o], stored at [r]. *)
Definition tracks (m : Monitor) (r : ref) (o : TrackedOrder) : Prop :=
  Map_get (orderId o) (tracked m) = Some r ∧ objects m !! r = Some o.

(** The calls made on the way from [m] to [m']. *)
Definition since (m m' : Monitor) : list Call := drop (length (calls m)) (calls m').

(** A later poll that brings nothing new: its fetch fails, or finds the
    status [s] again. *)
Definition nothing_new (s : string) (env : PollEnv) : Prop :=
  match env_getOrderStatus env with
  | Fulfils st => status st = s
  | Throws | Rejects => True
  end.

(** Polls of the same order, one after the other. *)
Definition pollAgain (r : ref) (envs : list PollEnv) (m : Monitor) : Monitor :=
  foldl (fun m0 env => pollOrder r env m0) m envs.

(** [o'] is the object of the same order as [o]: [pollOrder] and
    [loadPendingOrders] write [lastChecked] and [lastStatus] only. *)
Definition same_order (o o' : TrackedOrder) : Prop :=
  orderId o' = orderId o ∧ telegramId o' = telegramId o ∧ createdAt o' = createdAt o.

(** The activation an event resumes, if any. *)
Definition poll_of (e : Event) : option nat :=
  match e with
  | Ev_statusFulfilled p _ _ _ | Ev_statusRejected p
  | Ev_writeFulfilled p _ | Ev_writeRejected p => Some p
  | _ => None
  end.

(** Whether the event [e], happening in [w], can change the entry of
    [oid]: the registry entry ([untrackOrder], the removal at the end of a
    poll of an order with that id) or the order object (the rows of
    [loadPendingOrders], a poll of an order with that id resumed with a
    status). *)
Definition concerns (oid : string) (w : World) (e : Event) : bool :=
  match e with
  | Ev_untrackOrder k => bool_decide (k = oid)
  | Ev_loadPendingOrders (Fulfils rows) _ =>
      bool_decide (oid ∈ map sideshiftOrderId rows)
  | Ev_statusFulfilled q _ _ _ | Ev_writeFulfilled q _ =>
      match inflight w !! q with
      | Some s => bool_decide (orderId (objects (monitor w) !!! order_of s) = oid)
      | None => false
      end
  | _ => false
  end.

(** No event of [es], run from [w], concerns [oid]. *)
Fixpoint undisturbed (oid : string) (es : list Event) (w : World) : bool :=
  match es with
  | [] => true
  | e :: es' =>
      negb (concerns oid w e)
      && match step e w with
         | Some w' => undisturbed oid es' w'
         | None => true
         end
  end.

(** ** Reconciliation *)

(** The row that the loop of [loadPendingOrders] handles last among the
    rows with id [k]. *)
Definition lastRow (k : string) (orders : list Order) : option Order :=
  last (List.filter (fun o => bool_decide (sideshiftOrderId o = k)) orders).

(** ** Inputs for the examples *)

Definition statusOf (oid s : string) : SideShiftOrderStatus :=
  mkStatus oid s "ETH" "ethereum" "BTC" "bitcoin"
    (mkAddress "0xabc" None) (mkAddress "bc1" None)
    None None None None "" "" None.

Definition never : string -> bool := fun _ => false.

(** Worlds reached by a given sequence of events, for use in examples. *)
Definition world_after (es : list Event) : World := default newWorld (run es newWorld).

Definition T0 : Z := 1700000000000.

(** A monitor tracking the single order "order-1" of user 100. *)
Definition m_one : Monitor := trackOrder "order-1" 100 (Some T0) T0 newMonitor.

Definition o_one : TrackedOrder := mkTracked "order-1" 100 T0 0 "pending".

Definition settled : SideShiftOrderStatus := statusOf "order-1" "settled".

Definition waiting : SideShiftOrderStatus := statusOf "order-1" "waiting".

Definition pending : SideShiftOrderStatus := statusOf "order-1" "pending".

Definition env_ok (st : SideShiftOrderStatus) : PollEnv :=
  mkPollEnv (Fulfils st) (T0 + 10005) (Fulfils tt) (CbReturned Undefined).

Definition env_fetch_rejects : PollEnv :=
  mkPollEnv Rejects (T0 + 10005) (Fulfils tt) (CbReturned Undefined).

Definition env_write_rejects : PollEnv :=
  mkPollEnv (Fulfils settled) (T0 + 10005) Rejects (CbReturned Undefined).

Definition env_notify_throws : PollEnv :=
  mkPollEnv (Fulfils settled) (T0 + 10005) (Fulfils tt) CbThrew.

Definition env_notify_rejects : PollEnv :=
  mkPollEnv (Fulfils settled) (T0 + 10005) (Fulfils tt) (CbReturned PromiseRejected).

Definition row_a : Order := mkOrder "order-a" 12345 "waiting" (Some T0).

Definition row_b : Order := mkOrder "order-b" 12345 "processing" None.

Definition seven : list Event :=
  map (fun oid => Ev_trackOrder oid 100 (Some T0) T0)
    ["o1"; "o2"; "o3"; "o4"; "o5"; "o6"; "o7"]%string.

(** An order created at [T0], last checked 275 s later. *)
Definition m_late : Monitor :=
  pollOrder 0%nat (mkPollEnv (Fulfils pending) (T0 + 275000) (Fulfils tt) (CbReturned Undefined))
    m_one.

(** * Further definitions *)

(** The order a call on a dependency is about. *)
Definition call_order (c : Call) : option string :=
  match c with
  | GetOrderStatus oid | UpdateOrderStatus oid _ | OnStatusChange _ oid _ _ _ => Some oid
  | GetPendingOrders => None
  end.

(** An activation suspended at the write knows a change: the statuses it
    carries differ, the new one is the fetched one, and the write for it
    is in the log. *)
Definition pending_write_ok (m : Monitor) (s : Suspended) : Prop :=
  match s with
  | AwaitStatus _ => True
  | AwaitWrite r old new st =>
      old ≠ new ∧ new = status st ∧
      ∃ o, objects m !! r = Some o ∧ UpdateOrderStatus (orderId o) new ∈ calls m
  end.

(** Every notification of the log reports a change to the status of the
    record it passes on, and comes after the write of that status for the
    same order. *)
Definition notified_ok (cs : list Call) : Prop :=
  ∀ i tg oid old new st,
    cs !! i = Some (OnStatusChange tg oid old new st) ->
    old ≠ new ∧ new = status st ∧
    ∃ j, (j < i)%nat ∧ cs !! j = Some (UpdateOrderStatus oid new).

Record log_inv (w : World) : Prop := mk_log_inv {
  li_pending : ∀ p s, inflight w !! p = Some s -> pending_write_ok (monitor w) s;
  li_log : notified_ok (calls (monitor w))
}.

(** ** The orders table ([database.ts])

    The table is the list of its rows, each reduced to the columns of
    [Order].  SQL gives the rows of a query no order, and no statement
    below looks at it. *)
Module Database.

(** [const TERMINAL_STATUSES] of [database.ts] *)
Definition TERMINAL_STATUSES : list string :=
  ["settled"; "expired"; "refunded"; "failed"]%string.

(** [notInArray(column, values)] on one row's value *)
Definition notInArray (v : string) (values : list string) : bool :=
  negb (bool_decide (v ∈ values)).

(** [db.select().from(orders).where(notInArray(orders.status, TERMINAL_STATUSES))] *)
Definition getPendingOrders (table : list Order) : list Order :=
  List.filter (fun row => notInArray (o_status row) TERMINAL_STATUSES) table.

(** [db.update(orders).set({ status: newStatus })
       .where(eq(orders.sideshiftOrderId, sideshiftOrderId))] *)
Definition updateOrderStatus (oid newStatus : string) (table : list Order) : list Order :=
  map (fun row =>
         if bool_decide (sideshiftOrderId row = oid)
         then mkOrder (sideshiftOrderId row) (o_telegramId row) newStatus (o_createdAt row)
         else row)
      table.

(** [db.select().from(orders).where(eq(...)).limit(1)], then [result[0]] *)
Definition getOrderBySideshiftId (oid : string) (table : list Order) : option Order :=
  head (take 1 (List.filter (fun row => bool_decide (sideshiftOrderId row = oid)) table)).

End Database.

(** The start of the bot ([bot.ts]): [loadPendingOrders] is awaited,
    and when its promise resolves the timer is started.  [result] is how
    [db.getPendingOrders] ends, and [m] the monitor at that moment: the
    bot is launched while the read is awaited, so its handlers may have
    tracked orders by then. *)
Definition startup (result : Outcome (list Order)) (now : Z) (m : Monitor) : Monitor :=
  match loadPendingOrders result now m with
  | (m1, Resolved) => start m1
  | (m1, Rejected) => m1
  end.

Definition table_ab : list Order :=
  [row_a; mkOrder "order-c" 5 "settled" (Some T0); row_b].

(** ** Address validation ([bot.ts])

    A JavaScript string is its sequence of UTF-16 code units.  The
    patterns have no flags, so they match unit by unit, [^] at the start
    and [$] at the end of the input only. *)

(** The code units of an ASCII literal. *)
Definition units (s : string) : list N :=
  map (fun a => N.of_nat (Ascii.nat_of_ascii a)) (String.list_ascii_of_string s).

(** The regular expressions the patterns are made of: a character, a
    class [[a-fA-F0-9]] given by its ranges, a sequence, an alternative
    and a class repeated [{min,max}] or [{min,}] times. *)
Inductive RegExp :=
| Char (c : N)
| Class (ranges : list (N * N))
| Cat (a b : RegExp)
| Or (a b : RegExp)
| Repeat (ranges : list (N * N)) (min : nat) (max : option nat).

Definition inClass (c : N) (ranges : list (N * N)) : bool :=
  existsb (fun r => (fst r <=? c)%N && (c <=? snd r)%N) ranges.

(** The class repeated, then the continuation [k] on the rest: every
    number of repetitions the bounds allow is tried. *)
Fixpoint repeatClass (ranges : list (N * N)) (min : nat) (max : option nat)
    (k : list N -> bool) (s : list N) : bool :=
  (bool_decide (min = 0%nat) && k s)
  || match s with
     | c :: s' =>
         inClass c ranges
         && negb (bool_decide (max = Some 0%nat))
         && repeatClass ranges (pred min) (pred <$> max) k s'
     | [] => false
     end.

(** Backtracking match of [re] at the start of [s], then [k] on the
    rest. *)
Fixpoint matchAt (re : RegExp) (k : list N -> bool) (s : list N) : bool :=
  match re with
  | Char c => match s with c' :: s' => bool_decide (c' = c) && k s' | [] => false end
  | Class ranges => match s with c' :: s' => inClass c' ranges && k s' | [] => false end
  | Cat a b => matchAt a (matchAt b k) s
  | Or a b => matchAt a k s || matchAt b k s
  | Repeat ranges min max => repeatClass ranges min max k s
  end.

(** [/^re$/.test(s)] *)
Definition test (re : RegExp) (s : list N) : bool :=
  matchAt re (fun rest => bool_decide (rest = [])) s.

(** A literal prefix, then [re]. *)
Definition lit (s : string) (re : RegExp) : RegExp :=
  foldr (fun c acc => Cat (Char c) acc) re (units s).

(** The range [a-b] of a class. *)
Definition rg (a b : string) : list (N * N) :=
  match units a, units b with
  | [x], [y] => [(x, y)]
  | _, _ => []
  end.

Definition hex : list (N * N) := rg "a" "f" ++ rg "A" "F" ++ rg "0" "9".
Definition base58 : list (N * N) :=
  rg "a" "k" ++ rg "m" "z" ++ rg "A" "H" ++ rg "J" "N" ++ rg "P" "Z" ++ rg "1" "9".
Definition bech : list (N * N) :=
  rg "a" "z" ++ rg "A" "H" ++ rg "J" "N" ++ rg "P" "Z" ++ rg "0" "9".
Definition base58' : list (N * N) :=
  rg "1" "9" ++ rg "A" "H" ++ rg "J" "N" ++ rg "P" "Z" ++ rg "a" "k" ++ rg "m" "z".
Definition alnum : list (N * N) := rg "a" "z" ++ rg "A" "Z" ++ rg "0" "9".
Definition alnum' : list (N * N) := rg "0" "9" ++ rg "a" "z" ++ rg "A" "Z".

(** [/^0x[a-fA-F0-9]{40}$/] *)
Definition DEFAULT_EVM_PATTERN : RegExp := lit "0x" (Repeat hex 40 (Some 40%nat)).

(** [ADDRESS_PATTERNS], its own properties in the order of the literal. *)
Definition ADDRESS_PATTERNS : list (list N * RegExp) :=
  [ (units "ethereum", lit "0x" (Repeat hex 40 (Some 40%nat)));
    (units "bsc", lit "0x" (Repeat hex 40 (Some 40%nat)));
    (units "polygon", lit "0x" (Repeat hex 40 (Some 40%nat)));
    (units "arbitrum", lit "0x" (Repeat hex 40 (Some 40%nat)));
    (units "base", lit "0x" (Repeat hex 40 (Some 40%nat)));
    (units "avalanche", lit "0x" (Repeat hex 40 (Some 40%nat)));
    (units "optimism", lit "0x" (Repeat hex 40 (Some 40%nat)));
    (units "fantom", lit "0x" (Repeat hex 40 (Some 40%nat)));
    (units "bitcoin",
      Or (lit "1" (Repeat base58 25 (Some 34%nat)))
        (Or (lit "3" (Repeat base58 25 (Some 34%nat)))
           (Or (lit "bc1" (Repeat bech 39 (Some 59%nat)))
              (lit "bc1p" (Repeat bech 58 (Some 58%nat))))));
    (units "litecoin",
      Or (Cat (Class (rg "L" "L" ++ rg "M" "M" ++ rg "3" "3"))
            (Repeat base58 26 (Some 33%nat)))
        (lit "ltc1" (Repeat bech 39 (Some 59%nat))));
    (units "solana", Repeat base58' 32 (Some 44%nat));
    (units "tron", lit "T" (Repeat bech 33 (Some 33%nat)));
    (units "ripple", lit "r" (Repeat alnum' 24 (Some 34%nat)));
    (units "xrp", lit "r" (Repeat alnum' 24 (Some 34%nat)));
    (units "dogecoin",
      lit "D" (Cat (Class (rg "5" "9" ++ rg "A" "H" ++ rg "J" "N" ++ rg "P" "U"))
                 (Repeat base58' 32 (Some 32%nat))));
    (units "cosmos", lit "cosmos" (Repeat (rg "a" "z" ++ rg "0" "9") 38 (Some 45%nat)));
    (units "polkadot", lit "1" (Repeat alnum 47 (Some 47%nat)));
    (units "cardano", lit "addr1" (Repeat alnum 53 None));
    (units "monero",
      lit "4" (Cat (Class (rg "0" "9" ++ rg "A" "A" ++ rg "B" "B"))
                 (Repeat base58' 93 (Some 93%nat))));
    (units "zcash", lit "t1" (Repeat alnum 33 (Some 33%nat))) ].

(** What [String.prototype.trim] strips: WhiteSpace (TAB, VT, FF, the
    space separators, U+FEFF) and LineTerminator (LF, CR, U+2028,
    U+2029). *)
Definition isWhiteSpace (c : N) : bool :=
  (bool_decide (c ∈ [9; 10; 11; 12; 13; 32; 160; 5760; 8232; 8233; 8239; 8287;
                     12288; 65279]%N))
  || ((8192 <=? c)%N && (c <=? 8202)%N).

Fixpoint trimStart (s : list N) : list N :=
  match s with
  | c :: s' => if isWhiteSpace c then trimStart s' else s
  | [] => []
  end.

Definition trim (s : list N) : list N := reverse (trimStart (reverse (trimStart s))).

(** [chain.toLowerCase().replace(/[^a-z]/g, '')], unit by unit: what is
    left of a unit is the letters a-z of its lower case.  Beside the
    ASCII letters only U+0130 (lower case "i" and U+0307) and the Kelvin
    sign U+212A (lower case "k") leave one. *)
Definition lowerLetters (c : N) : list N :=
  if ((65 <=? c) && (c <=? 90))%N then [(c + 32)%N]
  else if ((97 <=? c) && (c <=? 122))%N then [c]
  else if (c =? 304)%N then [105%N]
  else if (c =? 8490)%N then [107%N]
  else [].

Definition normalizeChain (chain : list N) : list N := flat_map lowerLetters chain.

(** [ADDRESS_PATTERNS[key]] for a key made of the letters a-z: an own
    property, or [constructor], which the object inherits from
    [Object.prototype] and is no pattern, or nothing. *)
Inductive Property :=
| Own (pattern : RegExp)
| Inherited
| Missing.

Fixpoint ownProperty (key : list N) (o : list (list N * RegExp)) : option RegExp :=
  match o with
  | [] => None
  | (k, v) :: o' => if bool_decide (k = key) then Some v else ownProperty key o'
  end.

Definition getProperty (key : list N) : Property :=
  match ownProperty key ADDRESS_PATTERNS with
  | Some pattern => Own pattern
  | None => if bool_decide (key = units "constructor") then Inherited else Missing
  end.

(** How a call ends: with a value, or with a [TypeError]. *)
Inductive Completion (A : Type) : Type :=
| Return (a : A)
| ThrowTypeError.
Arguments Return {A} a.
Arguments ThrowTypeError {A}.

(** [chain] is [None] for [undefined]. *)
Definition isValidAddress (address : list N) (chain : option (list N)) : Completion bool :=
  if bool_decide (address = []) then Return false
  else
    let trimmedAddress := trim address in
    let anyPattern :=
      if test DEFAULT_EVM_PATTERN trimmedAddress then Return true
      else Return (existsb (fun kv => test (snd kv) trimmedAddress) ADDRESS_PATTERNS) in
    match chain with
    | None | Some [] => anyPattern
    | Some chain =>
        let normalizedChain := normalizeChain chain in
        match getProperty normalizedChain with
        | Own pattern => Return (test pattern trimmedAddress)
        | Inherited => ThrowTypeError
        | Missing => Return (test DEFAULT_EVM_PATTERN trimmedAddress)
        end
    end.

(** The characters a pattern can match are letters and digits when all
    its characters and ranges are. *)
Definition isAlnum (c : N) : bool := inClass c alnum.

Definition alnumRange (r : N * N) : bool :=
  existsb (fun a => (fst a <=? fst r)%N && (snd r <=? snd a)%N) alnum.

Fixpoint alnumRe (re : RegExp) : bool :=
  match re with
  | Char c => isAlnum c
  | Class ranges | Repeat ranges _ _ => forallb alnumRange ranges
  | Cat a b | Or a b => alnumRe a && alnumRe b
  end.

(** The shortest input a pattern can match. *)
Fixpoint minLength (re : RegExp) : nat :=
  match re with
  | Char _ | Class _ => 1
  | Cat a b => minLength a + minLength b
  | Or a b => Nat.min (minLength a) (minLength b)
  | Repeat _ min _ => min
  end.

(** The chains whose own pattern is the EVM one. *)
Definition evmChains : list (list N) :=
  map units ["ethereum"; "bsc"; "polygon"; "arbitrum"; "base"; "avalanche"; "optimism";
             "fantom"]%string.

(** * Proofs *)

(** ** The model at work *)

Example backoff_0 : getBackoffInterval 0 = 15000.
Proof. reflexivity. Qed.

Example backoff_5min : getBackoffInterval (5 * 60000) = 60000.
Proof. reflexivity. Qed.

Example backoff_just_under_5min : getBackoffInterval (4 * 60000 + 59999) = 15000.
Proof. reflexivity. Qed.

Example backoff_2h : getBackoffInterval (2 * 3600000) = 15 * 60000.
Proof. reflexivity. Qed.

Example terminal_settled : isTerminal "settled" = true.
Proof. vm_compute. reflexivity. Qed.

Example terminal_pending : isTerminal "pending" = false.
Proof. vm_compute. reflexivity. Qed.

Example slice_cap : Array_slice0 2 [10; 20; 30] = [10; 20].
Proof. reflexivity. Qed.

Example slice_negative : Array_slice0 (-1) [10; 20; 30] = [10; 20].
Proof. reflexivity. Qed.

Example slice_zero : Array_slice0 0 [10; 20; 30] = [].
Proof. reflexivity. Qed.

(** "calls onStatusChange when status changes" and "removes orders that
    reach a terminal state". *)
Example scenario_settled :
  (w ← run [Ev_trackOrder "order-1" 100 (Some 1700000000000) 1700000000000; Ev_start;
            Ev_timer 1700000010000 never;
            Ev_statusFulfilled 0 (statusOf "order-1" "settled") 1700000010005 false;
            Ev_writeFulfilled 0 (CbReturned Undefined)] newWorld;
   Some (calls (monitor w), trackedCount (monitor w), activePollCount (monitor w)))
  = Some ([GetOrderStatus "order-1";
           UpdateOrderStatus "order-1" "settled";
           OnStatusChange 100 "order-1" "pending" "settled" (statusOf "order-1" "settled")],
          0, 0).
Proof. vm_compute. reflexivity. Qed.

(** "does NOT call onStatusChange when status is unchanged". *)
Example scenario_unchanged :
  (w ← run [Ev_trackOrder "order-1" 100 (Some 1700000000000) 1700000000000; Ev_start;
            Ev_timer 1700000010000 never;
            Ev_statusFulfilled 0 (statusOf "order-1" "pending") 1700000010005 false] newWorld;
   Some (calls (monitor w), trackedCount (monitor w), entry "order-1" (monitor w)))
  = Some ([GetOrderStatus "order-1"], 1,
          Some (mkTracked "order-1" 100 1700000000000 1700000010005 "pending")).
Proof. vm_compute. reflexivity. Qed.

(** "keeps polling after an API error". *)
Example scenario_retry :
  (w1 ← run [Ev_trackOrder "order-1" 100 (Some 1700000000000) 1700000000000; Ev_start;
             Ev_timer 1700000010000 never; Ev_statusRejected 0] newWorld;
   w2 ← run [Ev_timer 1700000020000 never;
             Ev_statusFulfilled 1 (statusOf "order-1" "settled") 1700000020005 false;
             Ev_writeFulfilled 1 (CbReturned Undefined)] w1;
   Some (trackedCount (monitor w1), entry "order-1" (monitor w1),
         trackedCount (monitor w2)))
  = Some (1, Some (mkTracked "order-1" 100 1700000000000 0 "pending"), 0).
Proof. vm_compute. reflexivity. Qed.

(** ** Facts about the containers *)

Section JsMapFacts.
Context {V : Type}.
Implicit Types (m : list (string * V)) (k : string) (v : V).

Lemma Map_get_elem k v m : Map_get k m = Some v -> (k, v) ∈ m.
Proof.
  induction m as [|[k' v'] m IH]; simpl; [done|].
  case_bool_decide as Hk.
  - intros [= ->]. subst. left.
  - intros H. right. auto.
Qed.

Lemma Map_get_None k m : Map_get k m = None <-> k ∉ Map_keys m.
Proof.
  induction m as [|[k' v'] m IH]; simpl.
  - split; [intros _; apply not_elem_of_nil | done].
  - rewrite not_elem_of_cons. case_bool_decide as Hk; simpl.
    + split; [done | intros [Hne _]; congruence].
    + rewrite IH. split; [intros H; split; [congruence | done] | tauto].
Qed.

Lemma Map_has_true k m : Map_has k m = true <-> k ∈ Map_keys m.
Proof.
  unfold Map_has. destruct (Map_get k m) eqn:E.
  - split; [intros _ | done].
    apply Map_get_elem in E. apply (list_elem_of_fmap_2 fst) in E. exact E.
  - apply Map_get_None in E. split; [done | tauto].
Qed.

Lemma Map_has_false k m : Map_has k m = false <-> k ∉ Map_keys m.
Proof.
  rewrite <- Map_has_true. destruct (Map_has k m); split; congruence.
Qed.

Lemma Map_get_unique k v m :
  NoDup (Map_keys m) -> (k, v) ∈ m -> Map_get k m = Some v.
Proof.
  induction m as [|[k' v'] m IH]; simpl.
  - intros _ H. by apply elem_of_nil in H.
  - intros Hnd Hin. apply NoDup_cons in Hnd as [Hk' Hnd].
    apply elem_of_cons in Hin as [Heq | Hin].
    + injection Heq as -> ->. by rewrite bool_decide_eq_true_2.
    + case_bool_decide as Hk.
      * subst k'. exfalso. apply Hk'.
        apply (list_elem_of_fmap_2 fst) in Hin. exact Hin.
      * auto.
Qed.

Lemma Map_set_fresh k v m : k ∉ Map_keys m -> Map_set k v m = m ++ [(k, v)].
Proof.
  induction m as [|[k' v'] m IH]; simpl; [done|].
  rewrite not_elem_of_cons. intros [Hne Hk].
  rewrite bool_decide_eq_false_2 by congruence. by rewrite IH.
Qed.

Lemma Map_delete_elem k k' v m : (k', v) ∈ Map_delete k m <-> k' ≠ k ∧ (k', v) ∈ m.
Proof.
  induction m as [|[k0 v0] m IH]; simpl.
  - split; [intros H; by apply elem_of_nil in H | intros [_ H]; by apply elem_of_nil in H].
  - case_bool_decide as Hk.
    + rewrite IH, elem_of_cons. split; [tauto|].
      intros [Hne [Heq | Hin]]; [congruence | tauto].
    + rewrite !elem_of_cons, IH. split.
      * intros [Heq | [Hne Hin]]; [injection Heq as -> ->; tauto | tauto].
      * intros [Hne [Heq | Hin]]; tauto.
Qed.

Lemma Map_delete_keys k m :
  Map_keys (Map_delete k m) = List.filter (fun k' => negb (bool_decide (k' = k))) (Map_keys m).
Proof.
  induction m as [|[k0 v0] m IH]; simpl; [done|].
  case_bool_decide; simpl; by rewrite IH.
Qed.

Lemma Map_delete_NoDup k m : NoDup (Map_keys m) -> NoDup (Map_keys (Map_delete k m)).
Proof.
  induction m as [|[k0 v0] m IH]; simpl; [done|].
  intros Hnd. apply NoDup_cons in Hnd as [Hk0 Hnd].
  case_bool_decide; simpl; [auto|].
  apply NoDup_cons. split; [|auto].
  intros Hin. apply Hk0. apply list_elem_of_fmap in Hin as [[k1 v1] [-> Hin]].
  apply Map_delete_elem in Hin as [_ Hin].
  apply (list_elem_of_fmap_2 fst) in Hin. exact Hin.
Qed.

Lemma Map_delete_absent k m : k ∉ Map_keys m -> Map_delete k m = m.
Proof.
  induction m as [|[k0 v0] m IH]; simpl; [done|].
  rewrite not_elem_of_cons. intros [Hne Hk].
  rewrite bool_decide_eq_false_2 by congruence. by rewrite IH.
Qed.

Lemma Map_delete_size k m :
  NoDup (Map_keys m) -> k ∈ Map_keys m -> Map_size (Map_delete k m) = Map_size m - 1.
Proof.
  unfold Map_size.
  induction m as [|[k0 v0] m IH]; simpl.
  - intros _ H. by apply elem_of_nil in H.
  - intros Hnd Hin. apply NoDup_cons in Hnd as [Hk0 Hnd].
    case_bool_decide as Hk.
    + subst k0. rewrite Map_delete_absent by done. lia.
    + apply elem_of_cons in Hin as [Heq | Hin]; [congruence|].
      simpl. specialize (IH Hnd Hin). lia.
Qed.

Lemma Map_delete_has k m : Map_has k (Map_delete k m) = false.
Proof.
  apply Map_has_false. rewrite Map_delete_keys.
  intros Hin. apply list_elem_of_In, filter_In in Hin as [_ Hk].
  by rewrite bool_decide_eq_true_2 in Hk.
Qed.

Lemma Map_delete_get_ne k k' m : k' ≠ k -> Map_get k' (Map_delete k m) = Map_get k' m.
Proof.
  intros Hne. induction m as [|[k0 v0] m IH]; simpl; [done|].
  case_bool_decide as Hk; simpl.
  - subst k0. rewrite bool_decide_eq_false_2 by congruence. exact IH.
  - by rewrite IH.
Qed.
End JsMapFacts.

Lemma Array_slice0_length {A : Type} (e : Z) (l : list A) :
  0 <= e -> Z.of_nat (length (Array_slice0 e l)) <= e.
Proof.
  intros He. unfold Array_slice0.
  destruct (e <? 0) eqn:E; [lia|].
  rewrite length_take. lia.
Qed.

Lemma Array_slice0_prefix {A : Type} (e : Z) (l : list A) :
  ∃ rest, l = Array_slice0 e l ++ rest.
Proof.
  unfold Array_slice0. eexists. symmetry. apply take_drop.
Qed.

(** ** The invariant is kept *)

Lemma wf_store_alter f r objs t :
  (∀ o, orderId (f o) = orderId o) ->
  wf_store objs t -> wf_store (alter f r objs) t.
Proof.
  intros Hf [Hnd Hrefs]. split; [done|].
  intros k r' Hin. destruct (Hrefs k r' Hin) as (o & Ho & Hk).
  destruct (decide (r = r')) as [->|Hne].
  - exists (f o). rewrite list_lookup_alter_eq, Ho. simpl. by rewrite Hf.
  - exists o. by rewrite list_lookup_alter_ne.
Qed.

Lemma wf_store_delete k objs t : wf_store objs t -> wf_store objs (Map_delete k t).
Proof.
  intros [Hnd Hrefs]. split; [by apply Map_delete_NoDup|].
  intros k' r Hin. apply Map_delete_elem in Hin as [_ Hin]. eauto.
Qed.

Lemma wf_store_track k o objs t :
  orderId o = k -> k ∉ Map_keys t ->
  wf_store objs t -> wf_store (objs ++ [o]) (Map_set k (length objs) t).
Proof.
  intros Ho Hk [Hnd Hrefs]. rewrite Map_set_fresh by done. split.
  - unfold Map_keys. rewrite map_app. simpl.
    apply NoDup_app. split; [done|]. split; [|apply NoDup_singleton].
    intros x Hx Hx'. apply list_elem_of_singleton in Hx'. by subst.
  - intros k' r Hin. apply elem_of_app in Hin as [Hin | Hin].
    + destruct (Hrefs k' r Hin) as (o' & Ho' & Hk').
      exists o'. split; [|done]. by apply lookup_app_l_Some.
    + apply list_elem_of_singleton in Hin. injection Hin as -> ->.
      exists o. split; [|done]. by rewrite list_lookup_middle.
Qed.

Lemma with_lastChecked_orderId t o : orderId (with_lastChecked t o) = orderId o.
Proof. reflexivity. Qed.

Lemma with_lastStatus_orderId s o : orderId (with_lastStatus s o) = orderId o.
Proof. reflexivity. Qed.

Lemma trackOrder_wf oid tg created now m :
  wf_monitor m -> wf_monitor (trackOrder oid tg created now m).
Proof.
  intros Hwf. unfold trackOrder. destruct (Map_has oid (tracked m)) eqn:E; [done|].
  apply Map_has_false in E. unfold wf_monitor. simpl.
  by apply wf_store_track.
Qed.

Lemma untrackOrder_wf oid m : wf_monitor m -> wf_monitor (untrackOrder oid m).
Proof. intros Hwf. unfold wf_monitor, untrackOrder. simpl. by apply wf_store_delete. Qed.

Lemma loadOne_wf now m order : wf_monitor m -> wf_monitor (loadOne now m order).
Proof.
  intros Hwf. unfold loadOne.
  pose proof (trackOrder_wf (sideshiftOrderId order) (o_telegramId order)
                (o_createdAt order) now m Hwf) as H1.
  destruct (Map_get _ _); [|done].
  unfold wf_monitor. simpl. by apply wf_store_alter.
Qed.

Lemma foldl_loadOne_wf now orders m :
  wf_monitor m -> wf_monitor (foldl (loadOne now) m orders).
Proof.
  revert m. induction orders as [|o orders IH]; simpl; [done|].
  intros m Hwf. apply IH. by apply loadOne_wf.
Qed.

Lemma loadPendingOrders_wf result now m :
  wf_monitor m -> wf_monitor (fst (loadPendingOrders result now m)).
Proof.
  intros Hwf. unfold loadPendingOrders. destruct result; simpl; try done.
  by apply foldl_loadOne_wf.
Qed.

Lemma pollOrder_compare_wf order st now m :
  wf_monitor m -> wf_monitor (fst (pollOrder_compare order st now m)).
Proof.
  intros Hwf. unfold pollOrder_compare. case_bool_decide; simpl.
  - unfold wf_monitor. simpl. apply wf_store_alter; [done|]. by apply wf_store_alter.
  - unfold wf_monitor. simpl. by apply wf_store_alter.
Qed.

Lemma pollOrder_notify_wf order o n st cb m :
  wf_monitor m -> wf_monitor (pollOrder_notify order o n st cb m).
Proof.
  intros Hwf. unfold pollOrder_notify. destruct cb; [done|].
  destruct (isTerminal n); [|done]. by apply untrackOrder_wf.
Qed.

(** The object store only grows, and objects keep their place. *)
Lemma trackOrder_length oid tg created now m :
  (length (objects m) <= length (objects (trackOrder oid tg created now m)))%nat.
Proof.
  unfold trackOrder. destruct (Map_has _ _); simpl; [lia|].
  rewrite length_app. simpl. lia.
Qed.

Lemma loadOne_length now m order :
  (length (objects m) <= length (objects (loadOne now m order)))%nat.
Proof.
  unfold loadOne.
  pose proof (trackOrder_length (sideshiftOrderId order) (o_telegramId order)
                (o_createdAt order) now m).
  destruct (Map_get _ _); simpl; [|done]. by rewrite length_alter.
Qed.

Lemma foldl_loadOne_length now orders m :
  (length (objects m) <= length (objects (foldl (loadOne now) m orders)))%nat.
Proof.
  revert m. induction orders as [|o orders IH]; simpl; [done|].
  intros m. pose proof (loadOne_length now m o). specialize (IH (loadOne now m o)). lia.
Qed.

Lemma pollOrder_compare_length order st now m :
  length (objects (fst (pollOrder_compare order st now m))) = length (objects m).
Proof.
  unfold pollOrder_compare. case_bool_decide; simpl; by rewrite !length_alter.
Qed.

Lemma pollOrder_compare_active order st now m :
  activePollCount (fst (pollOrder_compare order st now m)) = activePollCount m.
Proof. unfold pollOrder_compare. by case_bool_decide. Qed.

Lemma pollOrder_notify_objects order o n st cb m :
  objects (pollOrder_notify order o n st cb m) = objects m.
Proof. unfold pollOrder_notify. destruct cb; [done|]. by destruct (isTerminal n). Qed.

Lemma pollOrder_notify_active order o n st cb m :
  activePollCount (pollOrder_notify order o n st cb m) = activePollCount m.
Proof. unfold pollOrder_notify. destruct cb; [done|]. by destruct (isTerminal n). Qed.

(** *** What a tick changes *)

Lemma dispatched_refl rs w : fresh w -> dispatched rs w w.
Proof. intros Hf. split; simpl; auto; lia. Qed.

Lemma spawn_dispatched throws w r : fresh w -> dispatched [r] w (spawn throws w r).
Proof.
  intros Hf.
  assert (inflight w !! nextPoll w = None) as Hnone.
  { destruct (inflight w !! nextPoll w) eqn:E; [|done]. apply Hf in E. lia. }
  unfold spawn. destruct (throws _); split; simpl; auto; try lia.
  - rewrite map_size_insert_None by done. lia.
  - unfold fresh. simpl. intros p s. destruct (decide (p = nextPoll w)) as [->|Hne].
    + rewrite lookup_insert_eq. lia.
    + rewrite lookup_insert_ne by done. intros H. apply Hf in H. lia.
  - intros p s H. rewrite lookup_insert_ne; [done|]. apply Hf in H. lia.
  - intros p s. destruct (decide (p = nextPoll w)) as [->|Hne].
    + rewrite lookup_insert_eq. intros [= <-]. right. exists r. split; [left | done].
    + rewrite lookup_insert_ne by done. auto.
Qed.

Lemma dispatched_trans rs1 rs2 w1 w2 w3 :
  dispatched rs1 w1 w2 -> dispatched rs2 w2 w3 -> dispatched (rs1 ++ rs2) w1 w3.
Proof.
  intros [] []. split; try congruence.
  - rewrite length_app. lia.
  - lia.
  - auto.
  - auto.
  - intros p s H. apply d_new1 in H as [H | (r & Hr & ->)].
    + apply d_new0 in H as [H | (r & Hr & ->)]; [by left|].
      right. exists r. split; [|done]. apply elem_of_app. by left.
    + right. exists r. split; [|done]. apply elem_of_app. by right.
Qed.

Lemma foldl_spawn_dispatched throws rs w :
  fresh w -> dispatched rs w (foldl (spawn throws) w rs).
Proof.
  revert w. induction rs as [|r rs IH]; simpl; intros w Hf.
  - by apply dispatched_refl.
  - pose proof (spawn_dispatched throws w r Hf) as H1.
    apply (dispatched_trans [r] rs _ _ _ H1). apply IH. apply H1.
Qed.

Lemma tick_dispatched now throws w :
  fresh w -> dispatched (batch now (monitor w)) w (tick now throws w).
Proof.
  intros Hf. unfold tick. fold (batch now (monitor w)).
  case_bool_decide as H1.
  - by apply dispatched_refl.
  - case_bool_decide as H2.
    + by apply dispatched_refl.
    + by apply foldl_spawn_dispatched.
Qed.

Lemma batch_length now m :
  activePollCount m <= MAX_CONCURRENT ->
  Z.of_nat (length (batch now m)) <= MAX_CONCURRENT - activePollCount m.
Proof. intros H. apply Array_slice0_length. lia. Qed.

Lemma batch_elem now m r :
  r ∈ batch now m -> ∃ k, (k, r) ∈ tracked m ∧ isDue now (objects m !!! r) = true.
Proof.
  unfold batch. destruct (Array_slice0_prefix (MAX_CONCURRENT - activePollCount m) (toPoll now m))
    as [rest Hrest].
  intros Hin. assert (r ∈ toPoll now m) as Hr.
  { rewrite Hrest. apply elem_of_app. by left. }
  unfold toPoll in Hr. apply list_elem_of_In, filter_In in Hr as [Hr Hdue].
  apply list_elem_of_In in Hr. unfold Map_values in Hr.
  apply list_elem_of_fmap in Hr as [[k r'] [-> Hin']]. eauto.
Qed.

(** *** The invariant holds in every reachable world *)

Lemma finish_wf p s m w :
  wf_world w -> inflight w !! p = Some s ->
  wf_monitor m -> activePollCount m = activePollCount (monitor w) ->
  (length (objects (monitor w)) <= length (objects m))%nat ->
  wf_world (finish p m w).
Proof.
  intros [] Hp Hm Hact Hlen. split; simpl.
  - exact Hm.
  - rewrite map_size_delete_Some by eauto. rewrite Hact, wf_count0.
    assert (size (inflight w) ≠ 0%nat); [|lia].
    intros H0. apply map_size_empty_inv in H0. rewrite H0 in Hp. by rewrite lookup_empty in Hp.
  - lia.
  - intros q s' Hq. apply lookup_delete_Some in Hq as [_ Hq]. eauto.
  - intros q s' Hq. apply lookup_delete_Some in Hq as [_ Hq].
    apply wf_polls0 in Hq. lia.
Qed.

Lemma on_monitor_wf f w :
  wf_world w ->
  wf_monitor (f (monitor w)) ->
  activePollCount (f (monitor w)) = activePollCount (monitor w) ->
  (length (objects (monitor w)) <= length (objects (f (monitor w))))%nat ->
  wf_world (on_monitor f w).
Proof.
  intros [] Hm Hact Hlen. split; simpl; auto; try lia.
  intros q s' Hq. apply wf_polls0 in Hq. lia.
Qed.

Lemma tick_wf now throws w : wf_world w -> wf_world (tick now throws w).
Proof.
  intros Hwf. pose proof Hwf as [].
  pose proof (tick_dispatched now throws w wf_fresh0) as [].
  pose proof (batch_length now (monitor w) wf_cap0).
  split.
  - unfold wf_monitor. by rewrite d_objects0, d_tracked0.
  - lia.
  - lia.
  - exact d_fresh0.
  - intros p s Hp. rewrite d_objects0.
    apply d_new0 in Hp as [Hp | (r & Hr & ->)]; [eauto|].
    apply batch_elem in Hr as (k & Hk & _).
    apply wf_mon0 in Hk as (o & Ho & _). simpl. by apply lookup_lt_Some in Ho.
Qed.

Lemma trackOrder_active oid tg created now m :
  activePollCount (trackOrder oid tg created now m) = activePollCount m.
Proof. unfold trackOrder. by destruct (Map_has _ _). Qed.

Lemma loadOne_active now m order :
  activePollCount (loadOne now m order) = activePollCount m.
Proof.
  unfold loadOne. destruct (Map_get _ _); simpl; apply trackOrder_active.
Qed.

Lemma foldl_loadOne_active now orders m :
  activePollCount (foldl (loadOne now) m orders) = activePollCount m.
Proof.
  revert m. induction orders as [|o orders IH]; simpl; [done|].
  intros m. by rewrite IH, loadOne_active.
Qed.

Lemma loadPendingOrders_active result now m :
  activePollCount (fst (loadPendingOrders result now m)) = activePollCount m.
Proof.
  unfold loadPendingOrders. destruct result; simpl; try done.
  by rewrite foldl_loadOne_active.
Qed.

Lemma loadPendingOrders_length result now m :
  (length (objects m) <= length (objects (fst (loadPendingOrders result now m))))%nat.
Proof.
  unfold loadPendingOrders. destruct result; simpl; try done.
  apply (foldl_loadOne_length now a (emit GetPendingOrders m)).
Qed.

Lemma step_wf e w w' : wf_world w -> step e w = Some w' -> wf_world w'.
Proof.
  intros Hwf Hstep. pose proof Hwf as [].
  destruct e; simpl in Hstep.
  - injection Hstep as <-. apply on_monitor_wf; auto; unfold start; by destruct (tickTimer _).
  - injection Hstep as <-. apply on_monitor_wf; auto; unfold stop; by destruct (tickTimer _).
  - injection Hstep as <-. apply on_monitor_wf; auto.
    + by apply trackOrder_wf.
    + apply trackOrder_active.
    + apply trackOrder_length.
  - injection Hstep as <-. apply on_monitor_wf; auto. by apply untrackOrder_wf.
  - injection Hstep as <-. apply on_monitor_wf; auto.
    + by apply loadPendingOrders_wf.
    + apply loadPendingOrders_active.
    + apply loadPendingOrders_length.
  - destruct (tickTimer _); [|done]. injection Hstep as <-. by apply tick_wf.
  - destruct (inflight w !! p) as [[order|]|] eqn:Hp; try done.
    pose proof (pollOrder_compare_wf order st now (monitor w) wf_mon0) as Hm.
    pose proof (pollOrder_compare_active order st now (monitor w)) as Ha.
    pose proof (pollOrder_compare_length order st now (monitor w)) as Hl.
    destruct (pollOrder_compare order st now (monitor w)) as [m2 [[o n]|]]; simpl in *.
    + destruct writeThrows; injection Hstep as <-.
      * eapply finish_wf; eauto. lia.
      * split; simpl; auto.
        -- rewrite map_size_insert_Some by eauto. lia.
        -- lia.
        -- intros q s. destruct (decide (q = p)) as [->|Hne].
           ++ intros _. eauto.
           ++ rewrite lookup_insert_ne by done. eauto.
        -- intros q s. rewrite Hl. destruct (decide (q = p)) as [->|Hne].
           ++ rewrite lookup_insert_eq. intros [= <-]. simpl.
              apply (wf_polls0 p _ Hp).
           ++ rewrite lookup_insert_ne by done. eauto.
    + injection Hstep as <-. eapply finish_wf; eauto. lia.
  - destruct (inflight w !! p) as [[order|]|] eqn:Hp; try done.
    injection Hstep as <-. eapply finish_wf; eauto.
  - destruct (inflight w !! p) as [[|order o n st]|] eqn:Hp; try done.
    injection Hstep as <-. eapply finish_wf; eauto.
    + by apply pollOrder_notify_wf.
    + apply pollOrder_notify_active.
    + by rewrite pollOrder_notify_objects.
  - destruct (inflight w !! p) as [[|order o n st]|] eqn:Hp; try done.
    injection Hstep as <-. eapply finish_wf; eauto.
Qed.

Lemma newWorld_wf : wf_world newWorld.
Proof.
  split; simpl; try done.
  split; [apply NoDup_nil_2|]. intros k r H. by apply elem_of_nil in H.
Qed.

Lemma reachable_wf w : reachable w -> wf_world w.
Proof.
  induction 1 as [|e w w' _ IH Hstep]; [apply newWorld_wf | by eapply step_wf].
Qed.

Lemma run_reachable es w w' : reachable w -> run es w = Some w' -> reachable w'.
Proof.
  revert w. induction es as [|e es IH]; simpl; intros w Hr Hrun.
  - by injection Hrun as <-.
  - destruct (step e w) as [w1|] eqn:E; [|done]. simpl in Hrun.
    eapply IH; [|exact Hrun]. by eapply reachable_step.
Qed.

Lemma world_after_reachable es : reachable (world_after es).
Proof.
  unfold world_after. destruct (run es newWorld) as [w|] eqn:E; simpl.
  - eapply run_reachable; [apply reachable_new | exact E].
  - apply reachable_new.
Qed.

(** ** Backoff policy *)

(** C3: for every non-negative age [a] in milliseconds, [getBackoffInterval a]
    is exactly 15000 when [a < 300000], 60000 when [300000 <= a < 1800000],
    300000 when [1800000 <= a < 7200000] and 900000 when [a >= 7200000]. *)
Theorem getBackoffInterval_tiers (a : Z) :
  0 <= a ->
  (a < 300000 -> getBackoffInterval a = 15000) ∧
  (300000 <= a < 1800000 -> getBackoffInterval a = 60000) ∧
  (1800000 <= a < 7200000 -> getBackoffInterval a = 300000) ∧
  (7200000 <= a -> getBackoffInterval a = 900000).
Proof.
  intros Ha. unfold getBackoffInterval.
  destruct (Z.ltb_spec a (5 * 60000)), (Z.ltb_spec a (30 * 60000)),
    (Z.ltb_spec a (2 * 3600000)); repeat split; intros Hrange; try lia; reflexivity.
Qed.

Lemma getBackoffInterval_tiers_witness :
  getBackoffInterval 299999 = 15000 ∧
  getBackoffInterval 300000 = 60000 ∧
  getBackoffInterval 1800000 = 300000 ∧
  getBackoffInterval 7200000 = 900000.
Proof.
  split; [|split; [|split]].
  - apply (getBackoffInterval_tiers 299999); lia.
  - apply (getBackoffInterval_tiers 300000); lia.
  - apply (getBackoffInterval_tiers 1800000); lia.
  - apply (getBackoffInterval_tiers 7200000); lia.
Defined.

(** ** Registry *)

Lemma trackOrder_has oid tg created now m :
  Map_has oid (tracked (trackOrder oid tg created now m)) = true.
Proof.
  unfold trackOrder. destruct (Map_has oid (tracked m)) eqn:E; [done|].
  simpl. apply Map_has_false in E. rewrite Map_set_fresh by done.
  apply Map_has_true. unfold Map_keys. rewrite map_app. simpl.
  apply elem_of_app. right. left.
Qed.

(** C8: [trackOrder] on an [orderId] that is already in the registry leaves
    the monitor as it is, so the count and the fields of the entry are
    kept; tracking the same id twice is tracking it once; and in every
    reachable state the ids of the registry are pairwise distinct. *)
Theorem trackOrder_idempotent :
  (∀ oid tg created now m,
     Map_has oid (tracked m) = true -> trackOrder oid tg created now m = m) ∧
  (∀ oid tg created now tg' created' now' m,
     trackOrder oid tg' created' now' (trackOrder oid tg created now m)
     = trackOrder oid tg created now m) ∧
  (∀ w, reachable w -> NoDup (getTrackedOrderIds (monitor w))).
Proof.
  assert (∀ oid tg created now m,
            Map_has oid (tracked m) = true -> trackOrder oid tg created now m = m) as H1.
  { intros oid tg created now m H. unfold trackOrder. by rewrite H. }
  split; [exact H1|]. split.
  - intros. apply H1. apply trackOrder_has.
  - intros w Hr. apply reachable_wf in Hr. apply Hr.
Qed.

Lemma trackOrder_idempotent_witness :
  let w := world_after [Ev_trackOrder "order-1" 100 None 1700000000000] in
  trackOrder "order-1" 200 (Some 5) 1700000000500 (monitor w) = monitor w ∧
  trackedCount (trackOrder "order-1" 200 (Some 5) 1700000000500 (monitor w)) = 1 ∧
  NoDup (getTrackedOrderIds (monitor w)).
Proof.
  destruct trackOrder_idempotent as (H1 & _ & H3).
  intros w. split; [|split].
  - apply H1. vm_compute. reflexivity.
  - rewrite H1; vm_compute; reflexivity.
  - apply H3. apply world_after_reachable.
Defined.

(** ** Concurrency cap *)

Lemma toPoll_elem now m k r :
  (k, r) ∈ tracked m -> isDue now (objects m !!! r) = true -> r ∈ toPoll now m.
Proof.
  intros Hin Hdue. unfold toPoll. apply list_elem_of_In, filter_In. split; [|done].
  apply list_elem_of_In. unfold Map_values.
  apply (list_elem_of_fmap_2 snd) in Hin. exact Hin.
Qed.

(** C5: [MAX_CONCURRENT] is 5; in every reachable state the counter
    [activePollCount] is the number of activations of [pollOrder] in flight
    and is at most [MAX_CONCURRENT]; a tick, whatever is still in flight from earlier
    ticks, starts at most [MAX_CONCURRENT] minus that number of polls, for a
    prefix of the due orders, so that at most [MAX_CONCURRENT] are in
    flight after it; it changes neither the registry nor any tracked
    order nor any poll already in flight; and every tracked order that is
    due at a tick is among the candidates of that tick. *)
Theorem concurrency_cap w :
  reachable w ->
  MAX_CONCURRENT = 5 ∧
  activePollCount (monitor w) = Z.of_nat (size (inflight w)) ∧
  Z.of_nat (size (inflight w)) <= MAX_CONCURRENT ∧
  ∀ now throws,
    let w' := tick now throws w in
    Z.of_nat (length (batch now (monitor w)))
      <= MAX_CONCURRENT - Z.of_nat (size (inflight w)) ∧
    (∃ rest, toPoll now (monitor w) = batch now (monitor w) ++ rest) ∧
    Z.of_nat (size (inflight w'))
      <= Z.of_nat (size (inflight w)) + Z.of_nat (length (batch now (monitor w))) ∧
    Z.of_nat (size (inflight w')) <= MAX_CONCURRENT ∧
    activePollCount (monitor w') = Z.of_nat (size (inflight w')) ∧
    tracked (monitor w') = tracked (monitor w) ∧
    objects (monitor w') = objects (monitor w) ∧
    (∀ p s, inflight w !! p = Some s -> inflight w' !! p = Some s) ∧
    (∀ p s, inflight w' !! p = Some s ->
            inflight w !! p = Some s ∨
            ∃ r, r ∈ batch now (monitor w) ∧ s = AwaitStatus r) ∧
    (∀ k r, (k, r) ∈ tracked (monitor w) ->
            isDue now (objects (monitor w) !!! r) = true ->
            r ∈ toPoll now (monitor w)).
Proof.
  intros Hr. apply reachable_wf in Hr. pose proof Hr as [].
  split; [done|]. split; [done|]. split; [lia|]. intros now throws w'.
  pose proof (tick_dispatched now throws w wf_fresh0) as [].
  pose proof (batch_length now (monitor w) wf_cap0) as Hlen.
  pose proof (tick_wf now throws w Hr) as [].
  fold w' in d_objects0, d_tracked0, d_active_le0, d_count0, d_old0, d_new0,
             wf_count1, wf_cap1.
  repeat split; try done; try lia.
  - apply Array_slice0_prefix.
  - intros k r. apply toPoll_elem.
Qed.

(** ** One poll, from start to end *)

Lemma alter_as_insert {A : Type} (f : A -> A) (l : list A) (i : nat) (x : A) :
  l !! i = Some x -> alter f i l = <[i := f x]> l.
Proof.
  intros H. rewrite list_insert_alter. apply list_alter_ext; [|done].
  intros y Hy. congruence.
Qed.

Lemma lookup_total_insert_eq (l : list TrackedOrder) (i : nat) (x y : TrackedOrder) :
  l !! i = Some x -> <[i := y]> l !!! i = y.
Proof.
  intros H. apply list_lookup_total_correct.
  apply list_lookup_insert_eq. by apply lookup_lt_Some in H.
Qed.

Section OnePoll.
Variables (m : Monitor) (r : ref) (o : TrackedOrder).
Hypothesis Ho : objects m !! r = Some o.

Lemma pollOrder_call_eq :
  pollOrder_call r m
  = mkMonitor (objects m) (tracked m) (tickTimer m) (activePollCount m + 1)
      (calls m ++ [GetOrderStatus (orderId o)]).
Proof.
  unfold pollOrder_call, emit. simpl.
  by rewrite (list_lookup_total_correct _ _ _ Ho).
Qed.

Lemma pollOrder_compare_same st now m0 :
  objects m0 !! r = Some o ->
  status st = lastStatus o ->
  pollOrder_compare r st now m0
  = (set_objects (<[r := with_lastChecked now o]> (objects m0)) m0, None).
Proof.
  intros H0 Heq. unfold pollOrder_compare. simpl.
  rewrite (alter_as_insert _ _ _ _ H0).
  rewrite (lookup_total_insert_eq _ _ _ _ H0). simpl.
  by rewrite bool_decide_eq_false_2 by (intros Hne; by apply Hne).
Qed.

Lemma pollOrder_compare_diff st now m0 :
  objects m0 !! r = Some o ->
  status st ≠ lastStatus o ->
  pollOrder_compare r st now m0
  = (emit (UpdateOrderStatus (orderId o) (status st))
       (set_objects
          (<[r := with_lastStatus (status st) (with_lastChecked now o)]> (objects m0))
          m0),
     Some (lastStatus o, status st)).
Proof.
  intros H0 Hne. unfold pollOrder_compare. simpl.
  rewrite (alter_as_insert _ _ _ _ H0).
  rewrite (lookup_total_insert_eq _ _ _ _ H0). simpl.
  rewrite bool_decide_eq_true_2 by done.
  assert (<[r := with_lastChecked now o]> (objects m0) !! r
          = Some (with_lastChecked now o)) as H1.
  { apply list_lookup_insert_eq. by apply lookup_lt_Some in H0. }
  rewrite (alter_as_insert _ _ _ _ H1).
  rewrite (lookup_total_insert_eq _ _ _ _ H1).
  by rewrite list_insert_insert_eq.
Qed.

(** The fetch throws or rejects. *)
Lemma pollOrder_fetch_failed env :
  failed (env_getOrderStatus env) ->
  pollOrder r env m
  = mkMonitor (objects m) (tracked m) (tickTimer m) (activePollCount m)
      (calls m ++ [GetOrderStatus (orderId o)]).
Proof.
  intros Hf. unfold pollOrder. rewrite pollOrder_call_eq.
  destruct (env_getOrderStatus env); try done;
    unfold pollOrder_finally, set_activePollCount; simpl; f_equal; lia.
Qed.

(** The fetch succeeds with the status the order already has. *)
Lemma pollOrder_same env st :
  env_getOrderStatus env = Fulfils st ->
  status st = lastStatus o ->
  pollOrder r env m
  = mkMonitor (<[r := with_lastChecked (env_now env) o]> (objects m)) (tracked m) (tickTimer m)
      (activePollCount m) (calls m ++ [GetOrderStatus (orderId o)]).
Proof.
  intros Hst Heq. unfold pollOrder. rewrite pollOrder_call_eq, Hst.
  rewrite pollOrder_compare_same by done.
  unfold pollOrder_finally, set_activePollCount, set_objects; simpl; f_equal; lia.
Qed.

(** The fetch succeeds with another status and the write fails. *)
Lemma pollOrder_write_failed env st :
  env_getOrderStatus env = Fulfils st ->
  status st ≠ lastStatus o ->
  failed (env_updateOrderStatus env) ->
  pollOrder r env m
  = mkMonitor
      (<[r := with_lastStatus (status st) (with_lastChecked (env_now env) o)]> (objects m))
      (tracked m) (tickTimer m) (activePollCount m)
      (calls m ++ [GetOrderStatus (orderId o); UpdateOrderStatus (orderId o) (status st)]).
Proof.
  intros Hst Hne Hf. unfold pollOrder. rewrite pollOrder_call_eq, Hst.
  rewrite pollOrder_compare_diff by done.
  destruct (env_updateOrderStatus env); try done;
    unfold pollOrder_finally, set_activePollCount, set_objects, emit; simpl;
    rewrite <- app_assoc; simpl; f_equal; lia.
Qed.

(** The fetch succeeds with another status and the write succeeds. *)
Lemma pollOrder_written env st u :
  env_getOrderStatus env = Fulfils st ->
  status st ≠ lastStatus o ->
  env_updateOrderStatus env = Fulfils u ->
  pollOrder r env m
  = mkMonitor
      (<[r := with_lastStatus (status st) (with_lastChecked (env_now env) o)]> (objects m))
      (match env_onStatusChange env with
       | CbThrew => tracked m
       | CbReturned _ =>
           if isTerminal (status st) then Map_delete (orderId o) (tracked m)
           else tracked m
       end)
      (tickTimer m) (activePollCount m)
      (calls m ++ [GetOrderStatus (orderId o);
                   UpdateOrderStatus (orderId o) (status st);
                   OnStatusChange (telegramId o) (orderId o) (lastStatus o) (status st) st]).
Proof.
  intros Hst Hne Hu. unfold pollOrder. rewrite pollOrder_call_eq, Hst.
  rewrite pollOrder_compare_diff by done. rewrite Hu.
  unfold pollOrder_notify. simpl.
  rewrite (lookup_total_insert_eq _ _ _ _ Ho). simpl.
  destruct (env_onStatusChange env); [|destruct (isTerminal (status st))];
    unfold pollOrder_finally, untrackOrder, set_tracked, set_activePollCount,
      set_objects, emit; simpl;
    rewrite <- !app_assoc; simpl; f_equal; lia.
Qed.
End OnePoll.

Lemma since_app m m' cs : calls m' = calls m ++ cs -> since m m' = cs.
Proof. intros H. unfold since. rewrite H. apply drop_app_length. Qed.

Lemma m_one_tracks : tracks m_one 0%nat o_one.
Proof. split; reflexivity. Qed.

Lemma m_one_wf : wf_monitor m_one.
Proof. apply trackOrder_wf. apply newWorld_wf. Qed.

(** ** Status change detection *)

(** C1, as amended: when the fetch of a tracked order fulfils, then
    - if the fetched status equals [lastStatus], the poll makes no write and
      no notification;
    - if it differs, [updateOrderStatus] is called, and when that call
      fulfils [onStatusChange] is called once, with the owner, the order
      id, the old status, the new status and the fetched record; when the
      write throws or rejects, [onStatusChange] is not called;
    so, for polls whose write does not fail, the notification is made if
    and only if the status differs. *)
Theorem notification_iff_changed m r o env st :
  tracks m r o ->
  env_getOrderStatus env = Fulfils st ->
  let m' := pollOrder r env m in
  let notification :=
    OnStatusChange (telegramId o) (orderId o) (lastStatus o) (status st) st in
  (status st = lastStatus o -> since m m' = [GetOrderStatus (orderId o)]) ∧
  (status st ≠ lastStatus o ->
     (∀ u, env_updateOrderStatus env = Fulfils u ->
        since m m' = [GetOrderStatus (orderId o);
                      UpdateOrderStatus (orderId o) (status st);
                      notification]) ∧
     (failed (env_updateOrderStatus env) ->
        since m m' = [GetOrderStatus (orderId o);
                      UpdateOrderStatus (orderId o) (status st)])) ∧
  (¬ failed (env_updateOrderStatus env) ->
     (notification ∈ since m m' <-> status st ≠ lastStatus o) ∧
     (∀ c, c ∈ since m m' -> isNotification c = true -> c = notification)).
Proof.
  intros [_ Ho] Hst m' notification.
  assert (status st = lastStatus o -> since m m' = [GetOrderStatus (orderId o)]) as Hsame.
  { intros Heq. apply since_app. unfold m'.
    by rewrite (pollOrder_same m r o Ho env st Hst Heq). }
  assert (status st ≠ lastStatus o ->
          ∀ u, env_updateOrderStatus env = Fulfils u ->
            since m m' = [GetOrderStatus (orderId o);
                          UpdateOrderStatus (orderId o) (status st);
                          notification]) as Hdiff.
  { intros Hne u Hu. apply since_app. unfold m'.
    by rewrite (pollOrder_written m r o Ho env st u Hst Hne Hu). }
  split; [exact Hsame|]. split.
  - intros Hne. split; [by apply Hdiff|].
    intros Hf. apply since_app. unfold m'.
    by rewrite (pollOrder_write_failed m r o Ho env st Hst Hne Hf).
  - intros Hok. destruct (env_updateOrderStatus env) as [| |u] eqn:Hu;
      try (exfalso; by apply Hok).
    destruct (decide (status st = lastStatus o)) as [Heq|Hne].
    + rewrite (Hsame Heq). split.
      * split; [|done]. intros Hin. apply list_elem_of_singleton in Hin. discriminate.
      * intros c Hin Hc. apply list_elem_of_singleton in Hin. by subst c.
    + rewrite (Hdiff Hne u eq_refl). split.
      * split; [done|]. intros _. do 2 right. left.
      * intros c Hin Hc.
        apply elem_of_cons in Hin as [-> | Hin]; [discriminate|].
        apply elem_of_cons in Hin as [-> | Hin]; [discriminate|].
        by apply list_elem_of_singleton in Hin.
Qed.

Lemma notification_iff_changed_witness :
  since m_one (pollOrder 0%nat (env_ok settled) m_one)
  = [GetOrderStatus "order-1"; UpdateOrderStatus "order-1" "settled";
     OnStatusChange 100 "order-1" "pending" "settled" settled].
Proof.
  destruct (notification_iff_changed m_one 0%nat o_one (env_ok settled) settled
              m_one_tracks eq_refl) as (_ & H & _).
  destruct H as [H _]; [discriminate|].
  exact (H tt eq_refl).
Defined.

(** C1 as stated fails: the fetch fulfils with a status that differs and
    the write rejects; no notification is made. *)
Lemma notification_iff_changed_counterexample :
  ¬ (∀ m r o env st,
       tracks m r o ->
       env_getOrderStatus env = Fulfils st ->
       (OnStatusChange (telegramId o) (orderId o) (lastStatus o) (status st) st
          ∈ since m (pollOrder r env m)
        <-> status st ≠ lastStatus o)).
Proof.
  intros H.
  specialize (H m_one 0%nat o_one env_write_rejects settled m_one_tracks eq_refl).
  destruct H as [_ H]. specialize (H ltac:(discriminate)).
  vm_compute in H.
  apply elem_of_cons in H as [H | H]; [discriminate|].
  apply elem_of_cons in H as [H | H]; [discriminate|].
  by apply elem_of_nil in H.
Qed.

Lemma getBackoffInterval_range a :
  getBackoffInterval a = 15000 ∨ getBackoffInterval a = 60000 ∨
  getBackoffInterval a = 300000 ∨ getBackoffInterval a = 900000.
Proof.
  unfold getBackoffInterval.
  destruct (Z.ltb_spec a (5 * 60000)), (Z.ltb_spec a (30 * 60000)),
    (Z.ltb_spec a (2 * 3600000)); auto.
Qed.

Lemma toPoll_iff now m r :
  r ∈ toPoll now m <-> r ∈ Map_values (tracked m) ∧ isDue now (objects m !!! r) = true.
Proof. unfold toPoll. by rewrite list_elem_of_In, filter_In, <- list_elem_of_In. Qed.

(** C4, as amended: a poll of a tracked order sets [lastChecked] to the
    reading of the clock made when the fetch fulfils, and only then; when
    [getOrderStatus] throws or rejects, the order object, [lastChecked]
    included, and the registry are left as they were.  So after a failed
    fetch the order is a candidate of a tick exactly when the backoff
    interval of its age at that tick has passed since the last fulfilled
    fetch: it is one again at a later tick if its age is still in the
    same tier, and at any tick 900000 ms after that fetch; when the age
    has crossed into a longer tier it is not due before the longer
    interval has passed.  The same holds at the await of an activation in
    the running system, whatever else has run. *)
Theorem lastChecked_on_success m r o env :
  tracks m r o ->
  let m' := pollOrder r env m in
  (∀ st, env_getOrderStatus env = Fulfils st ->
     ∃ o', objects m' !! r = Some o' ∧ lastChecked o' = env_now env) ∧
  (failed (env_getOrderStatus env) ->
     objects m' !! r = Some o ∧
     tracked m' = tracked m ∧
     (∀ now, r ∈ toPoll now m'
             <-> getBackoffInterval (now - createdAt o) <= now - lastChecked o) ∧
     (∀ now now', r ∈ toPoll now m -> now <= now' ->
        getBackoffInterval (now' - createdAt o) = getBackoffInterval (now - createdAt o) ->
        r ∈ toPoll now' m') ∧
     (∀ now, lastChecked o + 900000 <= now -> r ∈ toPoll now m')) ∧
  (∀ w p, inflight w !! p = Some (AwaitStatus r) ->
     objects (monitor w) !! r = Some o ->
     (∃ w', step (Ev_statusRejected p) w = Some w' ∧
            objects (monitor w') = objects (monitor w) ∧
            tracked (monitor w') = tracked (monitor w)) ∧
     (∀ st now writeThrows,
        ∃ w' o', step (Ev_statusFulfilled p st now writeThrows) w = Some w' ∧
                 objects (monitor w') !! r = Some o' ∧ lastChecked o' = now)).
Proof.
  intros [Hget Ho] m'. pose proof (lookup_lt_Some _ _ _ Ho) as Hlt. split; [|split].
  - intros st Hst. unfold m'.
    destruct (decide (status st = lastStatus o)) as [Heq|Hne].
    + rewrite (pollOrder_same m r o Ho env st Hst Heq). simpl.
      eexists. split; [by apply list_lookup_insert_eq | done].
    + destruct (env_updateOrderStatus env) as [| |u] eqn:Hu.
      * rewrite (pollOrder_write_failed m r o Ho env st Hst Hne); [|by rewrite Hu].
        simpl. eexists. split; [by apply list_lookup_insert_eq | done].
      * rewrite (pollOrder_write_failed m r o Ho env st Hst Hne); [|by rewrite Hu].
        simpl. eexists. split; [by apply list_lookup_insert_eq | done].
      * rewrite (pollOrder_written m r o Ho env st u Hst Hne Hu).
        simpl. eexists. split; [by apply list_lookup_insert_eq | done].
  - intros Hf. unfold m'. rewrite (pollOrder_fetch_failed m r o Ho env Hf).
    assert (∀ now, r ∈ toPoll now
                     (mkMonitor (objects m) (tracked m) (tickTimer m) (activePollCount m)
                        (calls m ++ [GetOrderStatus (orderId o)]))
                   <-> getBackoffInterval (now - createdAt o) <= now - lastChecked o)
      as Hdue.
    { intros now. rewrite toPoll_iff. simpl.
      rewrite (list_lookup_total_correct _ _ _ Ho). unfold isDue. rewrite Z.leb_le.
      split; [by intros [_ H]|]. intros H. split; [|done].
      apply Map_get_elem in Hget. apply (list_elem_of_fmap_2 snd) in Hget. exact Hget. }
    split; [done|]. split; [done|]. split; [exact Hdue|]. split.
    + intros now now' Hin Hle Htier. apply Hdue.
      apply toPoll_iff in Hin as [_ Hin]. rewrite (list_lookup_total_correct _ _ _ Ho) in Hin.
      unfold isDue in Hin. apply Z.leb_le in Hin. lia.
    + intros now Hlate. apply Hdue.
      destruct (getBackoffInterval_range (now - createdAt o)) as [H | [H | [H | H]]];
        rewrite H; lia.
  - intros w p Hp How. split.
    + eexists. simpl. rewrite Hp. split; [reflexivity|]. done.
    + intros st now writeThrows. simpl. rewrite Hp.
      destruct (decide (status st = lastStatus o)) as [Heq|Hne].
      * rewrite (pollOrder_compare_same r o st now (monitor w) How Heq).
        eexists. eexists. split; [reflexivity|]. simpl.
        split; [apply list_lookup_insert_eq; by apply lookup_lt_Some in How | done].
      * rewrite (pollOrder_compare_diff r o st now (monitor w) How Hne).
        destruct writeThrows; eexists; eexists; (split; [reflexivity|]); simpl;
          (split; [apply list_lookup_insert_eq; by apply lookup_lt_Some in How | done]).
Qed.

Lemma lastChecked_on_success_witness :
  (∃ o', objects (pollOrder 0%nat (env_ok pending) m_one) !! 0%nat = Some o'
         ∧ lastChecked o' = T0 + 10005) ∧
  objects (pollOrder 0%nat env_fetch_rejects m_one) !! 0%nat = Some o_one ∧
  0%nat ∈ toPoll (T0 + 20000) (pollOrder 0%nat env_fetch_rejects m_one).
Proof.
  split; [|split].
  - destruct (lastChecked_on_success m_one 0%nat o_one (env_ok pending) m_one_tracks)
      as [H _].
    exact (H pending eq_refl).
  - destruct (lastChecked_on_success m_one 0%nat o_one env_fetch_rejects m_one_tracks)
      as (_ & H & _).
    exact (proj1 (H I)).
  - destruct (lastChecked_on_success m_one 0%nat o_one env_fetch_rejects m_one_tracks)
      as (_ & H & _).
    destruct (H I) as (_ & _ & _ & H1 & _).
    apply (H1 (T0 + 10000) (T0 + 20000)); [vm_compute; left | lia | reflexivity].
Defined.

(** A failed fetch does not always mean a retry at the next tick: the
    order, 275 s after its last check, is polled at 290 s and the fetch
    rejects; at 300 s its age is in the 60 s tier, and it is not due again
    before 335 s. *)
Example retry_waits_for_longer_tier :
  let m' := pollOrder 0%nat (mkPollEnv Rejects (T0 + 290001) (Fulfils tt) (CbReturned Undefined))
              m_late in
  toPoll (T0 + 290000) m_late = [0%nat] ∧
  toPoll (T0 + 300000) m' = [] ∧ toPoll (T0 + 330000) m' = [] ∧
  toPoll (T0 + 340000) m' = [0%nat].
Proof. vm_compute. done. Qed.

(** C4 as stated fails: the fetch rejects and [lastChecked] keeps its old
    value, 0, instead of the time of the attempt. *)
Lemma lastChecked_on_success_counterexample :
  ¬ (∀ m r o env,
       tracks m r o ->
       ∃ o', objects (pollOrder r env m) !! r = Some o' ∧ lastChecked o' = env_now env).
Proof.
  intros H.
  destruct (H m_one 0%nat o_one env_fetch_rejects m_one_tracks) as (o' & Ho' & Hc).
  vm_compute in Ho'. injection Ho' as <-. vm_compute in Hc. discriminate.
Qed.

(** ** Terminal statuses *)

Lemma tracks_key m r o : tracks m r o -> orderId o ∈ Map_keys (tracked m).
Proof.
  intros [Hget _]. apply Map_get_elem in Hget.
  apply (list_elem_of_fmap_2 fst) in Hget. exact Hget.
Qed.

(** A poll that runs from start to end with nothing in between: when it
    observes a changed status, the write fulfils and the callback
    returns, then
    - if the new status is terminal, the order is no longer in the
      registry at the end of the poll, the count is one less, the other
      entries are kept, and the write and the notification were made, in
      this order;
    - if the new status is not terminal, the registry is as before and the
      entry carries the new status.
    Up to the call of [updateOrderStatus] the registry is not touched. *)
Lemma pollOrder_terminal m r o env st u v :
  wf_monitor m ->
  tracks m r o ->
  env_getOrderStatus env = Fulfils st ->
  status st ≠ lastStatus o ->
  env_updateOrderStatus env = Fulfils u ->
  env_onStatusChange env = CbReturned v ->
  let m' := pollOrder r env m in
  (isTerminal (status st) = true ->
     Map_has (orderId o) (tracked m') = false ∧
     trackedCount m' = trackedCount m - 1 ∧
     (∀ k, k ≠ orderId o -> Map_get k (tracked m') = Map_get k (tracked m)) ∧
     since m m' = [GetOrderStatus (orderId o);
                   UpdateOrderStatus (orderId o) (status st);
                   OnStatusChange (telegramId o) (orderId o) (lastStatus o) (status st) st]) ∧
  (isTerminal (status st) = false ->
     tracked m' = tracked m ∧
     trackedCount m' = trackedCount m ∧
     entry (orderId o) m'
       = Some (with_lastStatus (status st) (with_lastChecked (env_now env) o))) ∧
  tracked (fst (pollOrder_compare r st (env_now env) (pollOrder_call r m))) = tracked m.
Proof.
  intros [Hnd _] Htr Hst Hne Hu Hv m'. pose proof Htr as [Hget Ho].
  unfold m'. rewrite (pollOrder_written m r o Ho env st u Hst Hne Hu), Hv.
  split; [|split].
  - intros Hterm. rewrite Hterm. simpl. split; [apply Map_delete_has|].
    split; [|split].
    + unfold trackedCount. simpl. apply Map_delete_size; [done|].
      by eapply tracks_key.
    + intros k Hk. by apply Map_delete_get_ne.
    + by apply since_app.
  - intros Hterm. rewrite Hterm. split; [done|]. split; [done|].
    unfold entry. simpl. rewrite Hget. simpl.
    apply list_lookup_insert_eq. by apply lookup_lt_Some in Ho.
  - rewrite (pollOrder_call_eq m r o Ho).
    rewrite (pollOrder_compare_diff r o st (env_now env)); [done | exact Ho | exact Hne].
Qed.

(** C2 as stated fails: the poll observes the change to the terminal
    status "settled", the write rejects, and the order stays in the
    registry. *)
Lemma terminal_removed_counterexample :
  ¬ (∀ m r o env st,
       wf_monitor m ->
       tracks m r o ->
       env_getOrderStatus env = Fulfils st ->
       status st ≠ lastStatus o ->
       isTerminal (status st) = true ->
       Map_has (orderId o) (tracked (pollOrder r env m)) = false ∧
       trackedCount (pollOrder r env m) = trackedCount m - 1).
Proof.
  intros H.
  destruct (H m_one 0%nat o_one env_write_rejects settled m_one_wf m_one_tracks eq_refl
              ltac:(discriminate) ltac:(vm_compute; reflexivity)) as [Hhas _].
  vm_compute in Hhas. discriminate.
Qed.

(** ** Failures of the write and of the notification *)

(** C9, as amended: when a poll detects a change to a terminal status and
    the write fulfils, [onStatusChange] is called; if the call returns,
    even with a promise that later rejects, which [pollOrder] does not
    await, the order is removed from the registry; if the call throws,
    control goes to the [catch] block and the order stays in the
    registry, with the new status as its [lastStatus]. *)
Theorem notification_failure m r o env st u :
  wf_monitor m ->
  tracks m r o ->
  env_getOrderStatus env = Fulfils st ->
  status st ≠ lastStatus o ->
  env_updateOrderStatus env = Fulfils u ->
  isTerminal (status st) = true ->
  let m' := pollOrder r env m in
  OnStatusChange (telegramId o) (orderId o) (lastStatus o) (status st) st ∈ since m m' ∧
  (∀ v, env_onStatusChange env = CbReturned v ->
     Map_has (orderId o) (tracked m') = false ∧
     trackedCount m' = trackedCount m - 1) ∧
  (env_onStatusChange env = CbThrew ->
     tracked m' = tracked m ∧
     entry (orderId o) m'
       = Some (with_lastStatus (status st) (with_lastChecked (env_now env) o))).
Proof.
  intros [Hnd _] Htr Hst Hne Hu Hterm m'. pose proof Htr as [Hget Ho].
  unfold m'. rewrite (pollOrder_written m r o Ho env st u Hst Hne Hu), Hterm.
  split; [|split].
  - erewrite since_app; [|reflexivity]. do 2 right. left.
  - intros v ->. simpl. split; [apply Map_delete_has|].
    unfold trackedCount. simpl. apply Map_delete_size; [done|]. by eapply tracks_key.
  - intros ->. simpl. split; [done|].
    unfold entry. simpl. rewrite Hget. simpl.
    apply list_lookup_insert_eq. by apply lookup_lt_Some in Ho.
Qed.

Lemma notification_failure_witness :
  Map_has "order-1" (tracked (pollOrder 0%nat env_notify_rejects m_one)) = false ∧
  tracked (pollOrder 0%nat env_notify_throws m_one) = tracked m_one.
Proof.
  pose proof (notification_failure m_one 0%nat o_one env_notify_rejects settled tt
                m_one_wf m_one_tracks eq_refl ltac:(discriminate) eq_refl
                ltac:(vm_compute; reflexivity)) as (_ & H1 & _).
  pose proof (notification_failure m_one 0%nat o_one env_notify_throws settled tt
                m_one_wf m_one_tracks eq_refl ltac:(discriminate) eq_refl
                ltac:(vm_compute; reflexivity)) as (_ & _ & H2).
  split; [apply (H1 PromiseRejected eq_refl) | apply (H2 eq_refl)].
Defined.

(** C9 as stated fails: the status is terminal, the callback throws, and
    the order is still in the registry at the end of the poll. *)
Lemma notification_failure_counterexample :
  ¬ (∀ m r o env st u,
       wf_monitor m ->
       tracks m r o ->
       env_getOrderStatus env = Fulfils st ->
       status st ≠ lastStatus o ->
       env_updateOrderStatus env = Fulfils u ->
       isTerminal (status st) = true ->
       (env_onStatusChange env = CbThrew ∨
        env_onStatusChange env = CbReturned PromiseRejected) ->
       Map_has (orderId o) (tracked (pollOrder r env m)) = false).
Proof.
  intros H.
  specialize (H m_one 0%nat o_one env_notify_throws settled tt m_one_wf m_one_tracks
                eq_refl ltac:(discriminate) eq_refl ltac:(vm_compute; reflexivity)
                (or_introl eq_refl)).
  vm_compute in H. discriminate.
Qed.

Lemma pollOrder_nothing_new m r o env :
  objects m !! r = Some o ->
  nothing_new (lastStatus o) env ->
  let m' := pollOrder r env m in
  tracked m' = tracked m ∧
  calls m' = calls m ++ [GetOrderStatus (orderId o)] ∧
  ∃ o', objects m' !! r = Some o' ∧ lastStatus o' = lastStatus o ∧ orderId o' = orderId o.
Proof.
  intros Ho Hnew m'. unfold m', nothing_new in *.
  destruct (env_getOrderStatus env) as [| |st] eqn:Hst.
  - rewrite (pollOrder_fetch_failed m r o Ho env) by (by rewrite Hst). simpl.
    split; [done|]. split; [done|]. by exists o.
  - rewrite (pollOrder_fetch_failed m r o Ho env) by (by rewrite Hst). simpl.
    split; [done|]. split; [done|]. by exists o.
  - rewrite (pollOrder_same m r o Ho env st Hst Hnew). simpl.
    split; [done|]. split; [done|].
    exists (with_lastChecked (env_now env) o). split; [|done].
    apply list_lookup_insert_eq. by apply lookup_lt_Some in Ho.
Qed.

Lemma pollAgain_nothing_new r envs m o :
  objects m !! r = Some o ->
  Forall (nothing_new (lastStatus o)) envs ->
  let m' := pollAgain r envs m in
  tracked m' = tracked m ∧
  (∃ cs, calls m' = calls m ++ cs ∧
         Forall (fun c => isNotification c = false ∧ isWrite c = false) cs) ∧
  ∃ o', objects m' !! r = Some o' ∧ lastStatus o' = lastStatus o ∧ orderId o' = orderId o.
Proof.
  revert m o. induction envs as [|env envs IH]; simpl; intros m o Ho Hall.
  - split; [done|]. split; [|eauto]. exists []. by rewrite app_nil_r.
  - apply Forall_cons in Hall as [Hnew Hall].
    destruct (pollOrder_nothing_new m r o env Ho Hnew) as (Ht & Hc & o1 & Ho1 & Hs1 & Hid1).
    rewrite <- Hs1 in Hall.
    destruct (IH _ o1 Ho1 Hall) as (Ht2 & (cs & Hc2 & Hcs) & o2 & Ho2 & Hs2 & Hid2).
    split; [congruence|]. split.
    + exists (GetOrderStatus (orderId o) :: cs). split.
      * rewrite Hc2, Hc, <- app_assoc. done.
      * apply Forall_cons. split; [done | exact Hcs].
    + exists o2. split; [done|]. split; congruence.
Qed.

(** C10: when the write throws or rejects for a detected change, the
    order object already carries the new status, no notification is made
    and the order is not removed; and after any number of further polls
    of the order whose fetch fails or finds that status again, still no
    notification has been made since the change was detected and the
    order, be its status terminal, is still in the registry. *)
Theorem write_failure_sticks m r o env st envs :
  tracks m r o ->
  env_getOrderStatus env = Fulfils st ->
  status st ≠ lastStatus o ->
  failed (env_updateOrderStatus env) ->
  Forall (nothing_new (status st)) envs ->
  let m1 := pollOrder r env m in
  let m2 := pollAgain r envs m1 in
  entry (orderId o) m1
    = Some (with_lastStatus (status st) (with_lastChecked (env_now env) o)) ∧
  since m m1 = [GetOrderStatus (orderId o); UpdateOrderStatus (orderId o) (status st)] ∧
  tracked m1 = tracked m ∧
  tracked m2 = tracked m ∧
  Map_has (orderId o) (tracked m2) = true ∧
  (∃ o2, entry (orderId o) m2 = Some o2 ∧ lastStatus o2 = status st) ∧
  (∀ c, c ∈ since m m2 -> isNotification c = false).
Proof.
  intros Htr Hst Hne Hf Hall m1 m2. pose proof Htr as [Hget Ho].
  pose proof (pollOrder_write_failed m r o Ho env st Hst Hne Hf) as Hm1.
  fold m1 in Hm1.
  assert (objects m1 !! r
          = Some (with_lastStatus (status st) (with_lastChecked (env_now env) o))) as Ho1.
  { rewrite Hm1. simpl. apply list_lookup_insert_eq. by apply lookup_lt_Some in Ho. }
  assert (tracked m1 = tracked m) as Ht1 by (by rewrite Hm1).
  destruct (pollAgain_nothing_new r envs m1 _ Ho1 Hall)
    as (Ht2 & (cs & Hc2 & Hcs) & o2 & Ho2 & Hs2 & Hid2).
  fold m2 in Ht2, Hc2, Ho2. simpl in Hs2, Hid2.
  split; [|split; [|split; [|split; [|split; [|split]]]]].
  - unfold entry. rewrite Ht1, Hget. exact Ho1.
  - apply since_app. by rewrite Hm1.
  - exact Ht1.
  - congruence.
  - rewrite Ht2, Ht1. apply Map_has_true. by eapply tracks_key.
  - exists o2. split; [|done]. unfold entry. rewrite Ht2, Ht1, Hget. exact Ho2.
  - intros c Hin.
    erewrite since_app in Hin; [|rewrite Hc2, Hm1; simpl; rewrite <- app_assoc; reflexivity].
    simpl in Hin.
    apply elem_of_cons in Hin as [-> | Hin]; [done|].
    apply elem_of_cons in Hin as [-> | Hin]; [done|].
    rewrite Forall_forall in Hcs. by apply Hcs.
Qed.

Lemma write_failure_sticks_witness :
  let m2 := pollAgain 0%nat [env_ok settled; env_fetch_rejects; env_ok settled]
              (pollOrder 0%nat env_write_rejects m_one) in
  Map_has "order-1" (tracked m2) = true ∧
  (∃ o2, entry "order-1" m2 = Some o2 ∧ lastStatus o2 = "settled") ∧
  (∀ c, c ∈ since m_one m2 -> isNotification c = false).
Proof.
  pose proof (write_failure_sticks m_one 0%nat o_one env_write_rejects settled
                [env_ok settled; env_fetch_rejects; env_ok settled]
                m_one_tracks eq_refl ltac:(discriminate) I
                ltac:(repeat constructor)) as H.
  simpl in H. destruct H as (_ & _ & _ & _ & H1 & H2 & H3).
  intros m2. split; [exact H1|]. split; [exact H2 | exact H3].
Defined.

(** ** Transient poll failures *)

Lemma pollOrder_compare_finally order st now m :
  pollOrder_compare order st now (pollOrder_finally m)
  = (pollOrder_finally (fst (pollOrder_compare order st now m)),
     snd (pollOrder_compare order st now m)).
Proof. unfold pollOrder_compare. simpl. by case_bool_decide. Qed.

Lemma pollOrder_notify_finally order o n st cb m :
  pollOrder_notify order o n st cb (pollOrder_finally m)
  = pollOrder_finally (pollOrder_notify order o n st cb m).
Proof.
  unfold pollOrder_notify. simpl. destruct cb; [done|]. by destruct (isTerminal n).
Qed.

(** A rejected fetch commutes with what happens to any other activation. *)
Lemma statusRejected_commute w p order e q w2 :
  inflight w !! p = Some (AwaitStatus order) ->
  poll_of e = Some q -> q ≠ p ->
  step e w = Some w2 ->
  ∃ w3, step e (finish p (monitor w) w) = Some w3 ∧
        step (Ev_statusRejected p) w2 = Some w3.
Proof.
  intros Hp He Hq Hstep.
  destruct e; simpl in He; try discriminate; injection He as ->; simpl in *.
  - rewrite lookup_delete_ne by done.
    destruct (inflight w !! q) as [[order'|]|] eqn:Hq'; try done.
    rewrite pollOrder_compare_finally.
    destruct (pollOrder_compare order' st now (monitor w)) as [m2 [[o n]|]]; simpl.
    + destruct writeThrows; injection Hstep as <-; simpl.
      * rewrite lookup_delete_ne by done. rewrite Hp.
        eexists. split; [reflexivity|]. unfold finish. simpl.
        by rewrite (delete_delete (inflight w) p q).
      * rewrite lookup_insert_ne by done. rewrite Hp.
        eexists. split; [reflexivity|]. unfold finish. simpl.
        by rewrite delete_insert_ne by done.
    + injection Hstep as <-. simpl. rewrite lookup_delete_ne by done. rewrite Hp.
      eexists. split; [reflexivity|]. unfold finish. simpl.
      by rewrite (delete_delete (inflight w) p q).
  - rewrite lookup_delete_ne by done.
    destruct (inflight w !! q) as [[order'|]|] eqn:Hq'; try done.
    injection Hstep as <-. simpl. rewrite lookup_delete_ne by done. rewrite Hp.
    eexists. split; [reflexivity|]. unfold finish. simpl.
    by rewrite (delete_delete (inflight w) p q).
  - rewrite lookup_delete_ne by done.
    destruct (inflight w !! q) as [[|order' o n st]|] eqn:Hq'; try done.
    injection Hstep as <-. simpl. rewrite lookup_delete_ne by done. rewrite Hp.
    rewrite pollOrder_notify_finally.
    eexists. split; [reflexivity|]. unfold finish. simpl.
    by rewrite (delete_delete (inflight w) p q).
  - rewrite lookup_delete_ne by done.
    destruct (inflight w !! q) as [[|order' o n st]|] eqn:Hq'; try done.
    injection Hstep as <-. simpl. rewrite lookup_delete_ne by done. rewrite Hp.
    eexists. split; [reflexivity|]. unfold finish. simpl.
    by rewrite (delete_delete (inflight w) p q).
Qed.

(** Every order of the batch whose call does not throw gets its
    activation, whatever the calls for the other orders did. *)
Lemma foldl_spawn_started throws rs w r :
  fresh w -> r ∈ rs ->
  throws (orderId (objects (monitor w) !!! r)) = false ->
  ∃ p, inflight (foldl (spawn throws) w rs) !! p = Some (AwaitStatus r).
Proof.
  revert w. induction rs as [|r0 rs IH]; intros w Hf Hin Hthrows.
  - by apply elem_of_nil in Hin.
  - simpl. pose proof (spawn_dispatched throws w r0 Hf) as Hd.
    apply elem_of_cons in Hin as [-> | Hin].
    + exists (nextPoll w).
      apply (d_old _ _ _ (foldl_spawn_dispatched throws rs _ (d_fresh _ _ _ Hd))).
      unfold spawn. simpl. rewrite Hthrows. simpl. apply lookup_insert_eq.
    + apply IH; [apply Hd | done |]. by rewrite (d_objects _ _ _ Hd).
Qed.

(** C6: when the fetch of a tracked order throws or rejects, the registry
    and every order object are as before the poll, so the order is still
    tracked with the [lastStatus] it had; the only call made is the fetch:
    no write, no notification.  In the running system the rejection ends
    that activation alone: the other activations stay in flight as they
    were, and each of their later steps has the effect it has without the
    rejection; and in a tick every order of the batch whose call does not
    throw is started, whatever the calls for the others did. *)
Theorem fetch_failure_isolated :
  (∀ m r o env,
     tracks m r o -> failed (env_getOrderStatus env) ->
     let m' := pollOrder r env m in
     tracked m' = tracked m ∧ objects m' = objects m ∧
     entry (orderId o) m' = Some o ∧
     activePollCount m' = activePollCount m ∧
     since m m' = [GetOrderStatus (orderId o)]) ∧
  (∀ w p order,
     inflight w !! p = Some (AwaitStatus order) ->
     ∃ w1, step (Ev_statusRejected p) w = Some w1 ∧
           tracked (monitor w1) = tracked (monitor w) ∧
           objects (monitor w1) = objects (monitor w) ∧
           calls (monitor w1) = calls (monitor w) ∧
           (∀ q, q ≠ p -> inflight w1 !! q = inflight w !! q) ∧
           (∀ e q w2, poll_of e = Some q -> q ≠ p -> step e w = Some w2 ->
              ∃ w3, step e w1 = Some w3 ∧ step (Ev_statusRejected p) w2 = Some w3)) ∧
  (∀ w now throws r,
     reachable w -> r ∈ batch now (monitor w) ->
     throws (orderId (objects (monitor w) !!! r)) = false ->
     ∃ p, inflight (tick now throws w) !! p = Some (AwaitStatus r)).
Proof.
  split; [|split].
  - intros m r o env [Hget Ho] Hf m'. unfold m'.
    rewrite (pollOrder_fetch_failed m r o Ho env Hf). simpl.
    split; [done|]. split; [done|]. split; [|split; [done|]].
    + unfold entry. simpl. by rewrite Hget.
    + by apply since_app.
  - intros w p order Hp. exists (finish p (monitor w) w). simpl. rewrite Hp.
    split; [done|]. split; [done|]. split; [done|]. split; [done|]. split.
    + intros q Hq. by apply lookup_delete_ne.
    + intros e q w2 He Hq Hstep. by eapply statusRejected_commute.
  - intros w now throws r Hr Hin Hthrows.
    apply reachable_wf in Hr. destruct Hr as [_ _ _ Hf _].
    unfold tick. fold (batch now (monitor w)).
    case_bool_decide as H1.
    { destruct (Array_slice0_prefix (MAX_CONCURRENT - activePollCount (monitor w))
                  (toPoll now (monitor w))) as [rest Hrest].
      fold (batch now (monitor w)) in Hrest.
      apply nil_length_inv in H1. rewrite H1 in Hrest.
      symmetry in Hrest. apply app_eq_nil in Hrest as [Hb _].
      rewrite Hb in Hin. by apply elem_of_nil in Hin. }
    case_bool_decide as H2.
    { apply nil_length_inv in H2. rewrite H2 in Hin. by apply elem_of_nil in Hin. }
    by apply foldl_spawn_started.
Qed.

Lemma fetch_failure_isolated_witness :
  let w := world_after [Ev_trackOrder "order-1" 100 (Some T0) T0; Ev_start;
                        Ev_timer (T0 + 10000) never] in
  entry "order-1" (pollOrder 0%nat env_fetch_rejects m_one) = Some o_one ∧
  since m_one (pollOrder 0%nat env_fetch_rejects m_one) = [GetOrderStatus "order-1"] ∧
  ∃ w1, step (Ev_statusRejected 0) w = Some w1 ∧
        tracked (monitor w1) = tracked (monitor w).
Proof.
  destruct fetch_failure_isolated as (H1 & H2 & _).
  destruct (H1 m_one 0%nat o_one env_fetch_rejects m_one_tracks I) as (_ & _ & He & _ & Hs).
  intros w. split; [exact He|]. split; [exact Hs|].
  destruct (H2 w 0%nat 0%nat ltac:(vm_compute; reflexivity)) as (w1 & Hstep & Ht & _).
  exists w1. split; [exact Hstep | exact Ht].
Defined.

(** ** Reconciliation on startup *)

Lemma lastRow_snoc_eq k l x : sideshiftOrderId x = k -> lastRow k (l ++ [x]) = Some x.
Proof.
  intros H. unfold lastRow. rewrite List.filter_app. simpl.
  rewrite bool_decide_eq_true_2 by done. apply last_snoc.
Qed.

Lemma lastRow_snoc_ne k l x : sideshiftOrderId x ≠ k -> lastRow k (l ++ [x]) = lastRow k l.
Proof.
  intros H. unfold lastRow. rewrite List.filter_app. simpl.
  rewrite bool_decide_eq_false_2 by done. by rewrite app_nil_r.
Qed.

Lemma lastRow_id k orders row : lastRow k orders = Some row -> sideshiftOrderId row = k.
Proof.
  unfold lastRow. intros H. apply last_Some_elem_of in H.
  apply list_elem_of_In, filter_In in H as [_ H]. by apply bool_decide_eq_true_1 in H.
Qed.

Lemma lastRow_present orders order :
  order ∈ orders -> ∃ row, lastRow (sideshiftOrderId order) orders = Some row.
Proof.
  intros Hin. unfold lastRow.
  destruct (last _) as [row|] eqn:E; [eauto|].
  apply last_None in E.
  assert (In order (List.filter
            (fun o => bool_decide (sideshiftOrderId o = sideshiftOrderId order)) orders)) as H.
  { apply filter_In. split; [by apply list_elem_of_In|]. by apply bool_decide_eq_true_2. }
  rewrite E in H. destruct H.
Qed.

Lemma lastRow_unique orders order :
  NoDup (map sideshiftOrderId orders) -> order ∈ orders ->
  lastRow (sideshiftOrderId order) orders = Some order.
Proof.
  induction orders as [|x l IH] using rev_ind; intros Hnd Hin.
  - by apply elem_of_nil in Hin.
  - rewrite map_app in Hnd. simpl in Hnd. apply NoDup_app in Hnd as (Hl & Hx & _).
    apply elem_of_app in Hin as [Hin | Hin].
    + rewrite lastRow_snoc_ne; [by apply IH|].
      intros Heq. apply (Hx (sideshiftOrderId order)).
      * apply (list_elem_of_fmap_2 sideshiftOrderId) in Hin. exact Hin.
      * rewrite Heq. left.
    + apply list_elem_of_singleton in Hin. subst x. by apply lastRow_snoc_eq.
Qed.

Lemma Map_get_app_l {V : Type} k (m1 m2 : list (string * V)) v :
  Map_get k m1 = Some v -> Map_get k (m1 ++ m2) = Some v.
Proof.
  induction m1 as [|[k' v'] m1 IH]; simpl; [done|]. by case_bool_decide.
Qed.

Lemma has_entry m k :
  wf_monitor m -> Map_has k (tracked m) = true ->
  ∃ r t, Map_get k (tracked m) = Some r ∧ objects m !! r = Some t ∧ orderId t = k.
Proof.
  intros [_ Hrefs] Hhas. unfold Map_has in Hhas.
  destruct (Map_get k (tracked m)) as [r|] eqn:E; [|done].
  destruct (Hrefs k r (Map_get_elem _ _ _ E)) as (t & Ht & Hk). eauto.
Qed.

Lemma trackOrder_entry_kept k t oid tg created now m :
  entry k m = Some t -> entry k (trackOrder oid tg created now m) = Some t.
Proof.
  intros He. unfold trackOrder. destruct (Map_has oid (tracked m)) eqn:E; [done|].
  apply Map_has_false in E. unfold entry in *. simpl. rewrite Map_set_fresh by done.
  destruct (Map_get k (tracked m)) as [r|] eqn:Hr; [|done]. simpl in He.
  rewrite (Map_get_app_l _ _ _ _ Hr). simpl. by apply lookup_app_l_Some.
Qed.

Lemma loadOne_this now m order :
  wf_monitor m ->
  ∃ t, entry (sideshiftOrderId order) (loadOne now m order) = Some t ∧
       orderId t = sideshiftOrderId order ∧ lastStatus t = o_status order.
Proof.
  intros Hwf. unfold loadOne.
  set (m1 := trackOrder _ _ _ _ _).
  assert (wf_monitor m1) as Hwf1 by (by apply trackOrder_wf).
  destruct (has_entry m1 (sideshiftOrderId order) Hwf1 (trackOrder_has _ _ _ _ _))
    as (r & t & Hr & Ht & Hk).
  rewrite Hr. exists (with_lastStatus (o_status order) t).
  split; [|done]. unfold entry. simpl. rewrite Hr. simpl.
  by rewrite list_lookup_alter_eq, Ht.
Qed.

Lemma loadOne_other now m order k t :
  wf_monitor m -> sideshiftOrderId order ≠ k ->
  entry k m = Some t -> entry k (loadOne now m order) = Some t.
Proof.
  intros Hwf Hne He. unfold loadOne.
  set (m1 := trackOrder _ _ _ _ _).
  assert (wf_monitor m1) as Hwf1 by (by apply trackOrder_wf).
  assert (entry k m1 = Some t) as He1 by (by apply trackOrder_entry_kept).
  destruct (Map_get (sideshiftOrderId order) (tracked m1)) as [r'|] eqn:Hr'; [|done].
  unfold entry in *. simpl.
  destruct (Map_get k (tracked m1)) as [r|] eqn:Hr; [|done]. simpl in *.
  rewrite list_lookup_alter_ne; [done|].
  intros ->. destruct Hwf1 as [_ Hrefs].
  destruct (Hrefs _ _ (Map_get_elem _ _ _ Hr')) as (t1 & Ht1 & Hk1).
  destruct (Hrefs _ _ (Map_get_elem _ _ _ Hr)) as (t2 & Ht2 & Hk2).
  congruence.
Qed.

Lemma foldl_loadOne_lastRow now orders m k row :
  wf_monitor m ->
  lastRow k orders = Some row ->
  ∃ t, entry k (foldl (loadOne now) m orders) = Some t ∧
       orderId t = k ∧ lastStatus t = o_status row.
Proof.
  revert row. induction orders as [|x l IH] using rev_ind; intros row Hwf Hlast.
  - discriminate.
  - rewrite foldl_app. simpl.
    assert (wf_monitor (foldl (loadOne now) m l)) as Hwf1 by (by apply foldl_loadOne_wf).
    destruct (decide (sideshiftOrderId x = k)) as [Heq|Hne].
    + rewrite lastRow_snoc_eq in Hlast by done. injection Hlast as <-.
      subst k. by apply loadOne_this.
    + rewrite lastRow_snoc_ne in Hlast by done.
      destruct (IH row Hwf Hlast) as (t & Ht & Hk & Hs).
      exists t. split; [|done]. by apply loadOne_other.
Qed.

(** C7: when [getPendingOrders] fulfils, [loadPendingOrders] resolves and
    every returned order has an entry in the registry under its id, whose
    [lastStatus] is the persisted status of the row handled last for that
    id, which is the order's own row when the ids of the rows are
    distinct, as the unique [sideshift_order_id] column makes them; when
    [getPendingOrders] throws or rejects, [loadPendingOrders] resolves all
    the same and the registry and the order objects are as before. *)
Theorem loadPendingOrders_reconciles m now :
  wf_monitor m ->
  (∀ orders,
     let res := loadPendingOrders (Fulfils orders) now m in
     snd res = Resolved ∧
     ∀ order, order ∈ orders ->
       ∃ t row,
         entry (sideshiftOrderId order) (fst res) = Some t ∧
         orderId t = sideshiftOrderId order ∧
         lastRow (sideshiftOrderId order) orders = Some row ∧
         lastStatus t = o_status row ∧
         (NoDup (map sideshiftOrderId orders) -> lastStatus t = o_status order)) ∧
  (∀ result,
     failed result ->
     let res := loadPendingOrders result now m in
     snd res = Resolved ∧ tracked (fst res) = tracked m ∧ objects (fst res) = objects m).
Proof.
  intros Hwf. split.
  - intros orders res. split; [done|]. intros order Hin.
    destruct (lastRow_present orders order Hin) as [row Hrow].
    destruct (foldl_loadOne_lastRow now orders (emit GetPendingOrders m)
                (sideshiftOrderId order) row Hwf Hrow) as (t & Ht & Hk & Hs).
    exists t, row. split; [exact Ht|]. split; [done|]. split; [done|]. split; [done|].
    intros Hnd. rewrite (lastRow_unique orders order Hnd Hin) in Hrow.
    injection Hrow as <-. exact Hs.
  - intros result Hf res. unfold res. by destruct result.
Qed.

Lemma loadPendingOrders_reconciles_witness :
  (∃ t, entry "order-a" (fst (loadPendingOrders (Fulfils [row_a; row_b]) T0 newMonitor))
        = Some t ∧ lastStatus t = "waiting") ∧
  tracked (fst (loadPendingOrders Rejects T0 m_one)) = tracked m_one.
Proof.
  split.
  - destruct (loadPendingOrders_reconciles newMonitor T0 (wf_mon _ newWorld_wf)) as [H _].
    destruct (H [row_a; row_b]) as [_ H'].
    destruct (H' row_a ltac:(left)) as (t & row & Ht & _ & _ & _ & Hs).
    exists t. split; [exact Ht|]. apply Hs. vm_compute.
    apply NoDup_cons. split; [|apply NoDup_singleton].
    intros Hin. apply list_elem_of_singleton in Hin. discriminate.
  - destruct (loadPendingOrders_reconciles m_one T0 m_one_wf) as [_ H].
    apply (H Rejects I).
Defined.

(** "loads orders from the database" *)
Example scenario_load :
  let m := fst (loadPendingOrders (Fulfils [row_a; row_b]) T0 newMonitor) in
  (trackedCount m, getTrackedOrderIds m, entry "order-a" m, entry "order-b" m)
  = (2, ["order-a"; "order-b"]%string,
     Some (mkTracked "order-a" 12345 T0 0 "waiting"),
     Some (mkTracked "order-b" 12345 T0 0 "processing")).
Proof. vm_compute. reflexivity. Qed.

(** ** The cap at work: seven due orders *)

Example seven_due_five_dispatched :
  let w := world_after (seven ++ [Ev_start; Ev_timer (T0 + 10000) never]) in
  (size (inflight w), activePollCount (monitor w), trackedCount (monitor w),
   calls (monitor w), batch (T0 + 20000) (monitor w))
  = (5%nat, 5, 7,
     map GetOrderStatus ["o1"; "o2"; "o3"; "o4"; "o5"]%string, []).
Proof. vm_compute. reflexivity. Qed.

Lemma concurrency_cap_witness :
  let w := world_after (seven ++ [Ev_start; Ev_timer (T0 + 10000) never]) in
  activePollCount (monitor w) = Z.of_nat (size (inflight w)) ∧
  Z.of_nat (size (inflight w)) <= MAX_CONCURRENT ∧
  Z.of_nat (size (inflight (tick (T0 + 20000) never w))) <= MAX_CONCURRENT.
Proof.
  intros w.
  destruct (concurrency_cap w (world_after_reachable _)) as (_ & H1 & H2 & H3).
  split; [exact H1|]. split; [exact H2|].
  apply (H3 (T0 + 20000) never).
Defined.

(** ** Polls interleaved with anything else

    Between the two awaits of an activation other activations, ticks and
    calls of the public methods may run.  They can neither resume the
    activation nor change who an order object belongs to. *)

Lemma alter_same_order f i (l : list TrackedOrder) r o :
  (∀ x, same_order x (f x)) ->
  l !! r = Some o -> ∃ o', alter f i l !! r = Some o' ∧ same_order o o'.
Proof.
  intros Hf Ho. destruct (decide (i = r)) as [->|Hne].
  - exists (f o). by rewrite list_lookup_alter_eq, Ho.
  - exists o. by rewrite list_lookup_alter_ne.
Qed.

Lemma same_order_refl o : same_order o o.
Proof. done. Qed.

Lemma same_order_trans o1 o2 o3 : same_order o1 o2 -> same_order o2 o3 -> same_order o1 o3.
Proof. unfold same_order. intros (-> & -> & ->) (-> & -> & ->). done. Qed.

Lemma trackOrder_same_order oid tg created now m r o :
  objects m !! r = Some o -> objects (trackOrder oid tg created now m) !! r = Some o.
Proof.
  intros Ho. unfold trackOrder. destruct (Map_has _ _); [done|]. simpl.
  by apply lookup_app_l_Some.
Qed.

Lemma loadOne_same_order now m order r o :
  objects m !! r = Some o ->
  ∃ o', objects (loadOne now m order) !! r = Some o' ∧ same_order o o'.
Proof.
  intros Ho. unfold loadOne.
  pose proof (trackOrder_same_order (sideshiftOrderId order) (o_telegramId order)
                (o_createdAt order) now m r o Ho) as H1.
  destruct (Map_get _ _); [|by exists o]. simpl.
  by apply alter_same_order.
Qed.

Lemma foldl_loadOne_same_order now orders m r o :
  objects m !! r = Some o ->
  ∃ o', objects (foldl (loadOne now) m orders) !! r = Some o' ∧ same_order o o'.
Proof.
  revert m o. induction orders as [|x l IH]; simpl; intros m o Ho; [by exists o|].
  destruct (loadOne_same_order now m x r o Ho) as (o1 & Ho1 & H1).
  destruct (IH _ o1 Ho1) as (o2 & Ho2 & H2).
  exists o2. split; [done|]. by eapply same_order_trans.
Qed.

Lemma pollOrder_compare_same_order order st now m r o :
  objects m !! r = Some o ->
  ∃ o', objects (fst (pollOrder_compare order st now m)) !! r = Some o' ∧ same_order o o'.
Proof.
  intros Ho. unfold pollOrder_compare.
  destruct (alter_same_order (with_lastChecked now) order (objects m) r o
              ltac:(done) Ho) as (o1 & Ho1 & H1).
  case_bool_decide; simpl; [|by exists o1].
  destruct (alter_same_order (with_lastStatus (status st)) order _ r o1
              ltac:(done) Ho1) as (o2 & Ho2 & H2).
  exists o2. split; [done|]. by eapply same_order_trans.
Qed.

(** A step that does not resume [p] leaves [p] suspended where it is, and
    no step changes the identity of an order object. *)
Lemma step_frame e w w' p s r o :
  wf_world w -> step e w = Some w' ->
  objects (monitor w) !! r = Some o ->
  (∃ o', objects (monitor w') !! r = Some o' ∧ same_order o o') ∧
  (poll_of e ≠ Some p -> inflight w !! p = Some s -> inflight w' !! p = Some s).
Proof.
  intros Hwf Hstep Ho. destruct e; simpl in Hstep.
  - injection Hstep as <-. simpl. split; [|done]. exists o.
    unfold start. by destruct (tickTimer _).
  - injection Hstep as <-. simpl. split; [|done]. exists o.
    unfold stop. by destruct (tickTimer _).
  - injection Hstep as <-. simpl. split; [|done]. exists o.
    split; [by apply trackOrder_same_order | done].
  - injection Hstep as <-. simpl. split; [|done]. by exists o.
  - injection Hstep as <-. simpl. split; [|done].
    unfold loadPendingOrders. destruct result; simpl; try by exists o.
    by apply foldl_loadOne_same_order.
  - destruct (tickTimer _); [|done]. injection Hstep as <-.
    destruct (tick_dispatched now throws w (wf_fresh _ Hwf)).
    split; [rewrite d_objects0; by exists o | auto].
  - destruct (inflight w !! p0) as [[order|]|] eqn:Hp0; try done.
    pose proof (pollOrder_compare_same_order order st now (monitor w) r o Ho) as Hsame.
    destruct (pollOrder_compare order st now (monitor w)) as [m2 [[old new]|]];
      simpl in Hsame.
    + destruct writeThrows; injection Hstep as <-; simpl; (split; [done|]);
        intros Hne Hp; assert (p0 ≠ p) by congruence.
      * by rewrite lookup_delete_ne.
      * by rewrite lookup_insert_ne.
    + injection Hstep as <-; simpl. split; [done|].
      intros Hne Hp; assert (p0 ≠ p) by congruence. by rewrite lookup_delete_ne.
  - destruct (inflight w !! p0) as [[order|]|] eqn:Hp0; try done.
    injection Hstep as <-; simpl. split; [by exists o|].
    intros Hne Hp; assert (p0 ≠ p) by congruence. by rewrite lookup_delete_ne.
  - destruct (inflight w !! p0) as [[|order old new st]|] eqn:Hp0; try done.
    injection Hstep as <-; simpl. rewrite pollOrder_notify_objects.
    split; [by exists o|].
    intros Hne Hp; assert (p0 ≠ p) by congruence. by rewrite lookup_delete_ne.
  - destruct (inflight w !! p0) as [[|order old new st]|] eqn:Hp0; try done.
    injection Hstep as <-; simpl. split; [by exists o|].
    intros Hne Hp; assert (p0 ≠ p) by congruence. by rewrite lookup_delete_ne.
Qed.

Lemma run_frame es w w' p s r o :
  wf_world w -> run es w = Some w' ->
  Forall (fun e => poll_of e ≠ Some p) es ->
  inflight w !! p = Some s ->
  objects (monitor w) !! r = Some o ->
  inflight w' !! p = Some s ∧
  ∃ o', objects (monitor w') !! r = Some o' ∧ same_order o o'.
Proof.
  revert w o. induction es as [|e es IH]; simpl; intros w o Hwf Hrun Hall Hp Ho.
  - injection Hrun as <-. split; [done|]. by exists o.
  - destruct (step e w) as [w1|] eqn:Hstep; [|done]. simpl in Hrun.
    apply Forall_cons in Hall as [He Hall].
    destruct (step_frame e w w1 p s r o Hwf Hstep Ho) as [(o1 & Ho1 & H1) Hp1].
    destruct (IH w1 o1 (step_wf _ _ _ Hwf Hstep) Hrun Hall (Hp1 He Hp) Ho1)
      as (Hp2 & o2 & Ho2 & H2).
    split; [done|]. exists o2. split; [done|]. by eapply same_order_trans.
Qed.

(** X1: whatever runs between the fulfilment of the fetch and the fulfilment
    of the write, the notification then made carries the owner and the id
    of the polled order, the status it had when the fetch was fulfilled
    and the fetched record; and if the new status is terminal and the
    callback returns, the id is not in the registry afterwards. *)
Theorem notification_interleaved w p r o st now w1 es w2 cb :
  reachable w ->
  inflight w !! p = Some (AwaitStatus r) ->
  objects (monitor w) !! r = Some o ->
  status st ≠ lastStatus o ->
  step (Ev_statusFulfilled p st now false) w = Some w1 ->
  Forall (fun e => poll_of e ≠ Some p) es ->
  run es w1 = Some w2 ->
  ∃ w3, step (Ev_writeFulfilled p cb) w2 = Some w3 ∧
        calls (monitor w3)
        = calls (monitor w2)
          ++ [OnStatusChange (telegramId o) (orderId o) (lastStatus o) (status st) st] ∧
        (∀ v, cb = CbReturned v -> isTerminal (status st) = true ->
              Map_has (orderId o) (tracked (monitor w3)) = false).
Proof.
  intros Hr Hp Ho Hne Hstep Hall Hrun.
  pose proof (reachable_wf _ (reachable_step _ _ _ Hr Hstep)) as Hwf1.
  simpl in Hstep. rewrite Hp in Hstep.
  rewrite (pollOrder_compare_diff r o st now (monitor w) Ho Hne) in Hstep.
  injection Hstep as <-.
  assert (objects (monitor
            (mkWorld (emit (UpdateOrderStatus (orderId o) (status st))
                        (set_objects (<[r := with_lastStatus (status st)
                                               (with_lastChecked now o)]>
                                        (objects (monitor w))) (monitor w)))
               (<[p := AwaitWrite r (lastStatus o) (status st) st]> (inflight w))
               (nextPoll w))) !! r
          = Some (with_lastStatus (status st) (with_lastChecked now o))) as Ho1.
  { simpl. apply list_lookup_insert_eq. by apply lookup_lt_Some in Ho. }
  destruct (run_frame es _ w2 p (AwaitWrite r (lastStatus o) (status st) st) r _
              Hwf1 Hrun Hall ltac:(simpl; apply lookup_insert_eq) Ho1)
    as (Hp2 & o2 & Ho2 & Hid & Htg & _).
  simpl in Hid, Htg.
  eexists. simpl. rewrite Hp2. split; [reflexivity|].
  unfold pollOrder_notify. rewrite (list_lookup_total_correct _ _ _ Ho2).
  rewrite Hid, Htg. split.
  - destruct cb; [done|]. by destruct (isTerminal (status st)).
  - intros v -> Hterm. rewrite Hterm. simpl. apply Map_delete_has.
Qed.

Lemma notification_interleaved_witness :
  let w := world_after [Ev_trackOrder "order-1" 100 (Some T0) T0; Ev_start;
                        Ev_timer (T0 + 10000) never] in
  let w1 := world_after [Ev_trackOrder "order-1" 100 (Some T0) T0; Ev_start;
                         Ev_timer (T0 + 10000) never;
                         Ev_statusFulfilled 0 settled (T0 + 10005) false] in
  let w2 := world_after [Ev_trackOrder "order-1" 100 (Some T0) T0; Ev_start;
                         Ev_timer (T0 + 10000) never;
                         Ev_statusFulfilled 0 settled (T0 + 10005) false;
                         Ev_untrackOrder "order-1"; Ev_stop;
                         Ev_trackOrder "order-1" 200 None (T0 + 10006)] in
  ∃ w3, step (Ev_writeFulfilled 0 (CbReturned Undefined)) w2 = Some w3 ∧
        calls (monitor w3)
        = calls (monitor w2) ++ [OnStatusChange 100 "order-1" "pending" "settled" settled] ∧
        Map_has "order-1" (tracked (monitor w3)) = false.
Proof.
  intros w w1 w2.
  destruct (notification_interleaved w 0%nat 0%nat o_one settled (T0 + 10005) w1
              [Ev_untrackOrder "order-1"; Ev_stop;
               Ev_trackOrder "order-1" 200 None (T0 + 10006)] w2 (CbReturned Undefined)
              (world_after_reachable _)
              ltac:(vm_compute; reflexivity) ltac:(vm_compute; reflexivity)
              ltac:(discriminate) ltac:(vm_compute; reflexivity)
              ltac:(repeat constructor; discriminate)
              ltac:(vm_compute; reflexivity))
    as (w3 & Hstep & Hcalls & Hterm).
  exists w3. split; [exact Hstep|]. split; [exact Hcalls|].
  apply (Hterm Undefined eq_refl). vm_compute. reflexivity.
Defined.

(** ** Further properties of the public interface *)

(** X2: [untrackOrder] of an id that is not tracked changes nothing, and
    after [untrackOrder] the id is never in the registry. *)
Theorem untrackOrder_absent oid m :
  (Map_has oid (tracked m) = false -> untrackOrder oid m = m) ∧
  Map_has oid (tracked (untrackOrder oid m)) = false ∧
  (∀ k, k ≠ oid ->
     Map_get k (tracked (untrackOrder oid m)) = Map_get k (tracked m)).
Proof.
  split; [|split].
  - intros H. apply Map_has_false in H. unfold untrackOrder, set_tracked.
    rewrite Map_delete_absent by done. by destruct m.
  - apply Map_delete_has.
  - intros k Hk. by apply Map_delete_get_ne.
Qed.

Lemma untrackOrder_absent_witness :
  untrackOrder "order-2" m_one = m_one ∧
  trackedCount (untrackOrder "order-1" m_one) = 0.
Proof.
  split.
  - apply (untrackOrder_absent "order-2" m_one). vm_compute. reflexivity.
  - vm_compute. reflexivity.
Defined.

(** X3: [start] and [stop] may be repeated: the second call in a row changes
    nothing, there is one timer slot, and neither touches the registry,
    the order objects or the counter. *)
Theorem start_stop_idempotent m :
  start (start m) = start m ∧
  stop (stop m) = stop m ∧
  tickTimer (start m) = true ∧
  tickTimer (stop m) = false ∧
  tracked (start m) = tracked m ∧ tracked (stop m) = tracked m ∧
  objects (start m) = objects m ∧ objects (stop m) = objects m ∧
  activePollCount (start m) = activePollCount m ∧
  activePollCount (stop m) = activePollCount m.
Proof.
  unfold start, stop. destruct m as [objs t timer n cs]. by destruct timer.
Qed.

Example not_terminal :
  isTerminal "pending" = false ∧ isTerminal "waiting" = false ∧
  isTerminal "processing" = false.
Proof. vm_compute. done. Qed.

(** * Further properties *)

(** ** More on the backoff policy and on what is due *)

(** X5: the interval never shrinks as an order ages, it is always one of
    the four tiers, for negative ages too, and it is always longer than
    the period of the tick. *)
Theorem getBackoffInterval_monotone a b :
  (a <= b -> getBackoffInterval a <= getBackoffInterval b) ∧
  (getBackoffInterval a = 15000 ∨ getBackoffInterval a = 60000 ∨
   getBackoffInterval a = 300000 ∨ getBackoffInterval a = 900000) ∧
  TICK_INTERVAL < getBackoffInterval a ∧
  (a < 0 -> getBackoffInterval a = 15000).
Proof.
  unfold getBackoffInterval, TICK_INTERVAL.
  destruct (Z.ltb_spec a (5 * 60000)), (Z.ltb_spec a (30 * 60000)),
    (Z.ltb_spec a (2 * 3600000)), (Z.ltb_spec b (5 * 60000)),
    (Z.ltb_spec b (30 * 60000)), (Z.ltb_spec b (2 * 3600000));
    repeat split; try intros Hab; try lia; auto.
Qed.

Lemma getBackoffInterval_monotone_witness :
  getBackoffInterval 299999 <= getBackoffInterval 300000 ∧
  getBackoffInterval (-5) = 15000.
Proof.
  split.
  - apply (getBackoffInterval_monotone 299999 300000). lia.
  - apply (getBackoffInterval_monotone (-5) 0). lia.
Defined.

Lemma isDue_bounds now o :
  (isDue now o = true -> 15000 <= now - lastChecked o) ∧
  (900000 <= now - lastChecked o -> isDue now o = true).
Proof.
  unfold isDue.
  pose proof (getBackoffInterval_range (now - createdAt o)) as Hr.
  split; intros H.
  - apply Z.leb_le in H. lia.
  - apply Z.leb_le. lia.
Qed.

(** X6: a tick dispatches an order only if at least 15 s have passed
    since its [lastChecked], and an order not checked for 15 min is a
    candidate of every tick, whatever its age; an order never checked
    ([lastChecked] 0) is a candidate as soon as the clock reads 900000 or
    more. *)
Theorem tick_spacing now m :
  (∀ r, r ∈ batch now m ->
     ∃ k, (k, r) ∈ tracked m ∧ 15000 <= now - lastChecked (objects m !!! r)) ∧
  (∀ k r, (k, r) ∈ tracked m ->
     900000 <= now - lastChecked (objects m !!! r) -> r ∈ toPoll now m) ∧
  (∀ k r, (k, r) ∈ tracked m ->
     lastChecked (objects m !!! r) = 0 -> 900000 <= now -> r ∈ toPoll now m).
Proof.
  split; [|split].
  - intros r Hr. apply batch_elem in Hr as (k & Hk & Hdue).
    exists k. split; [done|]. by apply isDue_bounds.
  - intros k r Hk Hold. eapply toPoll_elem; [exact Hk|]. by apply isDue_bounds.
  - intros k r Hk H0 Hnow. eapply toPoll_elem; [exact Hk|].
    apply isDue_bounds. lia.
Qed.

Lemma tick_spacing_witness :
  (0%nat ∈ toPoll (T0 + 10000) m_one) ∧
  ∃ k, (k, 0%nat) ∈ tracked m_one ∧
       15000 <= (T0 + 10000) - lastChecked (objects m_one !!! 0%nat).
Proof.
  destruct (tick_spacing (T0 + 10000) m_one) as (H1 & _ & H3).
  split.
  - apply (H3 "order-1"%string 0%nat); [left | reflexivity | vm_compute; discriminate].
  - apply H1. vm_compute. left.
Defined.

(** ** More on the registry *)

Lemma Map_get_snoc_ne {V : Type} k k' (v : V) (m : list (string * V)) :
  k ≠ k' -> Map_get k (m ++ [(k', v)]) = Map_get k m.
Proof.
  intros Hne. induction m as [|[k0 v0] m IH]; simpl.
  - by rewrite bool_decide_eq_false_2 by congruence.
  - case_bool_decide; [done | exact IH].
Qed.

Lemma Map_get_snoc_eq {V : Type} k (v : V) (m : list (string * V)) :
  k ∉ Map_keys m -> Map_get k (m ++ [(k, v)]) = Some v.
Proof.
  induction m as [|[k0 v0] m IH]; simpl.
  - intros _. by rewrite bool_decide_eq_true_2.
  - rewrite not_elem_of_cons. intros [Hne Hk].
    rewrite bool_decide_eq_false_2 by congruence. auto.
Qed.

Lemma Map_delete_snoc {V : Type} k (v : V) (m : list (string * V)) :
  k ∉ Map_keys m -> Map_delete k (m ++ [(k, v)]) = m.
Proof.
  induction m as [|[k0 v0] m IH]; simpl.
  - intros _. by rewrite bool_decide_eq_true_2.
  - rewrite not_elem_of_cons. intros [Hne Hk].
    rewrite bool_decide_eq_false_2 by congruence. by rewrite IH.
Qed.

Lemma entry_app_kept m k objs' t' :
  wf_monitor m ->
  (∀ r, Map_get k (tracked m) = Some r -> Map_get k t' = Some r) ->
  (Map_get k (tracked m) = None -> Map_get k t' = None) ->
  entry k (set_tracked t' (set_objects (objects m ++ objs') m)) = entry k m.
Proof.
  intros [_ Hrefs] Hsome Hnone. unfold entry. simpl.
  destruct (Map_get k (tracked m)) as [r|] eqn:E.
  - rewrite (Hsome r eq_refl). simpl.
    destruct (Hrefs k r (Map_get_elem _ _ _ E)) as (o & Ho & _).
    rewrite Ho. by apply lookup_app_l_Some.
  - by rewrite (Hnone eq_refl).
Qed.

Lemma trackOrder_new oid tg created now m :
  wf_monitor m ->
  Map_has oid (tracked m) = false ->
  entry oid (trackOrder oid tg created now m)
  = Some (mkTracked oid tg (default now created) 0 "pending") ∧
  getTrackedOrderIds (trackOrder oid tg created now m) = getTrackedOrderIds m ++ [oid] ∧
  trackedCount (trackOrder oid tg created now m) = trackedCount m + 1 ∧
  (∀ k, k ≠ oid -> entry k (trackOrder oid tg created now m) = entry k m).
Proof.
  intros Hwf Hhas. unfold trackOrder. rewrite Hhas.
  apply Map_has_false in Hhas. rewrite Map_set_fresh by done.
  split; [|split; [|split]].
  - unfold entry. simpl. rewrite Map_get_snoc_eq by done. simpl.
    by rewrite list_lookup_middle.
  - unfold getTrackedOrderIds, Map_keys. simpl. by rewrite map_app.
  - unfold trackedCount, Map_size. simpl. rewrite length_app. simpl. lia.
  - intros k Hk. apply entry_app_kept; [done| |];
      intros; by rewrite Map_get_snoc_ne.
Qed.

(** X7: [trackOrder] of an id that is not tracked makes an entry with
    the given owner, the given creation time or else the current time,
    [lastChecked] 0 and status "pending"; the id comes last in
    [getTrackedOrderIds], the count grows by one, and the entries of all
    other ids, the counter and the calls are as before. *)
Theorem trackOrder_fresh oid tg created now m :
  wf_monitor m ->
  Map_has oid (tracked m) = false ->
  let m' := trackOrder oid tg created now m in
  entry oid m' = Some (mkTracked oid tg (default now created) 0 "pending") ∧
  getTrackedOrderIds m' = getTrackedOrderIds m ++ [oid] ∧
  trackedCount m' = trackedCount m + 1 ∧
  (∀ k, k ≠ oid -> entry k m' = entry k m) ∧
  activePollCount m' = activePollCount m ∧ calls m' = calls m.
Proof.
  intros Hwf Hhas m'.
  destruct (trackOrder_new oid tg created now m Hwf Hhas) as (H1 & H2 & H3 & H4).
  split; [exact H1|]. split; [exact H2|]. split; [exact H3|]. split; [exact H4|].
  unfold m', trackOrder. by rewrite Hhas.
Qed.

Lemma trackOrder_fresh_witness :
  entry "order-2" (trackOrder "order-2" 7 None (T0 + 5) m_one)
  = Some (mkTracked "order-2" 7 (T0 + 5) 0 "pending") ∧
  getTrackedOrderIds (trackOrder "order-2" 7 None (T0 + 5) m_one)
  = ["order-1"; "order-2"]%string.
Proof.
  destruct (trackOrder_fresh "order-2" 7 None (T0 + 5) m_one m_one_wf
              ltac:(vm_compute; reflexivity)) as (H1 & H2 & _).
  split; [exact H1 | exact H2].
Defined.

(** X8: [untrackOrder] undoes [trackOrder] of a new id: the registry and
    every entry are as before.  The other way round, untracking and then
    tracking an id again does not bring its entry back: the new entry
    starts over with [lastChecked] 0 and status "pending", and the id moves
    to the end of the registry. *)
Theorem track_untrack oid tg created now m :
  wf_monitor m ->
  (Map_has oid (tracked m) = false ->
     tracked (untrackOrder oid (trackOrder oid tg created now m)) = tracked m ∧
     ∀ k, entry k (untrackOrder oid (trackOrder oid tg created now m)) = entry k m) ∧
  (entry oid (trackOrder oid tg created now (untrackOrder oid m))
   = Some (mkTracked oid tg (default now created) 0 "pending") ∧
   getTrackedOrderIds (trackOrder oid tg created now (untrackOrder oid m))
   = getTrackedOrderIds (untrackOrder oid m) ++ [oid]).
Proof.
  intros Hwf. split.
  - intros Hhas. unfold trackOrder. rewrite Hhas.
    apply Map_has_false in Hhas. rewrite Map_set_fresh by done.
    unfold untrackOrder. simpl. rewrite Map_delete_snoc by done.
    split; [done|]. intros k.
    apply (entry_app_kept m k [mkTracked oid tg (default now created) 0 "pending"]
             (tracked m) Hwf); auto.
  - destruct (trackOrder_new oid tg created now (untrackOrder oid m)
                (untrackOrder_wf oid m Hwf) (Map_delete_has oid (tracked m)))
      as (H1 & H2 & _).
    split; [exact H1 | exact H2].
Qed.

Lemma track_untrack_witness :
  tracked (untrackOrder "order-2" (trackOrder "order-2" 7 None T0 m_one)) = tracked m_one ∧
  entry "order-1" (trackOrder "order-1" 100 (Some T0) (T0 + 9)
                     (untrackOrder "order-1" (pollOrder 0%nat (env_ok waiting) m_one)))
  = Some (mkTracked "order-1" 100 T0 0 "pending").
Proof.
  split.
  - destruct (track_untrack "order-2" 7 None T0 m_one m_one_wf) as [H _].
    apply H. vm_compute. reflexivity.
  - assert (wf_monitor (pollOrder 0%nat (env_ok waiting) m_one)) as Hwf.
    { vm_compute. split.
      - apply NoDup_singleton.
      - intros k r Hin. apply list_elem_of_singleton in Hin. injection Hin as -> ->.
        eexists. split; reflexivity. }
    destruct (track_untrack "order-1" 100 (Some T0) (T0 + 9) _ Hwf) as [_ [H _]].
    exact H.
Defined.

(** ** More on reconciliation *)

Lemma loadOne_tracked now m order :
  tracked (loadOne now m order)
  = tracked (trackOrder (sideshiftOrderId order) (o_telegramId order)
               (o_createdAt order) now m).
Proof. unfold loadOne. by destruct (Map_get _ _). Qed.

Lemma loadOne_calls now m order : calls (loadOne now m order) = calls m.
Proof.
  unfold loadOne, trackOrder.
  destruct (Map_has _ _); simpl; by destruct (Map_get _ _).
Qed.

Lemma foldl_loadOne_calls now orders m :
  calls (foldl (loadOne now) m orders) = calls m.
Proof.
  revert m. induction orders as [|x l IH]; simpl; [done|].
  intros m. by rewrite IH, loadOne_calls.
Qed.

Lemma trackOrder_has_iff k oid tg created now m :
  Map_has k (tracked (trackOrder oid tg created now m)) = true
  <-> Map_has k (tracked m) = true ∨ k = oid.
Proof.
  unfold trackOrder. destruct (Map_has oid (tracked m)) eqn:E.
  - split; [by left|]. intros [H | ->]; done.
  - simpl. apply Map_has_false in E. rewrite Map_set_fresh by done.
    rewrite !Map_has_true. unfold Map_keys. rewrite map_app. simpl.
    rewrite elem_of_app, list_elem_of_singleton. done.
Qed.

Lemma trackOrder_count oid tg created now m :
  trackedCount m <= trackedCount (trackOrder oid tg created now m) <= trackedCount m + 1.
Proof.
  unfold trackOrder. destruct (Map_has oid (tracked m)) eqn:E; [lia|].
  apply Map_has_false in E. unfold trackedCount, Map_size. simpl.
  rewrite Map_set_fresh by done. rewrite length_app. simpl. lia.
Qed.

Lemma loadOne_kept now m order k t :
  wf_monitor m -> entry k m = Some t ->
  ∃ t', entry k (loadOne now m order) = Some t' ∧
        same_order t t' ∧ lastChecked t' = lastChecked t ∧
        (sideshiftOrderId order ≠ k -> t' = t).
Proof.
  intros Hwf He. destruct (decide (sideshiftOrderId order = k)) as [Heq|Hne].
  - subst k. unfold loadOne.
    assert (Map_has (sideshiftOrderId order) (tracked m) = true) as Hhas.
    { unfold Map_has, entry in *. by destruct (Map_get _ _). }
    unfold trackOrder. rewrite Hhas.
    unfold entry in *. destruct (Map_get _ (tracked m)) as [r|] eqn:Hr; [|done].
    simpl in *. rewrite Hr. simpl. rewrite list_lookup_alter_eq, He. simpl.
    eexists. split; [reflexivity|]. done.
  - exists t. split; [by apply loadOne_other|]. done.
Qed.

Lemma foldl_loadOne_kept now orders m k t :
  wf_monitor m -> entry k m = Some t ->
  ∃ t', entry k (foldl (loadOne now) m orders) = Some t' ∧
        same_order t t' ∧ lastChecked t' = lastChecked t ∧
        (k ∉ map sideshiftOrderId orders -> t' = t).
Proof.
  revert m t. induction orders as [|x l IH]; simpl; intros m t Hwf He.
  - exists t. done.
  - destruct (loadOne_kept now m x k t Hwf He) as (t1 & H1 & Hs1 & Hc1 & Hu1).
    destruct (IH _ t1 (loadOne_wf now m x Hwf) H1) as (t2 & H2 & Hs2 & Hc2 & Hu2).
    exists t2. split; [done|]. split; [by eapply same_order_trans|].
    split; [congruence|]. rewrite not_elem_of_cons. intros [Hne Hk].
    rewrite Hu2 by done. apply Hu1. congruence.
Qed.

Lemma foldl_loadOne_has_iff now orders m k :
  Map_has k (tracked (foldl (loadOne now) m orders)) = true
  <-> Map_has k (tracked m) = true ∨ k ∈ map sideshiftOrderId orders.
Proof.
  revert m. induction orders as [|x l IH]; simpl; intros m.
  - split; [by left|]. intros [H | H]; [done | by apply elem_of_nil in H].
  - rewrite IH, loadOne_tracked, trackOrder_has_iff, elem_of_cons. tauto.
Qed.

Lemma foldl_loadOne_count now orders m :
  trackedCount m <= trackedCount (foldl (loadOne now) m orders)
  <= trackedCount m + Z.of_nat (length orders).
Proof.
  revert m. induction orders as [|x l IH]; simpl; intros m; [lia|].
  specialize (IH (loadOne now m x)).
  pose proof (trackOrder_count (sideshiftOrderId x) (o_telegramId x) (o_createdAt x) now m).
  unfold trackedCount in *. rewrite loadOne_tracked in IH. lia.
Qed.

(** X9: after [loadPendingOrders] the registry holds the ids it held
    before and the ids returned, and no others; an order that was already
    tracked keeps its owner, creation time and [lastChecked], even when
    its row says otherwise, and is untouched when no returned row has its
    id; the count grows by at most the number of returned rows; the only
    call made is [getPendingOrders]. *)
Theorem loadPendingOrders_frame m now orders :
  wf_monitor m ->
  let m' := fst (loadPendingOrders (Fulfils orders) now m) in
  (∀ k, Map_has k (tracked m') = true
        <-> Map_has k (tracked m) = true ∨ k ∈ map sideshiftOrderId orders) ∧
  (∀ k t, entry k m = Some t ->
     ∃ t', entry k m' = Some t' ∧
           telegramId t' = telegramId t ∧ createdAt t' = createdAt t ∧
           lastChecked t' = lastChecked t ∧
           (k ∉ map sideshiftOrderId orders -> t' = t)) ∧
  trackedCount m <= trackedCount m' <= trackedCount m + Z.of_nat (length orders) ∧
  activePollCount m' = activePollCount m ∧
  since m m' = [GetPendingOrders].
Proof.
  intros Hwf m'. unfold m', loadPendingOrders. simpl.
  split; [|split; [|split; [|split]]].
  - intros k. by rewrite foldl_loadOne_has_iff.
  - intros k t He.
    destruct (foldl_loadOne_kept now orders (emit GetPendingOrders m) k t Hwf He)
      as (t' & H1 & (_ & Htg & Hc) & Hl & Hu).
    exists t'. done.
  - apply (foldl_loadOne_count now orders (emit GetPendingOrders m)).
  - by rewrite foldl_loadOne_active.
  - apply since_app. by rewrite foldl_loadOne_calls.
Qed.

Lemma loadPendingOrders_frame_witness :
  let m' := fst (loadPendingOrders
                   (Fulfils [mkOrder "order-1" 999 "processing" None; row_a]) (T0 + 7)
                   m_one) in
  (∃ t', entry "order-1" m' = Some t' ∧ telegramId t' = 100 ∧ createdAt t' = T0) ∧
  trackedCount m' <= 3.
Proof.
  intros m'.
  destruct (loadPendingOrders_frame m_one (T0 + 7)
              [mkOrder "order-1" 999 "processing" None; row_a] m_one_wf)
    as (_ & H2 & H3 & _).
  split.
  - destruct (H2 "order-1"%string o_one eq_refl) as (t' & He & Htg & Hc & _).
    exists t'. split; [exact He|]. split; [exact Htg | exact Hc].
  - apply H3.
Defined.

(** ** What a poll leaves alone *)

(** X10: whatever the environment does, a poll gives its slot back
    ([activePollCount] is as before), leaves the timer, every other order
    object and the identity of its own order object alone, removes at
    most the entry of its own order from the registry, and calls the
    dependencies about its own order only. *)
Theorem pollOrder_frame m r o env :
  objects m !! r = Some o ->
  let m' := pollOrder r env m in
  activePollCount m' = activePollCount m ∧
  tickTimer m' = tickTimer m ∧
  length (objects m') = length (objects m) ∧
  (∀ r', r' ≠ r -> objects m' !! r' = objects m !! r') ∧
  (∃ o', objects m' !! r = Some o' ∧ same_order o o') ∧
  (tracked m' = tracked m ∨ tracked m' = Map_delete (orderId o) (tracked m)) ∧
  (∀ k, k ≠ orderId o -> Map_get k (tracked m') = Map_get k (tracked m)) ∧
  (∀ c, c ∈ since m m' -> call_order c = Some (orderId o)).
Proof.
  intros Ho m'. pose proof (lookup_lt_Some _ _ _ Ho) as Hlt.
  assert (∀ x, same_order o x ->
            length (<[r := x]> (objects m)) = length (objects m) ∧
            (∀ r', r' ≠ r -> <[r := x]> (objects m) !! r' = objects m !! r') ∧
            ∃ o', <[r := x]> (objects m) !! r = Some o' ∧ same_order o o') as Hins.
  { intros x Hx. split; [apply length_insert|]. split.
    - intros r' Hr'. by apply list_lookup_insert_ne.
    - exists x. split; [by apply list_lookup_insert_eq | done]. }
  assert (∀ cs, Forall (fun c => call_order c = Some (orderId o)) cs ->
            calls m' = calls m ++ cs ->
            ∀ c, c ∈ since m m' -> call_order c = Some (orderId o)) as Hcalls.
  { intros cs Hcs Heq c Hc. rewrite (since_app m m' cs Heq) in Hc.
    rewrite Forall_forall in Hcs. by apply Hcs. }
  unfold m' in *. clear m'.
  destruct (env_getOrderStatus env) as [| |st] eqn:Hst.
  1, 2: rewrite (pollOrder_fetch_failed m r o Ho env) in * by (by rewrite Hst);
    simpl; repeat split; auto; try (by exists o);
    apply (Hcalls [GetOrderStatus (orderId o)]); [by repeat constructor | done].
  destruct (decide (status st = lastStatus o)) as [Heq|Hne].
  { rewrite (pollOrder_same m r o Ho env st Hst Heq) in *. simpl.
    destruct (Hins (with_lastChecked (env_now env) o) ltac:(done)) as (H1 & H2 & H3).
    repeat split; auto.
    apply (Hcalls [GetOrderStatus (orderId o)]); [by repeat constructor | done]. }
  destruct (Hins (with_lastStatus (status st) (with_lastChecked (env_now env) o))
              ltac:(done)) as (H1 & H2 & H3).
  destruct (env_updateOrderStatus env) as [| |u] eqn:Hu.
  1, 2: rewrite (pollOrder_write_failed m r o Ho env st Hst Hne) in * by (by rewrite Hu);
    simpl; repeat split; auto;
    apply (Hcalls [GetOrderStatus (orderId o); UpdateOrderStatus (orderId o) (status st)]);
    [by repeat constructor | done].
  rewrite (pollOrder_written m r o Ho env st u Hst Hne Hu) in *. simpl.
  split; [done|]. split; [done|]. split; [done|]. split; [done|]. split; [done|].
  split; [|split].
  - destruct (env_onStatusChange env); [by left|].
    destruct (isTerminal (status st)); [by right | by left].
  - intros k Hk. destruct (env_onStatusChange env); [done|].
    destruct (isTerminal (status st)); [|done]. by apply Map_delete_get_ne.
  - eapply Hcalls; [|reflexivity]. by repeat constructor.
Qed.

Lemma pollOrder_frame_witness :
  activePollCount (pollOrder 0%nat env_notify_throws m_one) = activePollCount m_one ∧
  ∀ c, c ∈ since m_one (pollOrder 0%nat env_notify_throws m_one) ->
       call_order c = Some "order-1"%string.
Proof.
  destruct (pollOrder_frame m_one 0%nat o_one env_notify_throws eq_refl)
    as (H1 & _ & _ & _ & _ & _ & _ & H8).
  split; [exact H1 | exact H8].
Defined.

(** ** Notifications in the running system *)

Lemma notified_ok_quiet cs cs' :
  notified_ok cs -> Forall (fun c => isNotification c = false) cs' ->
  notified_ok (cs ++ cs').
Proof.
  intros Hok Hq i tg oid old new st Hi.
  apply lookup_app_Some in Hi as [Hi | [_ Hi]].
  - destruct (Hok _ _ _ _ _ _ Hi) as (H1 & H2 & j & Hj & Hw).
    split; [done|]. split; [done|]. exists j. split; [done|].
    by apply lookup_app_l_Some.
  - rewrite Forall_lookup in Hq. by specialize (Hq _ _ Hi).
Qed.

Lemma notified_ok_snoc cs tg oid old new st :
  notified_ok cs -> old ≠ new -> new = status st ->
  UpdateOrderStatus oid new ∈ cs ->
  notified_ok (cs ++ [OnStatusChange tg oid old new st]).
Proof.
  intros Hok Hne Hnew Hw i tg' oid' old' new' st' Hi.
  apply lookup_app_Some in Hi as [Hi | [Hlen Hi]].
  - destruct (Hok _ _ _ _ _ _ Hi) as (H1 & H2 & j & Hj & Hj').
    split; [done|]. split; [done|]. exists j. split; [done|].
    by apply lookup_app_l_Some.
  - apply list_lookup_singleton_Some in Hi as [Hi0 Heq].
    injection Heq as <- <- <- <- <-.
    split; [done|]. split; [done|].
    apply list_elem_of_lookup in Hw as [j Hj].
    exists j. split; [|by apply lookup_app_l_Some].
    apply lookup_lt_Some in Hj. lia.
Qed.

Lemma pending_write_ok_mono m m' s :
  (∀ r o, objects m !! r = Some o -> ∃ o', objects m' !! r = Some o' ∧ same_order o o') ->
  (∃ cs, calls m' = calls m ++ cs) ->
  pending_write_ok m s -> pending_write_ok m' s.
Proof.
  intros Hobj [cs Hcs]. destruct s as [|r old new st]; [done|].
  intros (H1 & H2 & o & Ho & Hw). split; [done|]. split; [done|].
  destruct (Hobj r o Ho) as (o' & Ho' & Hid & _).
  exists o'. split; [done|]. rewrite Hid, Hcs. apply elem_of_app. by left.
Qed.

(** A step that makes no notification keeps the invariant, provided
    what it newly suspends is in order. *)
Lemma log_inv_quiet w w' cs :
  (∀ r o, objects (monitor w) !! r = Some o ->
     ∃ o', objects (monitor w') !! r = Some o' ∧ same_order o o') ->
  calls (monitor w') = calls (monitor w) ++ cs ->
  Forall (fun c => isNotification c = false) cs ->
  (∀ p s, inflight w' !! p = Some s ->
     inflight w !! p = Some s ∨ pending_write_ok (monitor w') s) ->
  log_inv w -> log_inv w'.
Proof.
  intros Hobj Hcs Hq Hin [Hp Hl]. split.
  - intros p s Hs. destruct (Hin p s Hs) as [Hold | Hnew]; [|done].
    eapply pending_write_ok_mono; [exact Hobj | by exists cs | by eapply Hp].
  - rewrite Hcs. by apply notified_ok_quiet.
Qed.

Lemma foldl_spawn_calls throws rs w :
  ∃ cs, calls (monitor (foldl (spawn throws) w rs)) = calls (monitor w) ++ cs ∧
        Forall (fun c => isNotification c = false) cs.
Proof.
  revert w. induction rs as [|r rs IH]; simpl; intros w.
  - exists []. by rewrite app_nil_r.
  - destruct (IH (spawn throws w r)) as (cs & Hcs & Hq).
    exists (GetOrderStatus (orderId (objects (monitor w) !!! r)) :: cs).
    split; [|by apply Forall_cons].
    rewrite Hcs. unfold spawn. destruct (throws _); simpl; by rewrite <- app_assoc.
Qed.

Lemma tick_calls now throws w :
  ∃ cs, calls (monitor (tick now throws w)) = calls (monitor w) ++ cs ∧
        Forall (fun c => isNotification c = false) cs.
Proof.
  unfold tick. case_bool_decide; [exists []; by rewrite app_nil_r|].
  case_bool_decide; [exists []; by rewrite app_nil_r|].
  apply foldl_spawn_calls.
Qed.

Lemma step_log_inv e w w' : wf_world w -> log_inv w -> step e w = Some w' -> log_inv w'.
Proof.
  intros Hwf Hinv Hstep.
  assert (∀ r o, objects (monitor w) !! r = Some o ->
            ∃ o', objects (monitor w') !! r = Some o' ∧ same_order o o') as Hobj.
  { intros r o Ho.
    apply (step_frame e w w' 0%nat (AwaitStatus 0) r o Hwf Hstep Ho). }
  destruct e; simpl in Hstep.
  - injection Hstep as <-. apply (log_inv_quiet w _ []); auto.
    + simpl. rewrite app_nil_r. unfold start. by destruct (tickTimer _).
  - injection Hstep as <-. apply (log_inv_quiet w _ []); auto.
    + simpl. rewrite app_nil_r. unfold stop. by destruct (tickTimer _).
  - injection Hstep as <-. apply (log_inv_quiet w _ []); auto.
    + simpl. rewrite app_nil_r. unfold trackOrder. by destruct (Map_has _ _).
  - injection Hstep as <-. apply (log_inv_quiet w _ []); auto.
    + simpl. by rewrite app_nil_r.
  - injection Hstep as <-. apply (log_inv_quiet w _ [GetPendingOrders]); auto.
    + simpl. unfold loadPendingOrders. destruct result; simpl; try done.
      by rewrite foldl_loadOne_calls.
  - destruct (tickTimer _); [|done]. injection Hstep as <-.
    destruct (tick_calls now throws w) as (cs & Hcs & Hq).
    apply (log_inv_quiet w _ cs); auto.
    intros p s Hs.
    destruct (tick_dispatched now throws w (wf_fresh _ Hwf)) as [_ _ _ _ _ _ _ _ Hnew].
    destruct (Hnew p s Hs) as [Hold | (r & _ & ->)]; [by left | by right].
  - destruct (inflight w !! p) as [[order|]|] eqn:Hp; try done.
    pose proof (wf_polls _ Hwf p _ Hp) as Hlt. simpl in Hlt.
    apply lookup_lt_is_Some_2 in Hlt as [o Ho].
    destruct (decide (status st = lastStatus o)) as [Heq|Hne].
    + rewrite (pollOrder_compare_same order o st now (monitor w) Ho Heq) in Hstep.
      injection Hstep as <-. apply (log_inv_quiet w _ []); auto.
      * simpl. by rewrite app_nil_r.
      * simpl. intros q s Hs. apply lookup_delete_Some in Hs as [_ Hs]. by left.
    + rewrite (pollOrder_compare_diff order o st now (monitor w) Ho Hne) in Hstep.
      destruct writeThrows; injection Hstep as <-.
      * apply (log_inv_quiet w _ [UpdateOrderStatus (orderId o) (status st)]); auto.
        simpl. intros q s Hs. apply lookup_delete_Some in Hs as [_ Hs]. by left.
      * apply (log_inv_quiet w _ [UpdateOrderStatus (orderId o) (status st)]); auto.
        simpl. intros q s. destruct (decide (q = p)) as [->|Hq].
        -- rewrite lookup_insert_eq. intros [= <-]. right. simpl.
           split; [done|]. split; [done|].
           eexists. split.
           ++ apply list_lookup_insert_eq. by apply lookup_lt_Some in Ho.
           ++ simpl. apply elem_of_app. right. left.
        -- rewrite lookup_insert_ne by done. by left.
  - destruct (inflight w !! p) as [[order|]|] eqn:Hp; try done.
    injection Hstep as <-. apply (log_inv_quiet w _ []); auto.
    + simpl. by rewrite app_nil_r.
    + simpl. intros q s Hs. apply lookup_delete_Some in Hs as [_ Hs]. by left.
  - destruct (inflight w !! p) as [[|order old new st]|] eqn:Hp; try done.
    injection Hstep as <-. destruct Hinv as [Hpend Hlog].
    destruct (Hpend p _ Hp) as (Hne & Hnew & o & Ho & Hw).
    assert (calls (pollOrder_notify order old new st cb (monitor w))
            = calls (monitor w)
              ++ [OnStatusChange (telegramId o) (orderId o) old new st]) as Hcalls.
    { unfold pollOrder_notify. rewrite (list_lookup_total_correct _ _ _ Ho).
      destruct cb; [done|]. by destruct (isTerminal new). }
    split; simpl.
    + intros q s Hs. apply lookup_delete_Some in Hs as [_ Hs].
      eapply pending_write_ok_mono; [| |by eapply Hpend].
      * simpl in Hobj. exact Hobj.
      * simpl. eexists. exact Hcalls.
    + rewrite Hcalls. by apply notified_ok_snoc.
  - destruct (inflight w !! p) as [[|order old new st]|] eqn:Hp; try done.
    injection Hstep as <-. apply (log_inv_quiet w _ []); auto.
    + simpl. by rewrite app_nil_r.
    + simpl. intros q s Hs. apply lookup_delete_Some in Hs as [_ Hs]. by left.
Qed.

Lemma reachable_log_inv w : reachable w -> log_inv w.
Proof.
  induction 1 as [|e w w' Hr IH Hstep].
  - split; simpl.
    + intros p s H. by rewrite lookup_empty in H.
    + intros i tg oid old new st H. by rewrite lookup_nil in H.
  - eapply step_log_inv; [by apply reachable_wf | exact IH | exact Hstep].
Qed.

(** X11: in whatever order polls, ticks and public calls interleave,
    every call of [onStatusChange] ever made reports two different
    statuses, the new one being the status of the record passed along,
    and comes after a call of [updateOrderStatus] with the same order id
    and that new status. *)
Theorem notifications_sound w i tg oid old new st :
  reachable w ->
  calls (monitor w) !! i = Some (OnStatusChange tg oid old new st) ->
  old ≠ new ∧ new = status st ∧
  ∃ j, (j < i)%nat ∧ calls (monitor w) !! j = Some (UpdateOrderStatus oid new).
Proof.
  intros Hr Hi. by apply (li_log _ (reachable_log_inv w Hr) i tg oid).
Qed.

Lemma notifications_sound_witness :
  let w := world_after [Ev_trackOrder "order-1" 100 (Some T0) T0; Ev_start;
                        Ev_timer (T0 + 10000) never;
                        Ev_statusFulfilled 0 settled (T0 + 10005) false;
                        Ev_writeFulfilled 0 (CbReturned Undefined)] in
  ∃ j, (j < 2)%nat ∧
       calls (monitor w) !! j = Some (UpdateOrderStatus "order-1" "settled").
Proof.
  intros w.
  destruct (notifications_sound w 2%nat 100 "order-1" "pending" "settled" settled
              (world_after_reachable _) ltac:(vm_compute; reflexivity)) as (_ & _ & H).
  exact H.
Defined.

(** X12: when two activations for the same order are in flight, as
    overlapping ticks allow, and the fetch of one is fulfilled, the fetch
    of the other fulfilled next with the same status finds nothing new:
    it ends without a write, a notification or a change of the registry.
    The status is recorded in the order object before the write is
    awaited. *)
Theorem overlapping_polls_once w p q r o st now wt w1 st2 now2 wt2 :
  p ≠ q ->
  inflight w !! p = Some (AwaitStatus r) ->
  inflight w !! q = Some (AwaitStatus r) ->
  objects (monitor w) !! r = Some o ->
  step (Ev_statusFulfilled p st now wt) w = Some w1 ->
  status st2 = status st ->
  ∃ w2, step (Ev_statusFulfilled q st2 now2 wt2) w1 = Some w2 ∧
        calls (monitor w2) = calls (monitor w1) ∧
        tracked (monitor w2) = tracked (monitor w1) ∧
        inflight w2 !! q = None.
Proof.
  intros Hpq Hp Hq Ho Hstep Hst2. simpl in Hstep. rewrite Hp in Hstep.
  pose proof (lookup_lt_Some _ _ _ Ho) as Hlt.
  assert (∃ o1, objects (monitor w1) !! r = Some o1 ∧ lastStatus o1 = status st ∧
                inflight w1 !! q = Some (AwaitStatus r)) as (o1 & Ho1 & Hs1 & Hq1).
  { destruct (decide (status st = lastStatus o)) as [Heq|Hne].
    - rewrite (pollOrder_compare_same r o st now (monitor w) Ho Heq) in Hstep.
      injection Hstep as <-. simpl. eexists. split; [by apply list_lookup_insert_eq|].
      split; [done|]. by rewrite lookup_delete_ne.
    - rewrite (pollOrder_compare_diff r o st now (monitor w) Ho Hne) in Hstep.
      destruct wt; injection Hstep as <-; simpl;
        (eexists; split; [by apply list_lookup_insert_eq|]; split; [done|]).
      + by rewrite lookup_delete_ne.
      + by rewrite lookup_insert_ne. }
  simpl. rewrite Hq1.
  rewrite (pollOrder_compare_same r o1 st2 now2 (monitor w1) Ho1) by congruence.
  eexists. split; [reflexivity|]. simpl. split; [done|]. split; [done|].
  apply lookup_delete_eq.
Qed.

Lemma overlapping_polls_once_witness :
  let w := world_after [Ev_trackOrder "order-1" 100 (Some T0) T0; Ev_start;
                        Ev_timer (T0 + 10000) never; Ev_timer (T0 + 20000) never] in
  let w1 := world_after [Ev_trackOrder "order-1" 100 (Some T0) T0; Ev_start;
                         Ev_timer (T0 + 10000) never; Ev_timer (T0 + 20000) never;
                         Ev_statusFulfilled 0 settled (T0 + 20005) false] in
  size (inflight w) = 2%nat ∧
  ∃ w2, step (Ev_statusFulfilled 1 settled (T0 + 20006) false) w1 = Some w2 ∧
        calls (monitor w2) = calls (monitor w1).
Proof.
  intros w w1. split; [vm_compute; reflexivity|].
  destruct (overlapping_polls_once w 0%nat 1%nat 0%nat o_one settled (T0 + 20005) false w1
              settled (T0 + 20006) false ltac:(discriminate)
              ltac:(vm_compute; reflexivity) ltac:(vm_compute; reflexivity)
              ltac:(vm_compute; reflexivity) ltac:(vm_compute; reflexivity) eq_refl)
    as (w2 & Hstep & Hcalls & _).
  exists w2. split; [exact Hstep | exact Hcalls].
Defined.

(** ** The orders table and the start of the bot *)

Lemma db_terminal_agree s : s ∈ Database.TERMINAL_STATUSES <-> isTerminal s = true.
Proof.
  unfold isTerminal, TERMINAL_STATUSES, Database.TERMINAL_STATUSES.
  rewrite bool_decide_eq_true, !elem_of_union, !elem_of_singleton.
  rewrite !elem_of_cons, elem_of_nil. tauto.
Qed.

Lemma getPendingOrders_elem row table :
  row ∈ Database.getPendingOrders table
  <-> row ∈ table ∧ isTerminal (o_status row) = false.
Proof.
  unfold Database.getPendingOrders, Database.notInArray.
  rewrite list_elem_of_In, filter_In, <- list_elem_of_In.
  rewrite negb_true_iff, bool_decide_eq_false, db_terminal_agree.
  destruct (isTerminal (o_status row)); split; intros [H1 H2]; split; congruence.
Qed.

Lemma updateOrderStatus_elem row oid s table :
  row ∈ Database.updateOrderStatus oid s table
  <-> ∃ row0, row0 ∈ table ∧
        row = if bool_decide (sideshiftOrderId row0 = oid)
              then mkOrder (sideshiftOrderId row0) (o_telegramId row0) s (o_createdAt row0)
              else row0.
Proof.
  unfold Database.updateOrderStatus. rewrite list_elem_of_fmap.
  split; intros (row0 & H1 & H2); exists row0; done.
Qed.

Lemma updateOrderStatus_ids oid s table :
  map sideshiftOrderId (Database.updateOrderStatus oid s table) = map sideshiftOrderId table.
Proof.
  unfold Database.updateOrderStatus. rewrite map_map. apply map_ext.
  intros row. by case_bool_decide.
Qed.

(** X13: the table's list of terminal statuses and the monitor's set
    hold the same statuses; [getPendingOrders] returns exactly the rows
    whose status the monitor does not take for terminal; after
    [updateOrderStatus] every row with the given id carries the new
    status, the other rows are as before and no row is added or lost, so
    the order is returned by [getPendingOrders] afterwards only if the
    new status is not terminal. *)
Theorem pending_orders_not_terminal table :
  (∀ s, s ∈ Database.TERMINAL_STATUSES <-> isTerminal s = true) ∧
  (∀ row, row ∈ Database.getPendingOrders table
          <-> row ∈ table ∧ isTerminal (o_status row) = false) ∧
  (∀ oid s,
     let table' := Database.updateOrderStatus oid s table in
     map sideshiftOrderId table' = map sideshiftOrderId table ∧
     (∀ row, row ∈ table' -> sideshiftOrderId row = oid -> o_status row = s) ∧
     (∀ row, sideshiftOrderId row ≠ oid -> row ∈ table' <-> row ∈ table) ∧
     (∀ row, row ∈ Database.getPendingOrders table' -> sideshiftOrderId row = oid ->
             isTerminal s = false) ∧
     (isTerminal s = true ->
        oid ∉ map sideshiftOrderId (Database.getPendingOrders table'))).
Proof.
  split; [apply db_terminal_agree|]. split; [intros row; apply getPendingOrders_elem|].
  intros oid s table'.
  assert (∀ row, row ∈ table' -> sideshiftOrderId row = oid -> o_status row = s) as Hnew.
  { intros row Hin Hid. apply updateOrderStatus_elem in Hin as (row0 & _ & ->).
    case_bool_decide; [done | congruence]. }
  assert (∀ row, row ∈ Database.getPendingOrders table' -> sideshiftOrderId row = oid ->
            isTerminal s = false) as Hpend.
  { intros row Hin Hid. apply getPendingOrders_elem in Hin as [Hin Hterm].
    by rewrite (Hnew row Hin Hid) in Hterm. }
  split; [apply updateOrderStatus_ids|]. split; [exact Hnew|]. split; [|split; [exact Hpend|]].
  - intros row Hid. unfold table'. rewrite updateOrderStatus_elem. split.
    + intros (row0 & Hin & ->). case_bool_decide as Hk; [|done].
      simpl in Hid. congruence.
    + intros Hin. exists row. split; [done|]. by rewrite bool_decide_eq_false_2.
  - intros Hterm Hin. apply list_elem_of_fmap in Hin as (row & Hid & Hin).
    specialize (Hpend row Hin (eq_sym Hid)). congruence.
Qed.

Lemma pending_orders_not_terminal_witness :
  ("order-a"%string
     ∉ map sideshiftOrderId
         (Database.getPendingOrders
            (Database.updateOrderStatus "order-a" "refunded" table_ab))) ∧
  Database.getPendingOrders table_ab = [row_a; row_b].
Proof.
  split.
  - destruct (pending_orders_not_terminal table_ab) as (_ & _ & H).
    apply (H "order-a"%string "refunded"%string). vm_compute. reflexivity.
  - vm_compute. reflexivity.
Defined.

Lemma foldl_loadOne_fresh_count now orders m :
  wf_monitor m ->
  NoDup (map sideshiftOrderId orders) ->
  (∀ x, x ∈ orders -> Map_has (sideshiftOrderId x) (tracked m) = false) ->
  trackedCount (foldl (loadOne now) m orders) = trackedCount m + Z.of_nat (length orders).
Proof.
  induction orders as [|x l IH] using rev_ind; intros Hwf Hnd Hnew.
  - simpl. lia.
  - rewrite foldl_app. simpl.
    rewrite map_app in Hnd. simpl in Hnd. apply NoDup_app in Hnd as (Hl & Hx & _).
    assert (Map_has (sideshiftOrderId x) (tracked (foldl (loadOne now) m l)) = false)
      as Hfresh.
    { destruct (Map_has _ _) eqn:E; [|done].
      apply foldl_loadOne_has_iff in E as [E | E].
      - rewrite Hnew in E; [done|]. apply elem_of_app. right. left.
      - exfalso. apply (Hx _ E). left. }
    destruct (trackOrder_new (sideshiftOrderId x) (o_telegramId x) (o_createdAt x) now
                _ (foldl_loadOne_wf now l m Hwf) Hfresh) as (_ & _ & Hc & _).
    assert (trackedCount (loadOne now (foldl (loadOne now) m l) x)
            = trackedCount (foldl (loadOne now) m l) + 1) as ->.
    { unfold trackedCount in *. by rewrite loadOne_tracked. }
    rewrite IH; [|done|done|].
    + rewrite length_app. simpl. lia.
    + intros y Hy. apply Hnew. apply elem_of_app. by left.
Qed.

Lemma filter_ids_NoDup (f : Order -> bool) table :
  NoDup (map sideshiftOrderId table) ->
  NoDup (map sideshiftOrderId (List.filter f table)).
Proof.
  induction table as [|x l IH]; simpl; [done|].
  intros Hnd. apply NoDup_cons in Hnd as [Hx Hl].
  destruct (f x); simpl; [|auto]. apply NoDup_cons. split; [|auto].
  intros Hin. apply Hx. apply list_elem_of_fmap in Hin as (y & -> & Hy).
  apply list_elem_of_In, filter_In in Hy as [Hy _].
  apply list_elem_of_In in Hy. apply (list_elem_of_fmap_2 sideshiftOrderId) in Hy. exact Hy.
Qed.

Lemma startup_tracked result now m :
  tracked (startup result now m) = tracked (fst (loadPendingOrders result now m)) ∧
  objects (startup result now m) = objects (fst (loadPendingOrders result now m)) ∧
  tickTimer (startup result now m) = true.
Proof.
  unfold startup, loadPendingOrders, start.
  destruct result as [| |rows]; simpl; by destruct (tickTimer _) eqn:E.
Qed.

Lemma startup_failed result now m :
  failed result ->
  tracked (startup result now m) = tracked m ∧ objects (startup result now m) = objects m.
Proof.
  intros Hf. destruct (startup_tracked result now m) as (-> & -> & _).
  by destruct result.
Qed.

Lemma foldl_loadOne_fresh_one now orders m row :
  wf_monitor m ->
  NoDup (map sideshiftOrderId orders) ->
  Map_has (sideshiftOrderId row) (tracked m) = false ->
  row ∈ orders ->
  entry (sideshiftOrderId row) (foldl (loadOne now) m orders)
  = Some (mkTracked (sideshiftOrderId row) (o_telegramId row)
            (default now (o_createdAt row)) 0 (o_status row)).
Proof.
  induction orders as [|x l IH] using rev_ind; intros Hwf Hnd Hnew Hin.
  - by apply elem_of_nil in Hin.
  - rewrite foldl_app. simpl.
    rewrite map_app in Hnd. simpl in Hnd. apply NoDup_app in Hnd as (Hl & Hx & _).
    assert (wf_monitor (foldl (loadOne now) m l)) as Hwf1 by (by apply foldl_loadOne_wf).
    assert (sideshiftOrderId x ∉ map sideshiftOrderId l) as Hxl.
    { intros Hk. apply (Hx _ Hk). left. }
    apply elem_of_app in Hin as [Hin | Hin].
    + apply loadOne_other; [done| |].
      * intros Heq. apply Hxl. rewrite Heq.
        apply (list_elem_of_fmap_2 sideshiftOrderId) in Hin. exact Hin.
      * by apply IH.
    + apply list_elem_of_singleton in Hin. subst row.
      assert (Map_has (sideshiftOrderId x) (tracked (foldl (loadOne now) m l)) = false)
        as Hfresh.
      { apply not_true_is_false. intros E.
        apply foldl_loadOne_has_iff in E as [E | E]; [congruence | by apply Hxl]. }
      destruct (trackOrder_new (sideshiftOrderId x) (o_telegramId x) (o_createdAt x) now
                  _ Hwf1 Hfresh) as (He & _).
      unfold loadOne.
      set (m1 := trackOrder _ _ _ _ _) in *. unfold entry in He.
      destruct (Map_get (sideshiftOrderId x) (tracked m1)) as [r|] eqn:Hr; [|done].
      simpl in He. unfold entry. simpl. rewrite Hr. simpl.
      by rewrite list_lookup_alter_eq, He.
Qed.

Lemma startup_spec table now m :
  wf_monitor m ->
  NoDup (map sideshiftOrderId table) ->
  let m' := startup (Fulfils (Database.getPendingOrders table)) now m in
  (∀ row, row ∈ table -> isTerminal (o_status row) = false ->
     ∃ t, entry (sideshiftOrderId row) m' = Some t ∧
          orderId t = sideshiftOrderId row ∧ lastStatus t = o_status row ∧
          (Map_has (sideshiftOrderId row) (tracked m) = false ->
           t = mkTracked (sideshiftOrderId row) (o_telegramId row)
                 (default now (o_createdAt row)) 0 (o_status row))) ∧
  (∀ oid, Map_has oid (tracked m') = true ->
     Map_has oid (tracked m) = true ∨
     ∃ row, row ∈ table ∧ sideshiftOrderId row = oid ∧
            isTerminal (o_status row) = false) ∧
  (tracked m = [] ->
   trackedCount m' = Z.of_nat (length (Database.getPendingOrders table))).
Proof.
  intros Hwf Hnd m'.
  destruct (startup_tracked (Fulfils (Database.getPendingOrders table)) now m)
    as (Ht & Hobj & _). fold m' in Ht, Hobj. simpl in Ht, Hobj.
  unfold entry, trackedCount. rewrite Ht, Hobj.
  pose proof (filter_ids_NoDup
                (fun row => Database.notInArray (o_status row) Database.TERMINAL_STATUSES)
                table Hnd) as Hnd'.
  assert (wf_monitor (emit GetPendingOrders m)) as Hwf0 by exact Hwf.
  split; [|split].
  - intros row Hin Hterm.
    assert (row ∈ Database.getPendingOrders table) as Hrow
      by (by apply getPendingOrders_elem).
    destruct (foldl_loadOne_lastRow now _ (emit GetPendingOrders m)
                (sideshiftOrderId row) row Hwf0
                (lastRow_unique _ row Hnd' Hrow)) as (t & Ht1 & Hk & Hs).
    exists t. split; [exact Ht1|]. split; [done|]. split; [done|].
    intros Hnew.
    pose proof (foldl_loadOne_fresh_one now _ (emit GetPendingOrders m) row
                  Hwf0 Hnd' Hnew Hrow) as Hfresh.
    unfold entry in Ht1, Hfresh. congruence.
  - intros oid Hhas. apply foldl_loadOne_has_iff in Hhas as [Hhas | Hin]; [by left|].
    right. apply list_elem_of_fmap in Hin as (row & -> & Hin).
    apply getPendingOrders_elem in Hin as [Hin Hterm]. by exists row.
  - intros Hempty.
    assert (∀ x, x ∈ Database.getPendingOrders table ->
                 Map_has (sideshiftOrderId x) (tracked (emit GetPendingOrders m)) = false)
      as Hnone by (intros x _; simpl; by rewrite Hempty).
    pose proof (foldl_loadOne_fresh_count now _ (emit GetPendingOrders m)
                  Hwf0 Hnd' Hnone) as Hc.
    unfold trackedCount in Hc. etrans; [exact Hc|].
    change (tracked (emit GetPendingOrders m)) with (tracked m). by rewrite Hempty.
Qed.

(** X14: the start of the bot, the ids of the table being distinct.
    The timer is armed however the read of the pending orders ends.
    When the read fulfils, every order whose persisted status is not
    terminal is tracked with that status, and, unless a handler tracked
    it before the rows arrived, with the row's owner, the row's creation
    time or else the time of the start, and [lastChecked] 0; whatever is
    tracked was tracked before or is such a row; and if nothing was
    tracked before, the count is the number of such rows.  When the read
    throws or rejects, the registry and the order objects are as they
    were: nothing of the table is tracked. *)
Theorem startup_reconciles table result now m :
  wf_monitor m ->
  NoDup (map sideshiftOrderId table) ->
  let m' := startup result now m in
  tickTimer m' = true ∧
  (result = Fulfils (Database.getPendingOrders table) ->
   (∀ row, row ∈ table -> isTerminal (o_status row) = false ->
      ∃ t, entry (sideshiftOrderId row) m' = Some t ∧
           lastStatus t = o_status row ∧
           (Map_has (sideshiftOrderId row) (tracked m) = false ->
            t = mkTracked (sideshiftOrderId row) (o_telegramId row)
                  (default now (o_createdAt row)) 0 (o_status row))) ∧
   (∀ oid, Map_has oid (tracked m') = true ->
      Map_has oid (tracked m) = true ∨
      ∃ row, row ∈ table ∧ sideshiftOrderId row = oid ∧
             isTerminal (o_status row) = false) ∧
   (tracked m = [] ->
    trackedCount m' = Z.of_nat (length (Database.getPendingOrders table)))) ∧
  (failed result -> tracked m' = tracked m ∧ objects m' = objects m).
Proof.
  intros Hwf Hnd m'. split; [apply startup_tracked|]. split.
  - intros ->. destruct (startup_spec table now m Hwf Hnd) as (H1 & H2 & H3).
    split; [|split; [exact H2 | exact H3]].
    intros row Hin Hterm. destruct (H1 row Hin Hterm) as (t & Ht & _ & Hs & Hnew).
    exists t. done.
  - apply startup_failed.
Qed.

Lemma table_ab_NoDup : NoDup (map sideshiftOrderId table_ab).
Proof.
  vm_compute. repeat (apply NoDup_cons; split;
    [rewrite ?elem_of_cons, elem_of_nil; intros H; intuition discriminate|]).
  apply NoDup_nil_2.
Qed.

Lemma startup_reconciles_witness :
  (∃ t, entry "order-b" (startup (Fulfils (Database.getPendingOrders table_ab)) (T0 + 3) m_one)
        = Some t ∧ lastStatus t = "processing"%string ∧
        t = mkTracked "order-b" 12345 (T0 + 3) 0 "processing") ∧
  trackedCount (startup (Fulfils (Database.getPendingOrders table_ab)) (T0 + 3) newMonitor) = 2 ∧
  tracked (startup Rejects (T0 + 3) m_one) = tracked m_one.
Proof.
  destruct (startup_reconciles table_ab (Fulfils (Database.getPendingOrders table_ab))
              (T0 + 3) m_one m_one_wf table_ab_NoDup) as (_ & H1 & _).
  destruct (startup_reconciles table_ab (Fulfils (Database.getPendingOrders table_ab))
              (T0 + 3) newMonitor (wf_mon _ newWorld_wf) table_ab_NoDup) as (_ & H2 & _).
  destruct (startup_reconciles table_ab Rejects (T0 + 3) m_one m_one_wf table_ab_NoDup)
    as (_ & _ & H3).
  split; [|split].
  - destruct (H1 eq_refl) as (H & _).
    destruct (H row_b ltac:(do 2 right; left) ltac:(vm_compute; reflexivity))
      as (t & Ht & Hs & Hnew).
    exists t. split; [exact Ht|]. split; [exact Hs|].
    apply Hnew. vm_compute. reflexivity.
  - destruct (H2 eq_refl) as (_ & _ & H). apply H. reflexivity.
  - apply (H3 I).
Defined.

(** X15: what a status written with [updateOrderStatus] means for a
    restart, the ids of the table being distinct and the order not being
    tracked when the rows of the restart arrive.  When the read of the
    restart fulfils, the written status decides: after a terminal status
    the order is not tracked; after another status, the order being in
    the table, it is tracked with that status and [lastChecked] 0.  When
    the read throws or rejects, the order is not tracked, whatever was
    written. *)
Theorem written_status_decides_restart table oid s result now m :
  wf_monitor m ->
  NoDup (map sideshiftOrderId table) ->
  Map_has oid (tracked m) = false ->
  let m' := startup result now m in
  (result = Fulfils (Database.getPendingOrders (Database.updateOrderStatus oid s table)) ->
   (isTerminal s = true -> Map_has oid (tracked m') = false) ∧
   (isTerminal s = false -> oid ∈ map sideshiftOrderId table ->
      ∃ t, entry oid m' = Some t ∧ lastStatus t = s ∧ lastChecked t = 0)) ∧
  (failed result -> Map_has oid (tracked m') = false).
Proof.
  intros Hwf Hnd Hnew m'. split.
  - intros ->.
    assert (NoDup (map sideshiftOrderId (Database.updateOrderStatus oid s table))) as Hnd'
      by (by rewrite updateOrderStatus_ids).
    destruct (startup_spec _ now m Hwf Hnd') as (H1 & H2 & _). fold m' in H1, H2.
    split.
    + intros Hterm. destruct (Map_has oid (tracked m')) eqn:E; [|done].
      destruct (H2 oid E) as [Hold | (row & Hin & Hid & Hnt)]; [congruence|].
      apply updateOrderStatus_elem in Hin as (row0 & _ & ->).
      case_bool_decide as Hk; simpl in *; congruence.
    + intros Hnt Hin. apply list_elem_of_fmap in Hin as (row0 & -> & Hin0).
      set (row := mkOrder (sideshiftOrderId row0) (o_telegramId row0) s (o_createdAt row0)).
      assert (row ∈ Database.updateOrderStatus (sideshiftOrderId row0) s table) as Hrow.
      { apply updateOrderStatus_elem. exists row0. split; [done|].
        by rewrite bool_decide_eq_true_2. }
      destruct (H1 row Hrow Hnt) as (t & Ht & _ & Hs & Hfresh). simpl in *.
      exists t. split; [exact Ht|]. split; [exact Hs|].
      by rewrite (Hfresh Hnew).
  - intros Hf. destruct (startup_failed result now m Hf) as [Ht _].
    unfold m'. by rewrite Ht.
Qed.

Lemma written_status_decides_restart_witness :
  Map_has "order-a"
    (tracked (startup (Fulfils (Database.getPendingOrders
                                  (Database.updateOrderStatus "order-a" "settled" table_ab)))
                T0 m_one)) = false ∧
  (∃ t, entry "order-c"
          (startup (Fulfils (Database.getPendingOrders
                               (Database.updateOrderStatus "order-c" "waiting" table_ab)))
             T0 newMonitor)
        = Some t ∧ lastStatus t = "waiting"%string ∧ lastChecked t = 0) ∧
  Map_has "order-c" (tracked (startup Throws T0 newMonitor)) = false.
Proof.
  destruct (written_status_decides_restart table_ab "order-a" "settled"
              (Fulfils (Database.getPendingOrders
                          (Database.updateOrderStatus "order-a" "settled" table_ab)))
              T0 m_one m_one_wf table_ab_NoDup ltac:(vm_compute; reflexivity))
    as [H1 _].
  destruct (written_status_decides_restart table_ab "order-c" "waiting"
              (Fulfils (Database.getPendingOrders
                          (Database.updateOrderStatus "order-c" "waiting" table_ab)))
              T0 newMonitor (wf_mon _ newWorld_wf) table_ab_NoDup ltac:(vm_compute; reflexivity))
    as [H2 _].
  destruct (written_status_decides_restart table_ab "order-c" "waiting" Throws
              T0 newMonitor (wf_mon _ newWorld_wf) table_ab_NoDup ltac:(vm_compute; reflexivity))
    as [_ H3].
  split; [|split].
  - apply (H1 eq_refl). vm_compute. reflexivity.
  - apply (H2 eq_refl); [vm_compute; reflexivity | vm_compute; do 1 right; left].
  - apply (H3 I).
Defined.

(** ** What exactly a tick dispatches *)

Lemma spawn_objects throws w r :
  objects (monitor (spawn throws w r)) = objects (monitor w).
Proof. unfold spawn. by destruct (throws _). Qed.

Lemma foldl_spawn_calls_exact throws rs w :
  calls (monitor (foldl (spawn throws) w rs))
  = calls (monitor w)
    ++ map (fun r => GetOrderStatus (orderId (objects (monitor w) !!! r))) rs.
Proof.
  revert w. induction rs as [|r rs IH]; simpl; intros w.
  - by rewrite app_nil_r.
  - rewrite IH, spawn_objects. unfold spawn.
    destruct (throws _); simpl; by rewrite <- app_assoc.
Qed.

Lemma foldl_spawn_size throws rs w :
  fresh w ->
  size (inflight (foldl (spawn throws) w rs))
  = (size (inflight w)
     + length (List.filter
                 (fun r => negb (throws (orderId (objects (monitor w) !!! r)))) rs))%nat.
Proof.
  revert w. induction rs as [|r rs IH]; simpl; intros w Hf; [lia|].
  pose proof (spawn_dispatched throws w r Hf) as Hd.
  rewrite (IH _ (d_fresh _ _ _ Hd)), spawn_objects.
  unfold spawn. simpl. destruct (throws _); simpl; [done|].
  rewrite map_size_insert_None; [lia|].
  destruct (inflight w !! nextPoll w) eqn:E; [|done]. apply Hf in E. lia.
Qed.

(** X16: in a reachable state a tick starts polls for exactly the first
    min(number of due orders, [MAX_CONCURRENT] - [activePollCount]) due
    orders, in the order of the registry; it calls [getOrderStatus] once
    for each of them, in that order, and nothing else; each call that
    does not throw leaves one more activation in flight; with all slots
    taken, or nothing due, the tick changes nothing. *)
Theorem tick_dispatch_exact w now throws :
  reachable w ->
  let due := toPoll now (monitor w) in
  let b := batch now (monitor w) in
  let w' := tick now throws w in
  Z.of_nat (length b)
  = Z.min (Z.of_nat (length due)) (MAX_CONCURRENT - activePollCount (monitor w)) ∧
  b = take (length b) due ∧
  since (monitor w) (monitor w')
  = map (fun r => GetOrderStatus (orderId (objects (monitor w) !!! r))) b ∧
  size (inflight w')
  = (size (inflight w)
     + length (List.filter
                 (fun r => negb (throws (orderId (objects (monitor w) !!! r)))) b))%nat ∧
  (activePollCount (monitor w) = MAX_CONCURRENT -> w' = w) ∧
  (due = [] -> w' = w).
Proof.
  intros Hr due b w'. apply reachable_wf in Hr. destruct Hr as [_ Hcount Hcap Hfresh _].
  assert (0 <= activePollCount (monitor w)) as H0 by lia.
  assert (b = take (Z.to_nat (Z.min (MAX_CONCURRENT - activePollCount (monitor w))
                                (Z.of_nat (length due)))) due) as Hb.
  { unfold b, batch, Array_slice0. fold due.
    destruct (Z.ltb_spec (MAX_CONCURRENT - activePollCount (monitor w)) 0); [lia | done]. }
  assert (Z.of_nat (length b)
          = Z.min (Z.of_nat (length due)) (MAX_CONCURRENT - activePollCount (monitor w)))
    as Hlen.
  { rewrite Hb, length_take. lia. }
  assert (w' = foldl (spawn throws) w b) as Hw'.
  { unfold w', tick.
    change (Array_slice0 (MAX_CONCURRENT - activePollCount (monitor w))
              (toPoll now (monitor w))) with b.
    change (toPoll now (monitor w)) with due.
    case_bool_decide as H1.
    - apply nil_length_inv in H1. rewrite Hb, H1, take_nil. done.
    - case_bool_decide as H2; [|done]. apply nil_length_inv in H2. by rewrite H2. }
  split; [exact Hlen|]. split; [|split; [|split; [|split]]].
  - rewrite Hb at 1. f_equal. lia.
  - apply since_app. rewrite Hw'. apply foldl_spawn_calls_exact.
  - rewrite Hw'. by apply foldl_spawn_size.
  - intros Hfull. rewrite Hw'. assert (b = []) as ->; [|done].
    apply nil_length_inv. lia.
  - intros Hdue. rewrite Hw'. assert (b = []) as ->; [|done].
    rewrite Hb, Hdue. apply take_nil.
Qed.

Lemma tick_dispatch_exact_witness :
  let w := world_after (seven ++ [Ev_start; Ev_timer (T0 + 10000) never;
                                  Ev_statusRejected 1; Ev_statusRejected 3]) in
  Z.of_nat (length (batch (T0 + 20000) (monitor w))) = 2 ∧
  since (monitor w) (monitor (tick (T0 + 20000) never w))
  = [GetOrderStatus "o1"; GetOrderStatus "o2"].
Proof.
  intros w.
  destruct (tick_dispatch_exact w (T0 + 20000) never (world_after_reachable _))
    as (H1 & _ & H3 & _).
  split.
  - rewrite H1. vm_compute. reflexivity.
  - rewrite H3. vm_compute. reflexivity.
Defined.

(** ** Stopping *)

Lemma stop_compare order st now m :
  pollOrder_compare order st now (stop m)
  = (stop (fst (pollOrder_compare order st now m)),
     snd (pollOrder_compare order st now m)).
Proof.
  unfold pollOrder_compare, stop. destruct m as [objs t timer n cs]. simpl.
  destruct timer; simpl; by case_bool_decide.
Qed.

Lemma stop_notify order old new st cb m :
  pollOrder_notify order old new st cb (stop m)
  = stop (pollOrder_notify order old new st cb m).
Proof.
  unfold pollOrder_notify, stop. destruct m as [objs t timer n cs]. simpl.
  destruct timer, cb; simpl; try done; by destruct (isTerminal new).
Qed.

Lemma stop_finally m : pollOrder_finally (stop m) = stop (pollOrder_finally m).
Proof. unfold stop. destruct m as [objs t timer n cs]. by destruct timer. Qed.

(** X17: [stop] is a soft stop: it clears the timer, so no tick runs
    until [start], but the polls in flight go on: every later step of an
    activation does to the stopped monitor what it does to the running
    one, writes, notifications and removals included. *)
Theorem stop_is_soft w :
  tickTimer (monitor (on_monitor stop w)) = false ∧
  inflight (on_monitor stop w) = inflight w ∧
  (∀ now throws, step (Ev_timer now throws) (on_monitor stop w) = None) ∧
  (∀ e p, poll_of e = Some p ->
     step e (on_monitor stop w) = on_monitor stop <$> step e w).
Proof.
  split; [|split; [done|split]].
  - simpl. unfold stop. by destruct (tickTimer (monitor w)) eqn:E.
  - intros now throws. simpl. unfold stop.
    destruct (tickTimer (monitor w)) eqn:E; simpl; [done | by rewrite E].
  - intros e p He. destruct e; simpl in He; try discriminate; simpl.
    + destruct (inflight w !! p0) as [[order|]|]; try done.
      rewrite stop_compare.
      destruct (pollOrder_compare order st now (monitor w)) as [m2 [[old new]|]]; simpl.
      * destruct writeThrows; simpl; unfold finish, on_monitor; simpl;
          by rewrite ?stop_finally.
      * unfold finish, on_monitor; simpl. by rewrite stop_finally.
    + destruct (inflight w !! p0) as [[order|]|]; try done.
      simpl. unfold finish, on_monitor; simpl. by rewrite stop_finally.
    + destruct (inflight w !! p0) as [[|order old new st]|]; try done.
      simpl. unfold finish, on_monitor; simpl. by rewrite stop_notify, stop_finally.
    + destruct (inflight w !! p0) as [[|order old new st]|]; try done.
      simpl. unfold finish, on_monitor; simpl. by rewrite stop_finally.
Qed.

Lemma stop_is_soft_witness :
  let w := world_after [Ev_trackOrder "order-1" 100 (Some T0) T0; Ev_start;
                        Ev_timer (T0 + 10000) never;
                        Ev_statusFulfilled 0 settled (T0 + 10005) false] in
  (calls ∘ monitor <$> step (Ev_writeFulfilled 0 (CbReturned Undefined)) (on_monitor stop w))
  = Some [GetOrderStatus "order-1"; UpdateOrderStatus "order-1" "settled";
          OnStatusChange 100 "order-1" "pending" "settled" settled].
Proof.
  intros w. destruct (stop_is_soft w) as (_ & _ & _ & H).
  rewrite (H (Ev_writeFulfilled 0 (CbReturned Undefined)) 0%nat eq_refl).
  vm_compute. reflexivity.
Defined.

(** ** Changes that happened while the bot was down *)

(** X18: changes that happened while the bot was down, the ids of the
    table being distinct and the order not being tracked when the rows
    arrive.  When the read of the start fulfils, the first poll of an
    order whose persisted status is not terminal, if the fetched status
    differs from the persisted one and the write fulfils, notifies the
    row's owner of the change from the persisted status to the fetched
    one: so a change whose write failed before the restart is then
    notified after it.  When the read throws or rejects, the order is not
    tracked after the start and no tick has it among its candidates. *)
Theorem restart_notifies table result now m row env st u :
  wf_monitor m ->
  NoDup (map sideshiftOrderId table) ->
  row ∈ table ->
  isTerminal (o_status row) = false ->
  Map_has (sideshiftOrderId row) (tracked m) = false ->
  env_getOrderStatus env = Fulfils st ->
  status st ≠ o_status row ->
  env_updateOrderStatus env = Fulfils u ->
  let m' := startup result now m in
  (result = Fulfils (Database.getPendingOrders table) ->
   ∃ r, Map_get (sideshiftOrderId row) (tracked m') = Some r ∧
        (∀ now', 900000 <= now' -> r ∈ toPoll now' m') ∧
        since m' (pollOrder r env m')
        = [GetOrderStatus (sideshiftOrderId row);
           UpdateOrderStatus (sideshiftOrderId row) (status st);
           OnStatusChange (o_telegramId row) (sideshiftOrderId row)
             (o_status row) (status st) st]) ∧
  (failed result ->
   Map_has (sideshiftOrderId row) (tracked m') = false ∧
   ∀ now' r, r ∈ toPoll now' m' -> orderId (objects m' !!! r) ≠ sideshiftOrderId row).
Proof.
  intros Hwf Hnd Hin Hnt Hnew Hst Hne Hu m'. split.
  - intros ->. destruct (startup_spec table now m Hwf Hnd) as (H1 & _).
    destruct (H1 row Hin Hnt) as (t & Ht & _ & _ & Hfresh). fold m' in Ht.
    specialize (Hfresh Hnew). subst t. unfold entry in Ht.
    destruct (Map_get (sideshiftOrderId row) (tracked m')) as [r|] eqn:Hr; [|done].
    simpl in Ht. exists r. split; [done|]. split.
    + intros now' Hlate. apply (toPoll_elem now' m' (sideshiftOrderId row));
        [by apply Map_get_elem|].
      rewrite (list_lookup_total_correct _ _ _ Ht). unfold isDue. simpl.
      apply Z.leb_le.
      destruct (getBackoffInterval_range (now' - default now (o_createdAt row)))
        as [H | [H | [H | H]]]; rewrite H; lia.
    + apply since_app. by rewrite (pollOrder_written _ r _ Ht env st u Hst Hne Hu).
  - intros Hf. destruct (startup_failed result now m Hf) as [Ht Hobj].
    assert (Map_has (sideshiftOrderId row) (tracked m') = false) as Hnot
      by (unfold m'; by rewrite Ht).
    split; [exact Hnot|]. intros now' r Hr Hid.
    unfold toPoll in Hr. apply list_elem_of_In, filter_In in Hr as [Hr _].
    apply list_elem_of_In in Hr. unfold Map_values in Hr.
    apply list_elem_of_fmap in Hr as [[k r'] [-> Hkr]]. simpl in Hid.
    unfold m' in Hkr, Hid. rewrite Ht in Hkr. rewrite Hobj in Hid.
    destruct Hwf as [_ Hrefs]. destruct (Hrefs _ _ Hkr) as (o & Ho & Hk).
    rewrite (list_lookup_total_correct _ _ _ Ho) in Hid.
    apply Map_has_false in Hnew. apply Hnew.
    apply (list_elem_of_fmap_2 fst) in Hkr. simpl in Hkr. rewrite <- Hid, Hk. exact Hkr.
Qed.

Lemma restart_notifies_witness :
  let m' := startup (Fulfils (Database.getPendingOrders table_ab)) T0 m_one in
  (∃ r, Map_get "order-a" (tracked m') = Some r ∧
        since m' (pollOrder r (env_ok (statusOf "order-a" "settled")) m')
        = [GetOrderStatus "order-a"; UpdateOrderStatus "order-a" "settled";
           OnStatusChange 12345 "order-a" "waiting" "settled" (statusOf "order-a" "settled")]) ∧
  Map_has "order-a" (tracked (startup Rejects T0 m_one)) = false.
Proof.
  intros m'. split.
  - destruct (restart_notifies table_ab (Fulfils (Database.getPendingOrders table_ab)) T0
                m_one row_a (env_ok (statusOf "order-a" "settled"))
                (statusOf "order-a" "settled") tt m_one_wf table_ab_NoDup
                ltac:(left) ltac:(vm_compute; reflexivity) ltac:(vm_compute; reflexivity)
                ltac:(reflexivity) ltac:(discriminate) ltac:(reflexivity)) as [H _].
    destruct (H eq_refl) as (r & Hr & _ & Hs). exists r. split; [exact Hr | exact Hs].
  - destruct (restart_notifies table_ab Rejects T0
                m_one row_a (env_ok (statusOf "order-a" "settled"))
                (statusOf "order-a" "settled") tt m_one_wf table_ab_NoDup
                ltac:(left) ltac:(vm_compute; reflexivity) ltac:(vm_compute; reflexivity)
                ltac:(reflexivity) ltac:(discriminate) ltac:(reflexivity)) as [_ H].
    apply (H I).
Defined.

(** ** The entry of an order while a poll of it is suspended *)

Lemma entry_orderId m k t : wf_monitor m -> entry k m = Some t -> orderId t = k.
Proof.
  intros [_ Hrefs] He. unfold entry in He.
  destruct (Map_get k (tracked m)) as [r|] eqn:Hr; [|done]. simpl in He.
  destruct (Hrefs _ _ (Map_get_elem _ _ _ Hr)) as (t' & Ht' & Hk). congruence.
Qed.

Lemma entry_alter_other m k t f order :
  wf_monitor m -> entry k m = Some t ->
  orderId (objects m !!! order) ≠ k ->
  entry k (set_objects (alter f order (objects m)) m) = Some t.
Proof.
  intros Hwf He Hne. pose proof (entry_orderId m k t Hwf He) as Hk.
  unfold entry in *. simpl.
  destruct (Map_get k (tracked m)) as [r|] eqn:Hr; [|done]. simpl in *.
  rewrite list_lookup_alter_ne; [done|].
  intros ->. apply Hne. by rewrite (list_lookup_total_correct _ _ _ He).
Qed.

Lemma pollOrder_compare_entry order st now m k t :
  wf_monitor m -> entry k m = Some t ->
  orderId (objects m !!! order) ≠ k ->
  entry k (fst (pollOrder_compare order st now m)) = Some t.
Proof.
  intros Hwf He Hne. unfold pollOrder_compare.
  assert (entry k (set_objects (alter (with_lastChecked now) order (objects m)) m) = Some t)
    as H1 by (by apply entry_alter_other).
  case_bool_decide; simpl; [|exact H1].
  unfold entry in *. simpl in *.
  destruct (Map_get k (tracked m)) as [r|] eqn:Hr; [|done]. simpl in *.
  pose proof (entry_orderId m k t Hwf ltac:(unfold entry; rewrite Hr; exact He)) as Hk.
  rewrite list_lookup_alter_ne; [done|].
  intros ->. apply Hne. by rewrite (list_lookup_total_correct _ _ _ He).
Qed.

Lemma step_entry_kept e w w' k t :
  wf_world w -> step e w = Some w' ->
  concerns k w e = false ->
  entry k (monitor w) = Some t -> entry k (monitor w') = Some t.
Proof.
  intros Hwf Hstep Hc He. pose proof (wf_mon _ Hwf) as Hm.
  destruct e; simpl in Hstep, Hc.
  - injection Hstep as <-. simpl. unfold start. by destruct (tickTimer _).
  - injection Hstep as <-. simpl. unfold stop. by destruct (tickTimer _).
  - injection Hstep as <-. simpl. by apply trackOrder_entry_kept.
  - injection Hstep as <-. simpl. apply bool_decide_eq_false in Hc.
    unfold entry in *. simpl. rewrite Map_delete_get_ne by congruence. done.
  - injection Hstep as <-. simpl. unfold loadPendingOrders.
    destruct result as [| |rows]; simpl; try done.
    apply bool_decide_eq_false in Hc.
    destruct (foldl_loadOne_kept now rows (emit GetPendingOrders (monitor w)) k t Hm He)
      as (t' & Ht' & _ & _ & Hsame).
    by rewrite <- (Hsame Hc).
  - destruct (tickTimer _); [|done]. injection Hstep as <-.
    pose proof (tick_dispatched now throws w (wf_fresh _ Hwf)) as Hd.
    unfold entry in *. by rewrite (d_tracked _ _ _ Hd), (d_objects _ _ _ Hd).
  - destruct (inflight w !! p) as [[order|]|] eqn:Hp; try done.
    simpl in Hc. apply bool_decide_eq_false in Hc.
    pose proof (pollOrder_compare_entry order st now (monitor w) k t Hm He Hc) as H1.
    destruct (pollOrder_compare order st now (monitor w)) as [m2 [[old new]|]];
      simpl in H1; [destruct writeThrows|]; injection Hstep as <-; exact H1.
  - destruct (inflight w !! p) as [[order|]|] eqn:Hp; try done.
    injection Hstep as <-. exact He.
  - destruct (inflight w !! p) as [[|order old new st]|] eqn:Hp; try done.
    simpl in Hc. apply bool_decide_eq_false in Hc.
    injection Hstep as <-. simpl. unfold pollOrder_notify.
    destruct cb; [exact He|]. destruct (isTerminal new); [|exact He].
    unfold entry in *. simpl. rewrite Map_delete_get_ne by congruence. done.
  - destruct (inflight w !! p) as [[|order old new st]|] eqn:Hp; try done.
    injection Hstep as <-. exact He.
Qed.

Lemma run_entry_kept es w w' k t :
  wf_world w -> run es w = Some w' ->
  undisturbed k es w = true ->
  entry k (monitor w) = Some t -> entry k (monitor w') = Some t.
Proof.
  revert w. induction es as [|e es IH]; simpl; intros w Hwf Hrun Hq He.
  - by injection Hrun as <-.
  - destruct (step e w) as [w1|] eqn:Hstep; [|done]. simpl in Hrun.
    apply andb_true_iff in Hq as [Hc Hq]. apply negb_true_iff in Hc.
    apply (IH w1); [by eapply step_wf | done | done |].
    by eapply step_entry_kept.
Qed.

Lemma run_wf es w w' : wf_world w -> run es w = Some w' -> wf_world w'.
Proof.
  revert w. induction es as [|e es IH]; simpl; intros w Hwf Hrun.
  - by injection Hrun as <-.
  - destruct (step e w) as [w1|] eqn:Hstep; [|done]. simpl in Hrun.
    apply (IH w1); [by eapply step_wf | done].
Qed.

(** C2, as amended, in the running system.  A poll of a tracked order
    observes a changed status and places the write, which does not throw;
    anything may run before the write settles.
    - Up to there the poll leaves the registry alone, and the entry
      carries the new status.
    - When the write fulfils, the notification is made; if the callback
      returns and the new status is terminal, the poll then deletes the
      id of the order from the registry: the id is not in the registry
      afterwards, the other entries are kept, and the count is one less
      if the id was still there; if the new status is not terminal, the
      poll leaves the registry as it is.
    - When the write rejects, or throws, the poll ends and leaves the
      registry as it is, whatever the new status.
    - When nothing that ran in between concerns the order, the entry
      still carries the new status when the write settles: so a terminal
      status takes the count down by one, and with another status the
      order remains tracked with the new status. *)
Theorem terminal_removed w p r o st now w1 es w2 :
  reachable w ->
  inflight w !! p = Some (AwaitStatus r) ->
  tracks (monitor w) r o ->
  status st ≠ lastStatus o ->
  step (Ev_statusFulfilled p st now false) w = Some w1 ->
  Forall (fun e => poll_of e ≠ Some p) es ->
  run es w1 = Some w2 ->
  let o' := with_lastStatus (status st) (with_lastChecked now o) in
  (tracked (monitor w1) = tracked (monitor w) ∧
   calls (monitor w1) = calls (monitor w) ++ [UpdateOrderStatus (orderId o) (status st)] ∧
   entry (orderId o) (monitor w1) = Some o') ∧
  (∀ v, ∃ w3,
     step (Ev_writeFulfilled p (CbReturned v)) w2 = Some w3 ∧
     calls (monitor w3)
     = calls (monitor w2)
       ++ [OnStatusChange (telegramId o) (orderId o) (lastStatus o) (status st) st] ∧
     objects (monitor w3) = objects (monitor w2) ∧
     (isTerminal (status st) = true ->
        tracked (monitor w3) = Map_delete (orderId o) (tracked (monitor w2)) ∧
        Map_has (orderId o) (tracked (monitor w3)) = false ∧
        (∀ k, k ≠ orderId o ->
              Map_get k (tracked (monitor w3)) = Map_get k (tracked (monitor w2))) ∧
        (Map_has (orderId o) (tracked (monitor w2)) = true ->
         trackedCount (monitor w3) = trackedCount (monitor w2) - 1)) ∧
     (isTerminal (status st) = false ->
        tracked (monitor w3) = tracked (monitor w2)) ∧
     (undisturbed (orderId o) es w1 = true ->
        (isTerminal (status st) = true ->
         trackedCount (monitor w3) = trackedCount (monitor w2) - 1) ∧
        (isTerminal (status st) = false ->
         entry (orderId o) (monitor w3) = Some o'))) ∧
  (∃ w3, step (Ev_writeRejected p) w2 = Some w3 ∧
         tracked (monitor w3) = tracked (monitor w2) ∧
         objects (monitor w3) = objects (monitor w2) ∧
         calls (monitor w3) = calls (monitor w2)) ∧
  (∃ w1', step (Ev_statusFulfilled p st now true) w = Some w1' ∧
          tracked (monitor w1') = tracked (monitor w) ∧
          inflight w1' !! p = None) ∧
  (undisturbed (orderId o) es w1 = true -> entry (orderId o) (monitor w2) = Some o').
Proof.
  intros Hr Hp [Hget Ho] Hne Hstep Hall Hrun o'.
  pose proof (reachable_wf _ (reachable_step _ _ _ Hr Hstep)) as Hwf1.
  pose proof (run_wf es w1 w2 Hwf1 Hrun) as Hwf2.
  pose proof (lookup_lt_Some _ _ _ Ho) as Hlt.
  assert (∃ w1', step (Ev_statusFulfilled p st now true) w = Some w1' ∧
                 tracked (monitor w1') = tracked (monitor w) ∧
                 inflight w1' !! p = None) as Hthrow.
  { simpl. rewrite Hp, (pollOrder_compare_diff r o st now (monitor w) Ho Hne).
    eexists. split; [reflexivity|]. simpl. split; [done | apply lookup_delete_eq]. }
  simpl in Hstep. rewrite Hp in Hstep.
  rewrite (pollOrder_compare_diff r o st now (monitor w) Ho Hne) in Hstep.
  injection Hstep as <-.
  set (w1 := mkWorld _ _ _) in *.
  assert (objects (monitor w1) !! r = Some o') as Ho1.
  { simpl. by apply list_lookup_insert_eq. }
  assert (entry (orderId o) (monitor w1) = Some o') as He1.
  { unfold entry. simpl. rewrite Hget. simpl. by apply list_lookup_insert_eq. }
  destruct (run_frame es w1 w2 p (AwaitWrite r (lastStatus o) (status st) st) r o'
              Hwf1 Hrun Hall ltac:(simpl; apply lookup_insert_eq) Ho1)
    as (Hp2 & o2 & Ho2 & Hid & Htg & _).
  simpl in Hid, Htg.
  assert (undisturbed (orderId o) es w1 = true -> entry (orderId o) (monitor w2) = Some o')
    as Hkept.
  { intros Hq. by apply (run_entry_kept es w1 w2). }
  split; [done|]. split; [|split; [|split; [exact Hthrow | exact Hkept]]].
  - intros v. eexists. simpl. rewrite Hp2. split; [reflexivity|].
    simpl. unfold pollOrder_notify. rewrite (list_lookup_total_correct _ _ _ Ho2).
    rewrite Hid, Htg.
    destruct (isTerminal (status st)) eqn:Hterm; simpl.
    + split; [done|]. split; [done|]. split; [|split; [done|]].
      * intros _. split; [done|]. split; [apply Map_delete_has|]. split.
        -- intros k Hk. by apply Map_delete_get_ne.
        -- intros Hhas. unfold trackedCount. simpl.
           apply Map_delete_size; [apply (wf_mon _ Hwf2) | by apply Map_has_true].
      * intros Hq. split; [|done]. intros _. unfold trackedCount. simpl.
        apply Map_delete_size; [apply (wf_mon _ Hwf2)|].
        apply Map_has_true. unfold Map_has.
        specialize (Hkept Hq). unfold entry in Hkept.
        by destruct (Map_get (orderId o) (tracked (monitor w2))).
    + split; [done|]. split; [done|]. split; [done|]. split; [done|].
      intros Hq. split; [done|]. intros _. exact (Hkept Hq).
  - eexists. simpl. rewrite Hp2. split; [reflexivity|]. done.
Qed.

Lemma terminal_removed_witness :
  let w2 := world_after [Ev_trackOrder "order-1" 100 (Some T0) T0; Ev_start;
                         Ev_timer (T0 + 10000) never;
                         Ev_statusFulfilled 0 settled (T0 + 10005) false;
                         Ev_trackOrder "order-2" 200 None (T0 + 10006);
                         Ev_timer (T0 + 20000) never;
                         Ev_statusRejected 1] in
  ∃ w3, step (Ev_writeFulfilled 0 (CbReturned Undefined)) w2 = Some w3 ∧
        Map_has "order-1" (tracked (monitor w3)) = false ∧
        trackedCount (monitor w3) = trackedCount (monitor w2) - 1.
Proof.
  intros w2.
  destruct (terminal_removed
              (world_after [Ev_trackOrder "order-1" 100 (Some T0) T0; Ev_start;
                            Ev_timer (T0 + 10000) never])
              0%nat 0%nat o_one settled (T0 + 10005)
              (world_after [Ev_trackOrder "order-1" 100 (Some T0) T0; Ev_start;
                            Ev_timer (T0 + 10000) never;
                            Ev_statusFulfilled 0 settled (T0 + 10005) false])
              [Ev_trackOrder "order-2" 200 None (T0 + 10006);
               Ev_timer (T0 + 20000) never; Ev_statusRejected 1]
              w2
              (world_after_reachable _)
              ltac:(vm_compute; reflexivity)
              ltac:(split; vm_compute; reflexivity)
              ltac:(discriminate) ltac:(vm_compute; reflexivity)
              ltac:(repeat constructor; discriminate)
              ltac:(vm_compute; reflexivity))
    as (_ & H & _).
  destruct (H Undefined) as (w3 & Hstep & _ & _ & Hterm & _ & Hq).
  exists w3. split; [exact Hstep|]. split.
  - apply Hterm. vm_compute. reflexivity.
  - apply Hq; vm_compute; reflexivity.
Defined.

(** Why the last part needs its condition: two ticks start two polls of
    the same order; the first sees "processing", the second "settled" and
    removes the order; the first, whose new status is not terminal, then
    ends with the order untracked and the object carrying "settled". *)
Example overlapping_poll_removes :
  let w := world_after [Ev_trackOrder "order-1" 100 (Some T0) T0; Ev_start;
                        Ev_timer (T0 + 10000) never; Ev_timer (T0 + 20000) never;
                        Ev_statusFulfilled 0 (statusOf "order-1" "processing") (T0 + 20001) false;
                        Ev_statusFulfilled 1 settled (T0 + 20002) false;
                        Ev_writeFulfilled 1 (CbReturned Undefined);
                        Ev_writeFulfilled 0 (CbReturned Undefined)] in
  Map_has "order-1" (tracked (monitor w)) = false ∧
  lastStatus <$> objects (monitor w) !! 0%nat = Some "settled"%string ∧
  size (inflight w) = 0%nat ∧
  List.filter isNotification (calls (monitor w))
  = [OnStatusChange 100 "order-1" "processing" "settled" settled;
     OnStatusChange 100 "order-1" "pending" "processing" (statusOf "order-1" "processing")].
Proof. vm_compute. done. Qed.

(** ** Address validation *)

Example evm_ok :
  isValidAddress (units "  0x52908400098527886E0F7030069857D2E4169EE7 ")
    (Some (units "Ethereum")) = Return true.
Proof. vm_compute. reflexivity. Qed.

Example evm_short :
  isValidAddress (units "0x52908400098527886E0F7030069857D2E4169EE") None = Return false.
Proof. vm_compute. reflexivity. Qed.

Example btc_ok :
  isValidAddress (units "bc1qar0srrr7xfkvy5l643lydnw9re59gtzzwf5mdq") (Some (units "BITCOIN"))
  = Return true.
Proof. vm_compute. reflexivity. Qed.

Example btc_as_eth :
  isValidAddress (units "bc1qar0srrr7xfkvy5l643lydnw9re59gtzzwf5mdq") (Some (units "eth"))
  = Return false.
Proof. vm_compute. reflexivity. Qed.

Example constructor_throws :
  isValidAddress (units "0x52908400098527886E0F7030069857D2E4169EE7")
    (Some (units "Constructor")) = ThrowTypeError.
Proof. vm_compute. reflexivity. Qed.

(** *** The matcher *)

Lemma repeatClass_spec ranges min max k s :
  repeatClass ranges min max k s = true <->
  ∃ pre post, s = pre ++ post ∧
    Forall (fun c => inClass c ranges = true) pre ∧
    (min <= length pre)%nat ∧ (∀ n, max = Some n -> (length pre <= n)%nat) ∧
    k post = true.
Proof.
  revert min max. induction s as [|c s IH]; intros min max; simpl.
  - rewrite orb_false_r, andb_true_iff, bool_decide_eq_true. split.
    + intros [-> Hk]. exists [], []. repeat split; auto; simpl; intros; lia.
    + intros (pre & post & Heq & _ & Hmin & _ & Hk).
      symmetry in Heq. apply app_eq_nil in Heq as [-> ->]. simpl in Hmin.
      split; [lia | done].
  - rewrite orb_true_iff, !andb_true_iff, bool_decide_eq_true, negb_true_iff,
      bool_decide_eq_false, IH. split.
    + intros [[-> Hk] | [[Hc Hmax] (pre & post & -> & Hpre & Hmin & Hmx & Hk)]].
      * exists [], (c :: s). repeat split; auto; simpl; intros; lia.
      * exists (c :: pre), post. split; [done|]. split; [by constructor|].
        split; [simpl; lia|]. split; [|done].
        intros n ->. simpl. destruct n as [|n]; [done|].
        specialize (Hmx n eq_refl). lia.
    + intros (pre & post & Heq & Hpre & Hmin & Hmx & Hk).
      destruct pre as [|c' pre]; simpl in *.
      * left. subst post. split; [lia | done].
      * right. injection Heq as -> ->. apply Forall_cons in Hpre as [Hc Hpre].
        split; [split; [done|]|].
        -- intros ->. specialize (Hmx 0%nat eq_refl). lia.
        -- exists pre, post. repeat split; auto; [lia|].
           intros n Hn. destruct max as [[|m]|]; simpl in Hn; try done.
           ++ specialize (Hmx 0%nat eq_refl). lia.
           ++ injection Hn as <-. specialize (Hmx (S m) eq_refl). lia.
Qed.

Lemma matchAt_lit cs re k s :
  matchAt (foldr (fun c acc => Cat (Char c) acc) re cs) k s = true <->
  ∃ rest, s = cs ++ rest ∧ matchAt re k rest = true.
Proof.
  revert s. induction cs as [|c cs IH]; intros s; simpl.
  - split; [intros H; by exists s | intros (rest & -> & H); done].
  - destruct s as [|c' s]; simpl.
    + split; [done | intros (rest & H & _); done].
    + rewrite andb_true_iff, bool_decide_eq_true, IH. split.
      * intros [-> (rest & -> & H)]. by exists rest.
      * intros (rest & Heq & H). injection Heq as -> ->. split; [done | by exists rest].
Qed.

(** What a pattern matches is a prefix of at least [minLength]
    characters, letters and digits only when the pattern is made of
    such. *)
Lemma matchAt_prefix re k s :
  matchAt re k s = true ->
  ∃ pre post, s = pre ++ post ∧ k post = true ∧
    (minLength re <= length pre)%nat ∧
    (alnumRe re = true -> Forall (fun c => isAlnum c = true) pre).
Proof.
  revert k s. induction re as [c|rs|a IHa b IHb|a IHa b IHb|rs mn mx]; intros k s; simpl.
  - destruct s as [|c' s]; [done|]. rewrite andb_true_iff, bool_decide_eq_true.
    intros [-> Hk]. exists [c], s.
    split; [done|]. split; [done|]. split; [simpl; lia|]. intros Hc. by constructor.
  - destruct s as [|c' s]; [done|]. rewrite andb_true_iff.
    intros [Hc Hk]. exists [c'], s.
    split; [done|]. split; [done|]. split; [simpl; lia|]. intros Hrs.
    constructor; [|done]. unfold isAlnum, inClass in *.
    apply existsb_exists in Hc as (r & Hr & Hin).
    rewrite forallb_forall in Hrs. specialize (Hrs r Hr).
    unfold alnumRange in Hrs. apply existsb_exists in Hrs as (a & Ha & Hsub).
    apply existsb_exists. exists a. split; [done|].
    apply andb_true_iff in Hin as [H1 H2]. apply andb_true_iff in Hsub as [H3 H4].
    apply N.leb_le in H1, H2, H3, H4. apply andb_true_iff. split; apply N.leb_le; lia.
  - intros H. apply IHa in H as (p1 & rest & -> & H & Hl1 & Ha).
    apply IHb in H as (p2 & post & -> & Hk & Hl2 & Hb).
    exists (p1 ++ p2), post. rewrite app_assoc.
    split; [done|]. split; [done|]. split.
    + rewrite length_app. lia.
    + rewrite andb_true_iff. intros [H1 H2]. apply Forall_app. auto.
  - rewrite orb_true_iff. intros [H | H].
    + apply IHa in H as (pre & post & -> & Hk & Hl & Ha). exists pre, post.
      split; [done|]. split; [done|]. split; [lia|].
      rewrite andb_true_iff. intros [H1 _]. auto.
    + apply IHb in H as (pre & post & -> & Hk & Hl & Hb). exists pre, post.
      split; [done|]. split; [done|]. split; [lia|].
      rewrite andb_true_iff. intros [_ H2]. auto.
  - intros H. apply repeatClass_spec in H as (pre & post & -> & Hpre & Hmin & _ & Hk).
    exists pre, post. split; [done|]. split; [done|]. split; [done|]. intros Hrs.
    eapply Forall_impl; [exact Hpre|]. intros c Hc. simpl in Hc.
    unfold isAlnum, inClass in *.
    apply existsb_exists in Hc as (r & Hr & Hin).
    rewrite forallb_forall in Hrs. specialize (Hrs r Hr).
    unfold alnumRange in Hrs. apply existsb_exists in Hrs as (a & Ha & Hsub).
    apply existsb_exists. exists a. split; [done|].
    apply andb_true_iff in Hin as [H1 H2]. apply andb_true_iff in Hsub as [H3 H4].
    apply N.leb_le in H1, H2, H3, H4. apply andb_true_iff. split; apply N.leb_le; lia.
Qed.

Lemma test_alnum re s :
  test re s = true ->
  (minLength re <= length s)%nat ∧
  (alnumRe re = true -> Forall (fun c => isAlnum c = true) s).
Proof.
  unfold test. intros H. apply matchAt_prefix in H as (pre & post & -> & Hk & Hl & Ha).
  apply bool_decide_eq_true in Hk. subst post. rewrite app_nil_r. done.
Qed.

Lemma test_evm s :
  test DEFAULT_EVM_PATTERN s = true <->
  ∃ digits, s = units "0x" ++ digits ∧ length digits = 40%nat ∧
            Forall (fun c => inClass c hex = true) digits.
Proof.
  unfold test, DEFAULT_EVM_PATTERN, lit. rewrite matchAt_lit. simpl matchAt. split.
  - intros (rest & -> & H). apply repeatClass_spec in H
      as (pre & post & -> & Hpre & Hmin & Hmax & Hk).
    apply bool_decide_eq_true in Hk. subst post. rewrite app_nil_r.
    exists pre. split; [done|]. split; [|done]. specialize (Hmax _ eq_refl). lia.
  - intros (digits & -> & Hlen & Hd). exists digits. split; [done|].
    apply repeatClass_spec. exists digits, []. rewrite app_nil_r.
    split; [done|]. split; [done|]. split; [lia|]. split; [|done].
    intros n [= <-]. lia.
Qed.

(** *** Trimming *)

Lemma trimStart_ws ws x :
  Forall (fun c => isWhiteSpace c = true) ws -> trimStart (ws ++ x) = trimStart x.
Proof.
  induction ws as [|c ws IH]; simpl; [done|].
  intros H. apply Forall_cons in H as [Hc Hws]. rewrite Hc. auto.
Qed.

Lemma trimStart_all_ws ws :
  Forall (fun c => isWhiteSpace c = true) ws -> trimStart ws = [].
Proof.
  intros H. rewrite <- (app_nil_r ws). by rewrite trimStart_ws.
Qed.

Lemma trimStart_nil_inv s :
  trimStart s = [] -> Forall (fun c => isWhiteSpace c = true) s.
Proof.
  induction s as [|c s IH]; simpl; [done|].
  destruct (isWhiteSpace c) eqn:E; [|done]. intros H. constructor; auto.
Qed.

Lemma trimStart_app s y : trimStart s ≠ [] -> trimStart (s ++ y) = trimStart s ++ y.
Proof.
  induction s as [|c s IH]; simpl; [done|].
  destruct (isWhiteSpace c); [exact IH | done].
Qed.

Lemma trim_ws ws ws' s :
  Forall (fun c => isWhiteSpace c = true) ws ->
  Forall (fun c => isWhiteSpace c = true) ws' ->
  trim (ws ++ s ++ ws') = trim s.
Proof.
  intros Hws Hws'. unfold trim. rewrite trimStart_ws by done.
  destruct (trimStart s) as [|c t] eqn:E.
  - apply trimStart_nil_inv in E.
    rewrite (trimStart_all_ws (s ++ ws')); [done|]. apply Forall_app. done.
  - rewrite trimStart_app by (by rewrite E). rewrite E.
    rewrite reverse_app. rewrite (trimStart_ws (reverse ws')); [done|].
    by apply Forall_reverse.
Qed.

Lemma ownProperty_elem key o pattern :
  ownProperty key o = Some pattern -> (key, pattern) ∈ o.
Proof.
  induction o as [|[k v] o IH]; simpl; [done|].
  case_bool_decide as Hk.
  - intros [= ->]. subst. left.
  - intros H. right. auto.
Qed.

Lemma ownProperty_None key o : ownProperty key o = None <-> key ∉ map fst o.
Proof.
  induction o as [|[k v] o IH]; simpl.
  - split; [intros _; apply not_elem_of_nil | done].
  - rewrite not_elem_of_cons. case_bool_decide as Hk.
    + split; [done | intros [Hne _]; congruence].
    + rewrite IH. split; [intros H; split; [congruence | done] | tauto].
Qed.

Lemma patterns_alnum key pattern :
  (key, pattern) ∈ ADDRESS_PATTERNS ->
  alnumRe pattern = true ∧ (25 <= minLength pattern)%nat.
Proof.
  intros Hin.
  assert (forallb (fun kv => alnumRe (snd kv) && (25 <=? minLength (snd kv))%nat)
            ADDRESS_PATTERNS = true) as H by (vm_compute; reflexivity).
  rewrite forallb_forall in H. apply list_elem_of_In in Hin.
  specialize (H _ Hin). simpl in H. apply andb_true_iff in H as [H1 H2].
  split; [done|]. by apply Nat.leb_le.
Qed.

Lemma anyPattern_true (d : bool) (ps : list (list N * RegExp)) s :
  (if d then Return true else Return (existsb (fun kv => test (snd kv) s) ps))
  = Return true ->
  d = true ∨ ∃ key pattern, (key, pattern) ∈ ps ∧ test pattern s = true.
Proof.
  destruct d; [by left|]. intros [= Hex]. right.
  apply existsb_exists in Hex as ([key pattern] & Hin & Ht).
  exists key, pattern. split; [by apply list_elem_of_In | done].
Qed.

(** Whatever chain is given, an accepted address matched the default
    pattern or one of the patterns of the table. *)
Lemma isValidAddress_true address chain :
  isValidAddress address chain = Return true ->
  address ≠ [] ∧
  (test DEFAULT_EVM_PATTERN (trim address) = true ∨
   ∃ key pattern, (key, pattern) ∈ ADDRESS_PATTERNS ∧ test pattern (trim address) = true).
Proof.
  unfold isValidAddress. case_bool_decide as Ha; [done|]. intros H. split; [done|].
  pose proof (anyPattern_true (test DEFAULT_EVM_PATTERN (trim address)) ADDRESS_PATTERNS
                (trim address)) as Hany.
  destruct chain as [[|c chain]|]; [by apply Hany| |by apply Hany].
  unfold getProperty in H.
  destruct (ownProperty _ ADDRESS_PATTERNS) as [pattern|] eqn:E.
  - injection H as H. right. apply ownProperty_elem in E. eauto.
  - case_bool_decide; [done|]. injection H as H. by left.
Qed.

(** X19: for a chain whose name, letters only and in lower case, is one
    of ethereum, bsc, polygon, arbitrum, base, avalanche, optimism and
    fantom, or is unknown to the table and not "constructor", an address
    is valid if and only if, surrounding white space apart, it is "0x"
    followed by exactly 40 hexadecimal digits. *)
Theorem isValidAddress_evm address chain :
  chain ≠ [] ->
  (normalizeChain chain ∈ evmChains ∨
   ((normalizeChain chain ∉ map fst ADDRESS_PATTERNS) ∧
    normalizeChain chain ≠ units "constructor")) ->
  (isValidAddress address (Some chain) = Return true <->
   ∃ digits, trim address = units "0x" ++ digits ∧ length digits = 40%nat ∧
             Forall (fun c => inClass c hex = true) digits).
Proof.
  intros Hc Hkey. rewrite <- test_evm.
  assert (getProperty (normalizeChain chain) = Own DEFAULT_EVM_PATTERN ∨
          getProperty (normalizeChain chain) = Missing) as Hprop.
  { destruct Hkey as [Hevm | [Hun Hne]].
    - left. unfold evmChains in Hevm.
      repeat (apply elem_of_cons in Hevm as [-> | Hevm]; [vm_compute; reflexivity|]).
      by apply elem_of_nil in Hevm.
    - right. unfold getProperty. apply ownProperty_None in Hun. rewrite Hun.
      by rewrite bool_decide_eq_false_2. }
  unfold isValidAddress. case_bool_decide as Ha.
  - subst address. split; [done|]. intros H. vm_compute in H. done.
  - destruct chain as [|c chain]; [done|].
    destruct Hprop as [-> | ->]; split; intros H; congruence.
Qed.

Lemma isValidAddress_evm_witness :
  isValidAddress (units " 0x52908400098527886E0F7030069857D2E4169EE7") (Some (units "Base-1"))
  = Return true ∧
  ∃ digits, trim (units "0xde709f2102306220921060314715629080e2fb77 ")
            = units "0x" ++ digits ∧ length digits = 40%nat.
Proof.
  split.
  - apply (isValidAddress_evm (units " 0x52908400098527886E0F7030069857D2E4169EE7")
             (units "Base-1")); [discriminate | left; vm_compute; do 4 right; left|].
    exists (units "52908400098527886E0F7030069857D2E4169EE7").
    split; [vm_compute; reflexivity|]. split; [reflexivity|].
    rewrite Forall_forall. intros c Hc. vm_compute in Hc.
    repeat (apply elem_of_cons in Hc as [-> | Hc]; [vm_compute; reflexivity|]).
    by apply elem_of_nil in Hc.
  - destruct (proj1 (isValidAddress_evm
                       (units "0xde709f2102306220921060314715629080e2fb77 ")
                       (units "dogechain") ltac:(discriminate)
                       ltac:(right; split; [|discriminate];
                             apply ownProperty_None; vm_compute; reflexivity))
                ltac:(vm_compute; reflexivity)) as (digits & H1 & H2 & _).
    exists digits. split; [exact H1 | exact H2].
Defined.

(** X20: an address that is valid for some chain is valid when no chain
    is given; without a chain, or with the empty chain name, an address
    is valid exactly when, surrounding white space apart, it matches the
    default pattern or the pattern of some chain of the table. *)
Theorem isValidAddress_any_chain address :
  (∀ chain, isValidAddress address (Some chain) = Return true ->
            isValidAddress address None = Return true) ∧
  isValidAddress address (Some []) = isValidAddress address None ∧
  (isValidAddress address None = Return true <->
   address ≠ [] ∧
   (test DEFAULT_EVM_PATTERN (trim address) = true ∨
    ∃ key pattern, (key, pattern) ∈ ADDRESS_PATTERNS ∧
                   test pattern (trim address) = true)).
Proof.
  assert (address ≠ [] ->
          (test DEFAULT_EVM_PATTERN (trim address) = true ∨
           ∃ key pattern, (key, pattern) ∈ ADDRESS_PATTERNS ∧
                          test pattern (trim address) = true) ->
          isValidAddress address None = Return true) as Hback.
  { intros Ha H. unfold isValidAddress. rewrite bool_decide_eq_false_2 by done.
    generalize ADDRESS_PATTERNS H. intros ps [-> | (key & pattern & Hin & Ht)]; [done|].
    destruct (test DEFAULT_EVM_PATTERN (trim address)); [done|]. f_equal.
    apply existsb_exists. exists (key, pattern). split; [by apply list_elem_of_In | done]. }
  split; [|split; [done|split]].
  - intros chain H. apply isValidAddress_true in H as [Ha H]. by apply Hback.
  - apply isValidAddress_true.
  - intros [Ha H]. by apply Hback.
Qed.

Lemma isValidAddress_any_chain_witness :
  isValidAddress (units "TJRabPrwbZy45sbavfcjinPJC18kjpRTv8") None = Return true.
Proof.
  destruct (isValidAddress_any_chain (units "TJRabPrwbZy45sbavfcjinPJC18kjpRTv8"))
    as [H _].
  apply (H (units "Tron")). vm_compute. reflexivity.
Defined.

(** X21: the validation throws a [TypeError] exactly when the address
    is not empty and the chain name, letters only and in lower case, is
    "constructor": the table inherits that property, which is no
    pattern.  In every other case it returns a boolean. *)
Theorem isValidAddress_throws address chain :
  (isValidAddress address chain = ThrowTypeError <->
   address ≠ [] ∧ ∃ c, chain = Some c ∧ normalizeChain c = units "constructor") ∧
  (address = [] -> isValidAddress address chain = Return false).
Proof.
  split.
  - unfold isValidAddress. case_bool_decide as Ha.
    + split; [done | intros [H _]; done].
    + assert (∀ (d : bool) (ps : list (list N * RegExp)),
                (if d then Return true
                 else Return (existsb (fun kv => test (snd kv) (trim address)) ps))
                ≠ ThrowTypeError) as Hany by (intros [] ps; done).
      destruct chain as [[|c0 c]|].
      * split; [intros H; by apply Hany in H|]. intros [_ (c & [= <-] & H)]. done.
      * unfold getProperty.
        destruct (ownProperty _ ADDRESS_PATTERNS) as [pattern|] eqn:E.
        -- split; [done|]. intros [_ (c' & [= <-] & H)]. rewrite H in E.
           vm_compute in E. done.
        -- case_bool_decide as Hk.
           ++ split; [|done]. intros _. split; [done|]. by exists (c0 :: c).
           ++ split; [done|]. intros [_ (c' & [= <-] & H)]. done.
      * split; [intros H; by apply Hany in H|]. intros [_ (c & H & _)]. done.
  - intros ->. done.
Qed.

Lemma isValidAddress_throws_witness :
  isValidAddress (units "x") (Some (units "Con-Struct_or 1")) = ThrowTypeError ∧
  isValidAddress [] (Some (units "constructor")) = Return false.
Proof.
  split.
  - apply (isValidAddress_throws (units "x") (Some (units "Con-Struct_or 1"))).
    split; [discriminate|]. exists (units "Con-Struct_or 1"). split; reflexivity.
  - apply (isValidAddress_throws [] (Some (units "constructor"))). reflexivity.
Defined.

(** X22: an accepted address, surrounding white space apart, consists
    of at least 25 letters and digits of ASCII and nothing else; and
    white space around a non-empty address does not change the
    verdict. *)
Theorem isValidAddress_accepts address chain :
  (isValidAddress address chain = Return true ->
   Forall (fun c => isAlnum c = true) (trim address) ∧
   (25 <= length (trim address))%nat) ∧
  (∀ ws ws',
     Forall (fun c => isWhiteSpace c = true) ws ->
     Forall (fun c => isWhiteSpace c = true) ws' ->
     address ≠ [] ->
     isValidAddress (ws ++ address ++ ws') chain = isValidAddress address chain).
Proof.
  split.
  - intros H. apply isValidAddress_true in H as [_ [H | (key & pattern & Hin & H)]].
    + apply test_alnum in H as [Hlen Hal]. split; [by apply Hal|].
      simpl in Hlen. lia.
    + destruct (patterns_alnum key pattern Hin) as [Hal Hmin].
      apply test_alnum in H as [Hlen H]. split; [by apply H | lia].
  - intros ws ws' Hws Hws' Ha. unfold isValidAddress.
    rewrite (bool_decide_eq_false_2 (address = [])) by done.
    rewrite bool_decide_eq_false_2.
    + by rewrite trim_ws.
    + intros H. apply app_eq_nil in H as [_ H]. apply app_eq_nil in H as [H _]. done.
Qed.

Lemma isValidAddress_accepts_witness :
  (25 <= length (trim (units " rN7n7otQDd6FczFgLdSqtcsAUxDkw6fzRH  ")))%nat ∧
  isValidAddress ([9; 8203] ++ units "0x52908400098527886E0F7030069857D2E4169EE7" ++ [160])%N
    (Some (units "bsc"))
  = isValidAddress ([8203] ++ units "0x52908400098527886E0F7030069857D2E4169EE7")%N
      (Some (units "bsc")).
Proof.
  split.
  - apply (isValidAddress_accepts (units " rN7n7otQDd6FczFgLdSqtcsAUxDkw6fzRH  ")
             (Some (units "XRP"))). vm_compute. reflexivity.
  - destruct (isValidAddress_accepts
                ([8203] ++ units "0x52908400098527886E0F7030069857D2E4169EE7")%N
                (Some (units "bsc"))) as [_ H].
    apply (H [9%N] [160%N]); [| |discriminate];
      (constructor; [vm_compute; reflexivity | constructor]).
Defined.

Example zero_width_space_not_trimmed :
  isValidAddress ([8203] ++ units "0x52908400098527886E0F7030069857D2E4169EE7")%N
    (Some (units "bsc")) = Return false.
Proof. vm_compute. reflexivity. Qed.

(** ** The lookup of an order *)

Lemma getOrderBySideshiftId_cons k row table :
  Database.getOrderBySideshiftId k (row :: table) =
  if bool_decide (sideshiftOrderId row = k) then Some row
  else Database.getOrderBySideshiftId k table.
Proof.
  unfold Database.getOrderBySideshiftId. simpl. by case_bool_decide.
Qed.

Lemma getOrderBySideshiftId_Some k row table :
  Database.getOrderBySideshiftId k table = Some row ->
  row ∈ table ∧ sideshiftOrderId row = k.
Proof.
  induction table as [|r table IH]; [done|].
  rewrite getOrderBySideshiftId_cons. case_bool_decide as Hk.
  - intros [= <-]. split; [left | done].
  - intros H. destruct (IH H). split; [by right | done].
Qed.

(** X23: the lookup of an order by its SideShift id.  The column is
    unique, so the lookup does not depend on the order of the rows: it
    returns a row exactly when the table holds it under that id.  After
    [updateOrderStatus] the lookup of the updated id returns the same
    row with the new status, and the lookup of any other id returns
    what it returned before. *)
Theorem getOrderBySideshiftId_updated table oid k s :
  NoDup (map sideshiftOrderId table) ->
  (∀ row, Database.getOrderBySideshiftId k table = Some row
          <-> row ∈ table ∧ sideshiftOrderId row = k) ∧
  Database.getOrderBySideshiftId k (Database.updateOrderStatus oid s table)
  = (fun row => if bool_decide (k = oid)
                then mkOrder k (o_telegramId row) s (o_createdAt row)
                else row)
      <$> Database.getOrderBySideshiftId k table.
Proof.
  intros Hnd. split.
  - intros row. split; [apply getOrderBySideshiftId_Some|].
    intros [Hin Hk]. induction table as [|r table IH]; [by apply elem_of_nil in Hin|].
    rewrite getOrderBySideshiftId_cons. simpl in Hnd. apply NoDup_cons in Hnd as [Hr Hnd].
    apply elem_of_cons in Hin as [-> | Hin].
    + by rewrite bool_decide_eq_true_2.
    + rewrite bool_decide_eq_false_2; [by apply IH|].
      intros Heq. apply Hr. rewrite Heq, <- Hk. apply list_elem_of_fmap. by exists row.
  - clear Hnd. induction table as [|r table IH]; [done|].
    unfold Database.updateOrderStatus in *. simpl map.
    rewrite !getOrderBySideshiftId_cons.
    destruct (decide (sideshiftOrderId r = oid)) as [Ho | Ho].
    + rewrite (bool_decide_eq_true_2 _ Ho). simpl sideshiftOrderId.
      destruct (decide (sideshiftOrderId r = k)) as [Hk | Hk].
      * rewrite !(bool_decide_eq_true_2 _ Hk). simpl.
        rewrite bool_decide_eq_true_2 by congruence. by rewrite Hk.
      * rewrite !(bool_decide_eq_false_2 _ Hk). apply IH.
    + rewrite (bool_decide_eq_false_2 _ Ho).
      destruct (decide (sideshiftOrderId r = k)) as [Hk | Hk].
      * rewrite !(bool_decide_eq_true_2 _ Hk). simpl.
        rewrite bool_decide_eq_false_2 by congruence. done.
      * rewrite !(bool_decide_eq_false_2 _ Hk). apply IH.
Qed.

Lemma getOrderBySideshiftId_updated_witness :
  Database.getOrderBySideshiftId "order-b"
    (Database.updateOrderStatus "order-b" "settled" table_ab)
  = Some (mkOrder "order-b" 12345 "settled" None) ∧
  Database.getOrderBySideshiftId "order-a"
    (Database.updateOrderStatus "order-b" "settled" table_ab)
  = Some row_a.
Proof.
  destruct (getOrderBySideshiftId_updated table_ab "order-b" "order-b" "settled"
              table_ab_NoDup) as [_ Hb].
  destruct (getOrderBySideshiftId_updated table_ab "order-b" "order-a" "settled"
              table_ab_NoDup) as [_ Ha].
  split; [rewrite Hb | rewrite Ha]; reflexivity.
Defined.
